(** * Session dispatcher and persistent terminal processes of code-server

  A shallow embedding of
  - [lib/vscode/src/vs/platform/terminal/node/ptyService.ts]
    (classes [PersistentTerminalProcess] and [PtyService]) and
  - [lib/vscode/src/vs/server/node/server.ts] (class [Vscode]),
  followed by the properties the specification states about them.

  Conventions.  A JavaScript [number] that holds an integer is a [Z];
  where the code computes with it (the counter of process ids,
  [printTime]) the rounding of doubles is written out.  A method becomes
  a function from the object's state to the new state,
  the list of calls it makes on its collaborators (in program order) and
  its result.  An [async] method that awaits a collaborator is split at
  the [await]: the part before it and the part after it are separate
  functions, so that other handlers may run in between, as they do on the
  event loop.  A thrown [Error] is the [Throw] constructor of [Result]
  and carries the message of the source. *)

From Stdlib Require Import ZArith QArith List Bool Lia.
From stdpp Require Import base option list gmap strings pretty sorting.

Local Open Scope Z_scope.
Local Open Scope string_scope.
Local Open Scope list_scope.

(** ** Results of calls that may throw *)

Inductive Result (A : Type) : Type :=
| Ok (a : A)
| Throw (message : string).
Arguments Ok {A} a.
Arguments Throw {A} message.

(** What a function that contains an [await] does at the [await]: either
  it has already returned, or it is suspended. *)
Inductive Step (A : Type) : Type :=
| Return (a : A)
| Await.
Arguments Return {A} a.
Arguments Await {A}.

(** ** Collaborators from [vs/base/common/async] *)

Module Async.

(** Modelled from the spec: [RunOnceScheduler] is not among the sources.
    The spec describes a one-shot timer that is armed, cancelled (an
    idempotent operation) and queried.  Its delay, a constant of
    [LocalReconnectConstants] that is not among the sources either, is
    not part of the state: that the timer fires is an event of the
    environment. *)
Record RunOnceScheduler : Type := {
  scheduled : bool
}.

Definition newRunOnceScheduler : RunOnceScheduler :=
  {| scheduled := false |}.
Definition schedule (r : RunOnceScheduler) : RunOnceScheduler :=
  {| scheduled := true |}.
Definition cancel (r : RunOnceScheduler) : RunOnceScheduler :=
  {| scheduled := false |}.
Definition isScheduled (r : RunOnceScheduler) : bool := scheduled r.

(** Modelled from the spec: [AutoOpenBarrier] is not among the sources.
    The spec describes a barrier that opens on request and opens by
    itself once its timeout (the constructor's argument, in
    milliseconds) has elapsed. *)
Record AutoOpenBarrier : Type := {
  autoOpenTimeMs : Z;
  isOpen : bool
}.

Definition newAutoOpenBarrier (ms : Z) : AutoOpenBarrier :=
  {| autoOpenTimeMs := ms; isOpen := false |}.
Definition open (b : AutoOpenBarrier) : AutoOpenBarrier :=
  {| autoOpenTimeMs := autoOpenTimeMs b; isOpen := true |}.

End Async.

(** ** The output recorder, [vs/platform/terminal/common/terminalRecorder] *)

Module TerminalRecorder.

(** Modelled from the spec: [TerminalRecorder] is not among the sources.
    The spec gives it the terminal dimensions at buffer start and an
    ordered, append-only sequence of data chunks and resize events, which
    a replay emits as one batch. *)
Inductive RecorderEvent : Type :=
| RecData (data : string)
| RecResize (cols rows : Z).

Record t : Type := {
  startCols : Z;
  startRows : Z;
  events : list RecorderEvent
}.

Definition new (cols rows : Z) : t :=
  {| startCols := cols; startRows := rows; events := [] |}.
Definition recordData (d : string) (r : t) : t :=
  {| startCols := startCols r; startRows := startRows r;
     events := events r ++ [RecData d] |}.
Definition recordResize (cols rows : Z) (r : t) : t :=
  {| startCols := startCols r; startRows := startRows r;
     events := events r ++ [RecResize cols rows] |}.

(** The payload of [onProcessReplay]. *)
Record ReplayEvent : Type := { replayEvents : list RecorderEvent }.

Definition generateReplayEvent (r : t) : ReplayEvent :=
  {| replayEvents := events r |}.

(** [e.data] of a replayed event; a resize carries no characters. *)
Definition eventData (e : RecorderEvent) : string :=
  match e with
  | RecData d => d
  | RecResize _ _ => EmptyString
  end.

End TerminalRecorder.

(** [ITerminalLaunchError] of [vs/platform/terminal/common/terminal]:
  what [TerminalProcess.start] resolves to when the child process could
  not be spawned, a message and an optional code. *)
Record ITerminalLaunchError : Type := {
  launchMessage : string;
  launchCode : option Z
}.

(** ** class [PersistentTerminalProcess] *)

Module PersistentTerminalProcess.
Import Async.

(** Calls made on the wrapped [TerminalProcess], events fired on the
    object's own emitters, and log lines. *)
Inductive Effect : Type :=
| TerminalStart
| TerminalShutdown (immediate : bool)
| TerminalInput (data : string)
| TerminalResize (cols rows : Z)
| TerminalAcknowledgeDataEvent (charCount : Z)
| TerminalClearUnacknowledgedChars
| FireProcessReady (pid : Z) (cwd : string)
| FireProcessTitleChanged (title : string)
| FireProcessReplay (ev : TerminalRecorder.ReplayEvent)
| LogGraceTimeExpired (id pid : Z)
| LogShortGraceTimeExpired (id pid : Z)
| LogReplaying (id dataLength sizeEvents : Z).

Record t : Type := {
  _persistentTerminalId : Z;
  workspaceId : string;
  workspaceName : string;
  shouldPersistTerminal : bool;
  _pendingCommands : gmap Z unit;
  _recorder : TerminalRecorder.t;
  _isStarted : bool;
  _orphanQuestionBarrier : option AutoOpenBarrier;
  _orphanQuestionReplyTime : Z;
  _disconnectRunner1 : RunOnceScheduler;
  _disconnectRunner2 : RunOnceScheduler;
  _inReplay : bool;
  _pid : Z;
  _cwd : string;
  (** [_terminalProcess.currentTitle], the one piece of the wrapped
      process' state that the class reads. *)
  currentTitle : string
}.

(** The constructor (lines 235-279). *)
Definition new (id : Z) (wsId wsName : string) (shouldPersist : bool)
    (cols rows : Z) : t :=
  {| _persistentTerminalId := id;
     workspaceId := wsId;
     workspaceName := wsName;
     shouldPersistTerminal := shouldPersist;
     _pendingCommands := ∅;
     _recorder := TerminalRecorder.new cols rows;
     _isStarted := false;
     _orphanQuestionBarrier := None;
     _orphanQuestionReplyTime := 0;
     _disconnectRunner1 := newRunOnceScheduler;
     _disconnectRunner2 := newRunOnceScheduler;
     _inReplay := false;
     _pid := -1;
     _cwd := EmptyString;
     currentTitle := EmptyString |}.

(** Field updates.  There is none for [_inReplay]: the source never
    assigns it after its initialiser. *)
Definition set_pendingCommands (v : gmap Z unit) (p : t) : t :=
  {| _persistentTerminalId := _persistentTerminalId p;
     workspaceId := workspaceId p; workspaceName := workspaceName p;
     shouldPersistTerminal := shouldPersistTerminal p;
     _pendingCommands := v;
     _recorder := _recorder p; _isStarted := _isStarted p;
     _orphanQuestionBarrier := _orphanQuestionBarrier p;
     _orphanQuestionReplyTime := _orphanQuestionReplyTime p;
     _disconnectRunner1 := _disconnectRunner1 p;
     _disconnectRunner2 := _disconnectRunner2 p;
     _inReplay := _inReplay p; _pid := _pid p; _cwd := _cwd p;
     currentTitle := currentTitle p |}.
Definition set_recorder (v : TerminalRecorder.t) (p : t) : t :=
  {| _persistentTerminalId := _persistentTerminalId p;
     workspaceId := workspaceId p; workspaceName := workspaceName p;
     shouldPersistTerminal := shouldPersistTerminal p;
     _pendingCommands := _pendingCommands p;
     _recorder := v; _isStarted := _isStarted p;
     _orphanQuestionBarrier := _orphanQuestionBarrier p;
     _orphanQuestionReplyTime := _orphanQuestionReplyTime p;
     _disconnectRunner1 := _disconnectRunner1 p;
     _disconnectRunner2 := _disconnectRunner2 p;
     _inReplay := _inReplay p; _pid := _pid p; _cwd := _cwd p;
     currentTitle := currentTitle p |}.
Definition set_isStarted (v : bool) (p : t) : t :=
  {| _persistentTerminalId := _persistentTerminalId p;
     workspaceId := workspaceId p; workspaceName := workspaceName p;
     shouldPersistTerminal := shouldPersistTerminal p;
     _pendingCommands := _pendingCommands p;
     _recorder := _recorder p; _isStarted := v;
     _orphanQuestionBarrier := _orphanQuestionBarrier p;
     _orphanQuestionReplyTime := _orphanQuestionReplyTime p;
     _disconnectRunner1 := _disconnectRunner1 p;
     _disconnectRunner2 := _disconnectRunner2 p;
     _inReplay := _inReplay p; _pid := _pid p; _cwd := _cwd p;
     currentTitle := currentTitle p |}.
Definition set_orphanQuestion (b : option AutoOpenBarrier) (time : Z)
    (p : t) : t :=
  {| _persistentTerminalId := _persistentTerminalId p;
     workspaceId := workspaceId p; workspaceName := workspaceName p;
     shouldPersistTerminal := shouldPersistTerminal p;
     _pendingCommands := _pendingCommands p;
     _recorder := _recorder p; _isStarted := _isStarted p;
     _orphanQuestionBarrier := b;
     _orphanQuestionReplyTime := time;
     _disconnectRunner1 := _disconnectRunner1 p;
     _disconnectRunner2 := _disconnectRunner2 p;
     _inReplay := _inReplay p; _pid := _pid p; _cwd := _cwd p;
     currentTitle := currentTitle p |}.
Definition set_disconnectRunner1 (v : RunOnceScheduler) (p : t) : t :=
  {| _persistentTerminalId := _persistentTerminalId p;
     workspaceId := workspaceId p; workspaceName := workspaceName p;
     shouldPersistTerminal := shouldPersistTerminal p;
     _pendingCommands := _pendingCommands p;
     _recorder := _recorder p; _isStarted := _isStarted p;
     _orphanQuestionBarrier := _orphanQuestionBarrier p;
     _orphanQuestionReplyTime := _orphanQuestionReplyTime p;
     _disconnectRunner1 := v;
     _disconnectRunner2 := _disconnectRunner2 p;
     _inReplay := _inReplay p; _pid := _pid p; _cwd := _cwd p;
     currentTitle := currentTitle p |}.
Definition set_disconnectRunner2 (v : RunOnceScheduler) (p : t) : t :=
  {| _persistentTerminalId := _persistentTerminalId p;
     workspaceId := workspaceId p; workspaceName := workspaceName p;
     shouldPersistTerminal := shouldPersistTerminal p;
     _pendingCommands := _pendingCommands p;
     _recorder := _recorder p; _isStarted := _isStarted p;
     _orphanQuestionBarrier := _orphanQuestionBarrier p;
     _orphanQuestionReplyTime := _orphanQuestionReplyTime p;
     _disconnectRunner1 := _disconnectRunner1 p;
     _disconnectRunner2 := v;
     _inReplay := _inReplay p; _pid := _pid p; _cwd := _cwd p;
     currentTitle := currentTitle p |}.
Definition set_ready (pid : Z) (cwd : string) (p : t) : t :=
  {| _persistentTerminalId := _persistentTerminalId p;
     workspaceId := workspaceId p; workspaceName := workspaceName p;
     shouldPersistTerminal := shouldPersistTerminal p;
     _pendingCommands := _pendingCommands p;
     _recorder := _recorder p; _isStarted := _isStarted p;
     _orphanQuestionBarrier := _orphanQuestionBarrier p;
     _orphanQuestionReplyTime := _orphanQuestionReplyTime p;
     _disconnectRunner1 := _disconnectRunner1 p;
     _disconnectRunner2 := _disconnectRunner2 p;
     _inReplay := _inReplay p; _pid := pid; _cwd := cwd;
     currentTitle := currentTitle p |}.
Definition set_currentTitle (v : string) (p : t) : t :=
  {| _persistentTerminalId := _persistentTerminalId p;
     workspaceId := workspaceId p; workspaceName := workspaceName p;
     shouldPersistTerminal := shouldPersistTerminal p;
     _pendingCommands := _pendingCommands p;
     _recorder := _recorder p; _isStarted := _isStarted p;
     _orphanQuestionBarrier := _orphanQuestionBarrier p;
     _orphanQuestionReplyTime := _orphanQuestionReplyTime p;
     _disconnectRunner1 := _disconnectRunner1 p;
     _disconnectRunner2 := _disconnectRunner2 p;
     _inReplay := _inReplay p; _pid := _pid p; _cwd := _cwd p;
     currentTitle := v |}.

(** [get pid] and [get title] (lines 232-233). *)
Definition pid (p : t) : Z := _pid p.
Definition title (p : t) : string := currentTitle p.

(** [shutdown(immediate)] (lines 308-310). *)
Definition shutdown (immediate : bool) (p : t) : t * list Effect :=
  (p, [TerminalShutdown immediate]).

(** [attach()] (lines 281-283). *)
Definition attach (p : t) : t * list Effect :=
  (set_disconnectRunner1 (cancel (_disconnectRunner1 p)) p, []).

(** [detach()] (lines 285-291); it has no [await]. *)
Definition detach (p : t) : t * list Effect :=
  if shouldPersistTerminal p
  then (set_disconnectRunner1 (schedule (_disconnectRunner1 p)) p, [])
  else shutdown true p.

(** [triggerReplay()] (lines 340-350). *)
Definition triggerReplay (p : t) : t * list Effect :=
  let ev := TerminalRecorder.generateReplayEvent (_recorder p) in
  let dataLength :=
    fold_left
      (fun acc e =>
         acc + Z.of_nat (String.length (TerminalRecorder.eventData e)))
      (TerminalRecorder.replayEvents ev) 0 in
  (p, [LogReplaying (_persistentTerminalId p) dataLength
         (Z.of_nat (length (TerminalRecorder.replayEvents ev)));
       FireProcessReplay ev;
       TerminalClearUnacknowledgedChars]).

(** [start()] (lines 293-307), up to its [await]: either the process is
    not started, the child is launched and the function is suspended
    until the launch resolves, or the function returns at once. *)
Definition start_begin (p : t)
    : t * list Effect * Step (option ITerminalLaunchError) :=
  if negb (_isStarted p)
  then (p, [TerminalStart], Await)
  else
    let '(p', effs) := triggerReplay p in
    (p',
     [FireProcessReady (_pid p) (_cwd p);
      FireProcessTitleChanged (currentTitle p)] ++ effs,
     Return None).

(** [start()] after its [await]: [result] is what
    [_terminalProcess.start()] resolved to. *)
Definition start_resume (result : option ITerminalLaunchError) (p : t)
    : t * option ITerminalLaunchError :=
  match result with
  | Some err => (p, Some err)
  | None => (set_isStarted true p, None)
  end.

(** A complete call of [start()] during which no other handler runs. *)
Definition start (result : option ITerminalLaunchError) (p : t)
    : t * list Effect * option ITerminalLaunchError :=
  match start_begin p with
  | (p', effs, Return r) => (p', effs, r)
  | (p', effs, Await) =>
      let '(p'', r) := start_resume result p' in (p'', effs, r)
  end.

(** [input(data)] (lines 311-316). *)
Definition input (data : string) (p : t) : t * list Effect :=
  if _inReplay p then (p, []) else (p, [TerminalInput data]).

(** [resize(cols, rows)] (lines 317-323). *)
Definition resize (cols rows : Z) (p : t) : t * list Effect :=
  if _inReplay p then (p, [])
  else (set_recorder (TerminalRecorder.recordResize cols rows (_recorder p)) p,
        [TerminalResize cols rows]).

(** [acknowledgeDataEvent(charCount)] (lines 324-329). *)
Definition acknowledgeDataEvent (charCount : Z) (p : t) : t * list Effect :=
  if _inReplay p then (p, [])
  else (p, [TerminalAcknowledgeDataEvent charCount]).

(** [sendCommandResult(reqId, isError, payload)] (lines 352-358). *)
Definition sendCommandResult (reqId : Z) (isError : bool) (p : t)
    : t * list Effect :=
  match _pendingCommands p !! reqId with
  | None => (p, [])
  | Some _ => (set_pendingCommands (delete reqId (_pendingCommands p)) p, [])
  end.

(** [orphanQuestionReply()] (lines 360-367); [now] is [Date.now()]. *)
Definition orphanQuestionReply (now : Z) (p : t) : t * list Effect :=
  match _orphanQuestionBarrier p with
  | Some _ => (set_orphanQuestion None now p, [])
  | None => (set_orphanQuestion (_orphanQuestionBarrier p) now p, [])
  end.

(** [reduceGraceTime()] (lines 369-378). *)
Definition reduceGraceTime (p : t) : t * list Effect :=
  if isScheduled (_disconnectRunner2 p) then (p, [])
  else if isScheduled (_disconnectRunner1 p)
  then (set_disconnectRunner2 (schedule (_disconnectRunner2 p)) p, [])
  else (p, []).

(** [_isOrphaned()] (lines 384-402), up to its [await]. *)
Definition isOrphaned_begin (p : t) : t * list Effect * Step bool :=
  if isScheduled (_disconnectRunner1 p) || isScheduled (_disconnectRunner2 p)
  then (p, [], Return true)
  else
    match _orphanQuestionBarrier p with
    | None => (set_orphanQuestion (Some (newAutoOpenBarrier 4000)) 0 p, [], Await)
    | Some _ => (p, [], Await)
    end.

(** [_isOrphaned()] after [await this._orphanQuestionBarrier.wait()];
    [now] is [Date.now()]. *)
Definition isOrphaned_resume (now : Z) (p : t) : bool :=
  now - _orphanQuestionReplyTime p >? 500.

(** *** Handlers run by the environment *)

(** The listeners the constructor registers on the wrapped process
  (lines 266-275). *)
Definition onProcessReady (pid : Z) (cwd : string) (p : t) : t * list Effect :=
  (set_ready pid cwd p, [FireProcessReady pid cwd]).
Definition onProcessTitleChanged (title : string) (p : t) : t * list Effect :=
  (set_currentTitle title p, [FireProcessTitleChanged title]).
Definition onProcessData (data : string) (p : t) : t * list Effect :=
  (set_recorder (TerminalRecorder.recordData data (_recorder p)) p, []).

(** The callbacks of the two grace timers (lines 248-255): a one-shot
  timer that fires is no longer scheduled, and its callback shuts the
  process down. *)
Definition disconnectRunner1_fires (p : t) : t * list Effect :=
  if isScheduled (_disconnectRunner1 p)
  then
    let p' := set_disconnectRunner1 (cancel (_disconnectRunner1 p)) p in
    let '(p'', effs) := shutdown true p' in
    (p'', LogGraceTimeExpired (_persistentTerminalId p) (_pid p) :: effs)
  else (p, []).
Definition disconnectRunner2_fires (p : t) : t * list Effect :=
  if isScheduled (_disconnectRunner2 p)
  then
    let p' := set_disconnectRunner2 (cancel (_disconnectRunner2 p)) p in
    let '(p'', effs) := shutdown true p' in
    (p'', LogShortGraceTimeExpired (_persistentTerminalId p) (_pid p) :: effs)
  else (p, []).

(** The timeout of the orphan barrier: the barrier held by the field, if
  any, opens.  A barrier that [orphanQuestionReply] took out of the field
  was opened by it, so the field's barrier is the only one that can still
  be closed. *)
Definition barrier_autoOpens (p : t) : t * list Effect :=
  match _orphanQuestionBarrier p with
  | Some b => (set_orphanQuestion (Some (open b)) (_orphanQuestionReplyTime p) p, [])
  | None => (p, [])
  end.

(** [dispose()], inherited from [Disposable]: the two timers were
  registered with [_register] and are cancelled. *)
Definition dispose (p : t) : t * list Effect :=
  (set_disconnectRunner2 (cancel (_disconnectRunner2 p))
     (set_disconnectRunner1 (cancel (_disconnectRunner1 p)) p), []).

(** Whether the function suspended in [_isOrphaned] can go on: the barrier
  it waits for has been opened, by [orphanQuestionReply] (which also
  clears the field) or by its timeout. *)
Definition barrierWaitDone (p : t) : bool :=
  match _orphanQuestionBarrier p with
  | None => true
  | Some b => isOpen b
  end.

(** *** The process as a transition system *)

(** Everything that can happen to a process: the calls of its public
  methods (the two halves of an [async] method with an [await] are
  separate entries) and the handlers above. *)
Inductive Op : Type :=
| OpAttach
| OpDetach
| OpStartBegin
| OpStartResume (result : option ITerminalLaunchError)
| OpShutdown (immediate : bool)
| OpInput (data : string)
| OpResize (cols rows : Z)
| OpAcknowledgeDataEvent (charCount : Z)
| OpTriggerReplay
| OpSendCommandResult (reqId : Z) (isError : bool)
| OpOrphanQuestionReply (now : Z)
| OpReduceGraceTime
| OpIsOrphanedBegin
| OpIsOrphanedResume (now : Z)
| OpDispose
| EvProcessReady (pid : Z) (cwd : string)
| EvProcessTitleChanged (title : string)
| EvProcessData (data : string)
| EvDisconnectRunner1Fires
| EvDisconnectRunner2Fires
| EvBarrierAutoOpens.

Definition step (op : Op) (p : t) : t * list Effect :=
  match op with
  | OpAttach => attach p
  | OpDetach => detach p
  | OpStartBegin => let '(p', effs, _) := start_begin p in (p', effs)
  | OpStartResume result => (fst (start_resume result p), [])
  | OpShutdown immediate => shutdown immediate p
  | OpInput data => input data p
  | OpResize cols rows => resize cols rows p
  | OpAcknowledgeDataEvent charCount => acknowledgeDataEvent charCount p
  | OpTriggerReplay => triggerReplay p
  | OpSendCommandResult reqId isError => sendCommandResult reqId isError p
  | OpOrphanQuestionReply now => orphanQuestionReply now p
  | OpReduceGraceTime => reduceGraceTime p
  | OpIsOrphanedBegin => let '(p', effs, _) := isOrphaned_begin p in (p', effs)
  | OpIsOrphanedResume _ => (p, [])
  | OpDispose => dispose p
  | EvProcessReady pid cwd => onProcessReady pid cwd p
  | EvProcessTitleChanged title => onProcessTitleChanged title p
  | EvProcessData data => onProcessData data p
  | EvDisconnectRunner1Fires => disconnectRunner1_fires p
  | EvDisconnectRunner2Fires => disconnectRunner2_fires p
  | EvBarrierAutoOpens => barrier_autoOpens p
  end.

(** The state after a sequence of operations, first one first. *)
Fixpoint run (ops : list Op) (p : t) : t :=
  match ops with
  | [] => p
  | op :: ops' => run ops' (fst (step op p))
  end.

(** The states a process can be in: what the constructor builds, and what
  any operation makes of such a state. *)
Inductive reachable : t -> Prop :=
| reachable_new id wsId wsName shouldPersist cols rows :
    reachable (new id wsId wsName shouldPersist cols rows)
| reachable_step op p :
    reachable p -> reachable (fst (step op p)).

(** The timestamps of the orphan-question replies in a sequence of
  operations, in order. *)
Fixpoint replyTimes (ops : list Op) : list Z :=
  match ops with
  | [] => []
  | OpOrphanQuestionReply now :: ops' => now :: replyTimes ops'
  | _ :: ops' => replyTimes ops'
  end.

(** The operations that write the barrier field or open its barrier. *)
Definition touchesBarrier (op : Op) : bool :=
  match op with
  | OpOrphanQuestionReply _ | OpIsOrphanedBegin | EvBarrierAutoOpens => true
  | _ => false
  end.

(** No second [_isOrphaned] starts in a sequence of operations: calls of
  [isOrphaned()] go through [_orphanRequestQueue] (line 381), which runs
  them one after the other. *)
Definition noOrphanCheckBegins (ops : list Op) : Prop :=
  Forall (fun op => op <> OpIsOrphanedBegin) ops.

(** Timestamps as a clock that does not run backwards hands them out. *)
Fixpoint nondecreasing (ts : list Z) : Prop :=
  match ts with
  | [] => True
  | t1 :: ts' =>
      match ts' with
      | [] => True
      | t2 :: _ => t1 <= t2
      end /\ nondecreasing ts'
  end.

(** A barrier held by the field was built by [_isOrphaned] with a timeout
  of four seconds, and no reply has been recorded since. *)
Definition barrierInv (p : t) : Prop :=
  match _orphanQuestionBarrier p with
  | Some b => _orphanQuestionReplyTime p = 0 /\ autoOpenTimeMs b = 4000
  | None => True
  end.

(** The operation by which a launch of the child resolves without an
  error. *)
Definition launchSucceeds (op : Op) : bool :=
  match op with
  | OpStartResume None => true
  | _ => false
  end.

(** The ready event of the child. *)
Definition isReadyEvent (op : Op) : bool :=
  match op with
  | EvProcessReady _ _ => true
  | _ => false
  end.

End PersistentTerminalProcess.

(** ** JavaScript numbers that hold integers

  A [number] is an IEEE 754 double.  The integers among the doubles are
  the integers of magnitude up to [2 ^ 53] and, beyond, the multiples of
  their unit in the last place, which is [2 ^ (e - 52)] for a magnitude
  in [2 ^ e, 2 ^ (e + 1)).  An integer-valued number is modelled by its
  value in [Z], and the sum, difference or product of two such numbers
  is the one in [Z] rounded to the nearest double, a tie going to the
  neighbour with the even significand.  The exponent range is left out:
  the numbers that arise here stay far below [2 ^ 1024]. *)

(** The unit in the last place of a double of magnitude [a]. *)
Definition ulp (a : Z) : Z := 2 ^ Z.max 0 (Z.log2 a - 52).

(** The integer nearest to the quotient of [n], not negative, by [d],
  positive; of two that are equally near, the even one. *)
Definition roundQuotient (n d : Z) : Z :=
  let q := n / d in
  let r := n mod d in
  if (2 * r <? d)%Z then q
  else if (d <? 2 * r)%Z then q + 1
  else if Z.even q then q else q + 1.

(** [a], not negative, rounded to the nearest multiple of [u], ties to
  the even multiple. *)
Definition roundTiesToEven (a u : Z) : Z := roundQuotient a u * u.

(** The double nearest to an integer. *)
Definition toDouble (z : Z) : Z :=
  Z.sgn z * roundTiesToEven (Z.abs z) (ulp (Z.abs z)).

(** Whether an integer is the value of a double. *)
Definition isDouble (z : Z) : bool := (toDouble z =? z)%Z.

(** [Math.floor(a / b)] for [0 < b <= a].  The quotient of the doubles is
  the quotient of the integers rounded to a double: it lies in
  [2 ^ k, 2 ^ (k + 1)) for the [k] below, so it is rounded to a multiple
  of [2 ^ e] for [e = k - 52], which is a fraction when [e] is negative.
  [Math.floor] then drops the fraction. *)
Definition floorDiv (a b : Z) : Z :=
  let e := Z.log2 (a / b) - 52 in
  if (0 <=? e)%Z then roundQuotient a (b * 2 ^ e) * 2 ^ e
  else roundQuotient (a * 2 ^ (- e)) b / 2 ^ (- e).

(** [Number.MAX_SAFE_INTEGER], [2 ^ 53 - 1]: on integers up to it the
  arithmetic of doubles is the arithmetic of integers. *)
Definition MAX_SAFE_INTEGER : Z := 9007199254740991.

(** ** [printTime], the helper of the log lines of the grace timers *)

(** One part of the output of [printTime]: nothing for zero, otherwise the
  number followed by its unit. *)
Definition timePart (n : Z) (unit : string) : string :=
  if (n =? 0)%Z then EmptyString else pretty n +:+ unit.

(** [printTime(ms)] (lines 405-426) on an integer number of
  milliseconds, with the arithmetic of doubles: [Math.floor(ms / 1000)]
  is [floorDiv], [s * 1000] is rounded, and so is [ms - s * 1000].  A
  part is printed with its decimal digits, as
  [Number.prototype.toString] prints an integer of magnitude up to
  [MAX_SAFE_INTEGER]; a larger part, which takes a duration of [2 ^ 53]
  hours or a negative duration of that magnitude, the source prints in a
  rounded or exponent form that is not modelled. *)
Definition printTime (ms : Z) : string :=
  let '(s, ms) :=
    if (ms >=? 1000)%Z
    then
      let s := floorDiv ms 1000 in
      (s, toDouble (ms - toDouble (s * 1000)))
    else (0, ms) in
  let '(m, s) :=
    if (s >=? 60)%Z
    then
      let m := floorDiv s 60 in
      (m, toDouble (s - toDouble (m * 60)))
    else (0, s) in
  let '(h, m) :=
    if (m >=? 60)%Z
    then
      let h := floorDiv m 60 in
      (h, toDouble (m - toDouble (h * 60)))
    else (0, m) in
  timePart h "h" +:+ timePart m "m" +:+ timePart s "s" +:+ timePart ms "ms".

(** ** class [PtyService], the process registry *)

Module PtyService.

(** The part of [IShellLaunchConfig] that [createProcess] reads. *)
Record IShellLaunchConfig : Type := {
  attachPersistentTerminal : bool
}.

(** The layout types of [vs/platform/terminal/common/terminal]: a stored
  layout refers to terminals by id, an expanded one carries [T]. *)
Record IRawTerminalInstanceLayoutInfo (T : Type) : Type := {
  relativeSize : Q;
  terminal : T
}.
Arguments relativeSize {T} _.
Arguments terminal {T} _.

Record IRawTerminalTabLayoutInfo (T : Type) : Type := {
  isActive : bool;
  activePersistentTerminalId : option Z;
  terminals : list (IRawTerminalInstanceLayoutInfo T)
}.
Arguments isActive {T} _.
Arguments activePersistentTerminalId {T} _.
Arguments terminals {T} _.

Record IPtyHostDescriptionDto : Type := {
  id : Z;
  title : string;
  pid : Z;
  workspaceId : string;
  workspaceName : string;
  cwd : string;
  isOrphan : bool
}.

Abbreviation ITerminalInstanceLayoutInfoById := (IRawTerminalInstanceLayoutInfo Z).
Abbreviation ITerminalTabLayoutInfoById := (IRawTerminalTabLayoutInfo Z).
Abbreviation ITerminalTabLayoutInfoDto :=
  (IRawTerminalTabLayoutInfo IPtyHostDescriptionDto).

Record ISetTerminalLayoutInfoArgs : Type := {
  argsWorkspaceId : string;
  argsTabs : list ITerminalTabLayoutInfoById
}.

Record ITerminalsLayoutInfo : Type := {
  tabs : list ITerminalTabLayoutInfoDto
}.

(** Calls on collaborators: what a process of the registry does, tagged
  with its id, and the trace lines of [attachToProcess]. *)
Inductive Effect : Type :=
| ProcessEffect (id : Z) (e : PersistentTerminalProcess.Effect)
| LogTraceReconnection (id : Z)
| LogTraceReconnectionFailed (id : Z) (message : string).

(** The fields of the class.  [_lastPtyId] is a [number]; it is modelled
  on the integers.

  Modelled from the spec: the base class [Disposable] of
  [vs/base/common/lifecycle] is not among the sources.  The spec speaks of
  its disposable-store pattern: what was registered with [_register] is
  run when the object is disposed, and a store that was disposed holds
  nothing any more, so that disposing again runs nothing.  [_isDisposed]
  is the flag of that store. *)
Record t : Type := {
  _lastPtyId : Z;
  _ptys : gmap Z PersistentTerminalProcess.t;
  _workspaceLayoutInfos : gmap string ISetTerminalLayoutInfoArgs;
  _isDisposed : bool
}.

Definition new (lastPtyId : Z) : t :=
  {| _lastPtyId := lastPtyId; _ptys := ∅; _workspaceLayoutInfos := ∅;
     _isDisposed := false |}.

Definition set_ptys (v : gmap Z PersistentTerminalProcess.t) (s : t) : t :=
  {| _lastPtyId := _lastPtyId s; _ptys := v;
     _workspaceLayoutInfos := _workspaceLayoutInfos s;
     _isDisposed := _isDisposed s |}.

(** A method of a registered process run on the registry: the process
  object in the table is the one that changes. *)
Definition onPty (i : Z)
    (f : PersistentTerminalProcess.t ->
         PersistentTerminalProcess.t * list PersistentTerminalProcess.Effect)
    (p : PersistentTerminalProcess.t) (s : t) : t * list Effect :=
  let '(p', effs) := f p in
  (set_ptys (<[i := p']> (_ptys s)) s, map (ProcessEffect i) effs).

Definition quote : string := String (Ascii.ascii_of_nat 34) EmptyString.

(** The message of the error of [_throwIfNoPty]; the specification calls
  this error [UnknownProcess]. *)
Definition UnknownProcess (i : Z) : string :=
  "Could not find pty with id " +:+ quote +:+ pretty i +:+ quote.

(** The message of the error of [createProcess] (line 73). *)
Definition AttachNotAllowed : string :=
  "Attempt to create a process when attach object was provided".

(** [_throwIfNoPty(id)] (lines 192-198). *)
Definition _throwIfNoPty (i : Z) (s : t) : Result PersistentTerminalProcess.t :=
  match _ptys s !! i with
  | None => Throw (UnknownProcess i)
  | Some pty => Ok pty
  end.

(** [createProcess(...)] (lines 60-95).  The working directory, the
  environments and the ConPTY flag only go to the constructor of
  [TerminalProcess] and are left out.  The id is [++this._lastPtyId]
  (line 75), an addition of doubles: from [2 ^ 53] on the sum is rounded
  and the counter no longer advances by one. *)
Definition createProcess (shellLaunchConfig : IShellLaunchConfig)
    (cols rows : Z) (shouldPersist : bool) (wsId wsName : string) (s : t)
    : t * Result Z :=
  if attachPersistentTerminal shellLaunchConfig
  then (s, Throw AttachNotAllowed)
  else
    let i := toDouble (_lastPtyId s + 1) in
    let persistentTerminalProcess :=
      PersistentTerminalProcess.new i wsId wsName shouldPersist cols rows in
    ({| _lastPtyId := i;
        _ptys := <[i := persistentTerminalProcess]> (_ptys s);
        _workspaceLayoutInfos := _workspaceLayoutInfos s;
        _isDisposed := _isDisposed s |}, Ok i).

(** The [onProcessExit] listener of [createProcess] (lines 86-89). *)
Definition onProcessExit (i : Z) (s : t) : t :=
  set_ptys (delete i (_ptys s)) s.

(** [attachToProcess(id)] (lines 97-104): the [try] block catches the
  error of [_throwIfNoPty] and the method resolves normally. *)
Definition attachToProcess (i : Z) (s : t) : t * list Effect * Result unit :=
  match _throwIfNoPty i s with
  | Ok pty =>
      let '(s', effs) := onPty i PersistentTerminalProcess.attach pty s in
      (s', effs ++ [LogTraceReconnection i], Ok ())
  | Throw message =>
      (s, [LogTraceReconnectionFailed i message], Ok ())
  end.

(** [detachFromProcess(id)] (lines 106-108). *)
Definition detachFromProcess (i : Z) (s : t) : t * list Effect * Result unit :=
  match _throwIfNoPty i s with
  | Ok pty =>
      let '(s', effs) := onPty i PersistentTerminalProcess.detach pty s in
      (s', effs, Ok ())
  | Throw message => (s, [], Throw message)
  end.

(** [start(id)] (lines 110-112); [result] is what the launch of the child
  resolves to, should the process launch it. *)
Definition start (i : Z) (result : option ITerminalLaunchError) (s : t)
    : t * list Effect * Result (option ITerminalLaunchError) :=
  match _throwIfNoPty i s with
  | Ok pty =>
      let '(p', effs, r) := PersistentTerminalProcess.start result pty in
      (set_ptys (<[i := p']> (_ptys s)) s, map (ProcessEffect i) effs, Ok r)
  | Throw message => (s, [], Throw message)
  end.

(** [shutdown(id, immediate)] (lines 113-115). *)
Definition shutdown (i : Z) (immediate : bool) (s : t)
    : t * list Effect * Result unit :=
  match _throwIfNoPty i s with
  | Ok pty =>
      let '(s', effs) :=
        onPty i (PersistentTerminalProcess.shutdown immediate) pty s in
      (s', effs, Ok ())
  | Throw message => (s, [], Throw message)
  end.

(** [input(id, data)] (lines 116-118). *)
Definition input (i : Z) (data : string) (s : t)
    : t * list Effect * Result unit :=
  match _throwIfNoPty i s with
  | Ok pty =>
      let '(s', effs) := onPty i (PersistentTerminalProcess.input data) pty s in
      (s', effs, Ok ())
  | Throw message => (s, [], Throw message)
  end.

(** [resize(id, cols, rows)] (lines 119-121). *)
Definition resize (i : Z) (cols rows : Z) (s : t)
    : t * list Effect * Result unit :=
  match _throwIfNoPty i s with
  | Ok pty =>
      let '(s', effs) :=
        onPty i (PersistentTerminalProcess.resize cols rows) pty s in
      (s', effs, Ok ())
  | Throw message => (s, [], Throw message)
  end.

(** [acknowledgeDataEvent(id, charCount)] (lines 128-130). *)
Definition acknowledgeDataEvent (i : Z) (charCount : Z) (s : t)
    : t * list Effect * Result unit :=
  match _throwIfNoPty i s with
  | Ok pty =>
      let '(s', effs) :=
        onPty i (PersistentTerminalProcess.acknowledgeDataEvent charCount) pty s in
      (s', effs, Ok ())
  | Throw message => (s, [], Throw message)
  end.

(** [setTerminalLayoutInfo(args)] (lines 135-137). *)
Definition setTerminalLayoutInfo (args : ISetTerminalLayoutInfoArgs) (s : t) : t :=
  {| _lastPtyId := _lastPtyId s; _ptys := _ptys s;
     _workspaceLayoutInfos :=
       <[argsWorkspaceId args := args]> (_workspaceLayoutInfos s);
     _isDisposed := _isDisposed s |}.

(** What the two promises awaited by [_terminalToDto] resolve to for the
  process with a given id: the working directory and the orphan verdict,
  or the message of the rejection.  They are the environment's answer:
  the expansion of a layout is a function of the registry and of these
  answers, and neither the orphan barrier that [isOrphaned()] may set up
  in a process nor the trace line of the [catch] block is recorded. *)
Definition Awaited : Type := Z -> Result (string * bool).

(** [_terminalToDto(id, persistentTerminalProcess)] (lines 179-190). *)
Definition _terminalToDto (env : Awaited) (i : Z)
    (persistentTerminalProcess : PersistentTerminalProcess.t)
    : Result IPtyHostDescriptionDto :=
  match env i with
  | Ok (cwd', isOrphan') =>
      Ok {| id := i;
            title := PersistentTerminalProcess.title persistentTerminalProcess;
            pid := PersistentTerminalProcess.pid persistentTerminalProcess;
            workspaceId :=
              PersistentTerminalProcess.workspaceId persistentTerminalProcess;
            workspaceName :=
              PersistentTerminalProcess.workspaceName persistentTerminalProcess;
            cwd := cwd';
            isOrphan := isOrphan' |}
  | Throw message => Throw message
  end.

(** [_expandTerminalInstance(t)] (lines 161-177); [None] is [null]. *)
Definition _expandTerminalInstance (env : Awaited) (s : t)
    (ti : ITerminalInstanceLayoutInfoById)
    : IRawTerminalInstanceLayoutInfo (option IPtyHostDescriptionDto) :=
  match _throwIfNoPty (terminal ti) s with
  | Ok persistentTerminalProcess =>
      match _terminalToDto env (terminal ti) persistentTerminalProcess with
      | Ok termDto =>
          {| terminal := Some termDto; relativeSize := relativeSize ti |}
      | Throw _ =>
          {| terminal := None; relativeSize := relativeSize ti |}
      end
  | Throw _ => {| terminal := None; relativeSize := relativeSize ti |}
  end.

(** The filter of [_expandTerminalTab] with its type cast: the entries
  whose terminal is not [null], as entries that carry a descriptor. *)
Fixpoint filterNotNull
    (l : list (IRawTerminalInstanceLayoutInfo (option IPtyHostDescriptionDto)))
    : list (IRawTerminalInstanceLayoutInfo IPtyHostDescriptionDto) :=
  match l with
  | [] => []
  | term :: l' =>
      match terminal term with
      | Some dto =>
          {| terminal := dto; relativeSize := relativeSize term |}
            :: filterNotNull l'
      | None => filterNotNull l'
      end
  end.

(** [_expandTerminalTab(tab)] (lines 151-159). *)
Definition _expandTerminalTab (env : Awaited) (s : t)
    (tab : ITerminalTabLayoutInfoById) : ITerminalTabLayoutInfoDto :=
  let expandedTerminals := map (_expandTerminalInstance env s) (terminals tab) in
  let filtered := filterNotNull expandedTerminals in
  {| isActive := isActive tab;
     activePersistentTerminalId := activePersistentTerminalId tab;
     terminals := filtered |}.

(** [getTerminalLayoutInfo(args)] (lines 139-149); [None] is
  [undefined]. *)
Definition getTerminalLayoutInfo (env : Awaited) (wsId : string) (s : t)
    : option ITerminalsLayoutInfo :=
  match _workspaceLayoutInfos s !! wsId with
  | Some layout =>
      let expandedTabs := map (_expandTerminalTab env s) (argsTabs layout) in
      let filtered :=
        List.filter (fun tab => (0 <? length (terminals tab))%nat) expandedTabs in
      Some {| tabs := filtered |}
  | None => None
  end.

(** The order of the entries of the table by id. *)
Definition byId (a b : Z * PersistentTerminalProcess.t) : Prop :=
  (fst a <= fst b)%Z.

#[global] Instance byId_dec : RelDecision byId.
Proof. intros a b. unfold byId. apply _. Defined.

(** The disposable the constructor registers (lines 48-53): every
  process is shut down immediately and the table is cleared.  The table
  is walked in insertion order; the ids that are handed out never
  decrease, so that is the order of the ids. *)
Definition disposePtys (s : t) : t * list Effect :=
  let ptys :=
    merge_sort byId (map_to_list (_ptys s)) in
  (set_ptys ∅ s,
   flat_map
     (fun '(i, pty) =>
        map (ProcessEffect i)
          (snd (PersistentTerminalProcess.shutdown true pty)))
     ptys).

(** Modelled from the spec: [dispose()] of the missing base class
  [Disposable].  The first call marks the store disposed and runs what
  was registered, here the disposable of the constructor; a later call
  finds the store disposed and returns. *)
Definition dispose (s : t) : t * list Effect :=
  if _isDisposed s then (s, [])
  else
    disposePtys
      {| _lastPtyId := _lastPtyId s; _ptys := _ptys s;
         _workspaceLayoutInfos := _workspaceLayoutInfos s;
         _isDisposed := true |}.

(** [shutdownAll()] (lines 56-58). *)
Definition shutdownAll (s : t) : t * list Effect := dispose s.

(** *** The registry as a transition system *)

(** The calls of the methods of the registry, the exit of the child of a
  process, and whatever happens to a registered process by itself (its
  timers, the events of its child, calls of its own methods). *)
Inductive Op : Type :=
| OpCreateProcess (shellLaunchConfig : IShellLaunchConfig) (cols rows : Z)
    (shouldPersist : bool) (wsId wsName : string)
| OpProcessExit (i : Z)
| OpAttachToProcess (i : Z)
| OpDetachFromProcess (i : Z)
| OpStart (i : Z) (result : option ITerminalLaunchError)
| OpShutdown (i : Z) (immediate : bool)
| OpInput (i : Z) (data : string)
| OpResize (i : Z) (cols rows : Z)
| OpAcknowledgeDataEvent (i : Z) (charCount : Z)
| OpSetTerminalLayoutInfo (args : ISetTerminalLayoutInfoArgs)
| OpShutdownAll
| OpProcess (i : Z) (op : PersistentTerminalProcess.Op).

Definition step (op : Op) (s : t) : t :=
  match op with
  | OpCreateProcess shellLaunchConfig cols rows shouldPersist wsId wsName =>
      fst (createProcess shellLaunchConfig cols rows shouldPersist wsId wsName s)
  | OpProcessExit i => onProcessExit i s
  | OpAttachToProcess i => fst (fst (attachToProcess i s))
  | OpDetachFromProcess i => fst (fst (detachFromProcess i s))
  | OpStart i result => fst (fst (start i result s))
  | OpShutdown i immediate => fst (fst (shutdown i immediate s))
  | OpInput i data => fst (fst (input i data s))
  | OpResize i cols rows => fst (fst (resize i cols rows s))
  | OpAcknowledgeDataEvent i charCount =>
      fst (fst (acknowledgeDataEvent i charCount s))
  | OpSetTerminalLayoutInfo args => setTerminalLayoutInfo args s
  | OpShutdownAll => fst (shutdownAll s)
  | OpProcess i op' =>
      match _ptys s !! i with
      | Some pty =>
          set_ptys (<[i := fst (PersistentTerminalProcess.step op' pty)]> (_ptys s)) s
      | None => s
      end
  end.

(** The states of a registry: what the constructor builds from a number
  and what any operation makes of such a state. *)
Inductive reachable : t -> Prop :=
| reachable_new lastPtyId :
    isDouble lastPtyId = true -> reachable (new lastPtyId)
| reachable_step op s : reachable s -> reachable (step op s).

(** The state after a sequence of operations, first one first. *)
Fixpoint run (ops : list Op) (s : t) : t :=
  match ops with
  | [] => s
  | op :: ops' => run ops' (step op s)
  end.

(** Every registered process was built for the id it is registered under,
  an id that has been handed out, and is in a state its own operations
  lead to. *)
Definition registryInv (s : t) : Prop :=
  forall i pty,
    _ptys s !! i = Some pty ->
    (i <= _lastPtyId s)%Z
    /\ PersistentTerminalProcess._persistentTerminalId pty = i
    /\ PersistentTerminalProcess.reachable pty.

(** The counter of ids holds a number. *)
Definition counterInv (s : t) : Prop := isDouble (_lastPtyId s) = true.

(** The per-id methods of the registry, as one family. *)
Definition perProcess (i : Z) (op : Op) : bool :=
  match op with
  | OpAttachToProcess j | OpDetachFromProcess j | OpStart j _
  | OpShutdown j _ | OpInput j _ | OpResize j _ _
  | OpAcknowledgeDataEvent j _ | OpProcess j _ => bool_decide (j = i)
  | _ => false
  end.

(** Whether a stored reference expands to a descriptor. *)
Definition isLive (env : Awaited) (s : t) (ti : ITerminalInstanceLayoutInfoById)
    : bool :=
  match terminal (_expandTerminalInstance env s ti) with
  | Some _ => true
  | None => false
  end.

(** The terminal list of a tab as the specification words it: every stored
  reference has an entry, a [null] placeholder when its process is gone.
  To be compared with the list [_expandTerminalTab] returns. *)
Definition terminalsWithPlaceholders (env : Awaited) (s : t)
    (tab : ITerminalTabLayoutInfoById) : list (option IPtyHostDescriptionDto) :=
  map (fun ti => terminal (_expandTerminalInstance env s ti)) (terminals tab).

(** The descriptors among the entries of such a list, in order. *)
Fixpoint descriptors (l : list (option IPtyHostDescriptionDto))
    : list IPtyHostDescriptionDto :=
  match l with
  | [] => []
  | Some dto :: l' => dto :: descriptors l'
  | None :: l' => descriptors l'
  end.

(** *** A registry with one process and a layout that names two

  Process 1 was created; the stored layout of workspace [ws] has one tab
  that refers to terminals 1 and 2. *)

Definition exampleTab : ITerminalTabLayoutInfoById :=
  {| isActive := true;
     activePersistentTerminalId := Some 1;
     terminals := [ {| relativeSize := (1 # 2)%Q; terminal := 1 |};
                    {| relativeSize := (1 # 2)%Q; terminal := 2 |} ] |}.

Definition exampleRegistry : t :=
  setTerminalLayoutInfo
    {| argsWorkspaceId := "ws"; argsTabs := [exampleTab] |}
    (fst (createProcess {| attachPersistentTerminal := false |}
            80 24 true "ws" "name" (new 0))).

Definition exampleAwaited : Awaited := fun _ => Ok ("/home", false).

Definition exampleDto : IPtyHostDescriptionDto :=
  {| id := 1; title := EmptyString; pid := -1;
     workspaceId := "ws"; workspaceName := "name";
     cwd := "/home"; isOrphan := false |}.

End PtyService.

(** ** A JavaScript [Map] with string keys

  [Map] iterates in insertion order and [disposeOldOfflineConnections]
  depends on that order, so the table is an association list: [set] on a
  key that is present replaces the value in place, on a new key it
  appends. *)

Module JsMap.

Abbreviation t V := (list (string * V)).

Fixpoint get {V : Type} (k : string) (m : t V) : option V :=
  match m with
  | [] => None
  | (k', v) :: m' => if String.eqb k k' then Some v else get k m'
  end.

Definition has {V : Type} (k : string) (m : t V) : bool :=
  match get k m with
  | Some _ => true
  | None => false
  end.

Fixpoint set {V : Type} (k : string) (v : V) (m : t V) : t V :=
  match m with
  | [] => [(k, v)]
  | (k', v') :: m' =>
      if String.eqb k k' then (k, v) :: m' else (k', v') :: set k v m'
  end.

Fixpoint delete {V : Type} (k : string) (m : t V) : t V :=
  match m with
  | [] => []
  | (k', v') :: m' =>
      if String.eqb k k' then m' else (k', v') :: delete k m'
  end.

Definition values {V : Type} (m : t V) : list V := map snd m.

End JsMap.

(** ** class [Vscode], the session dispatcher *)

Module Vscode.

(** [ConnectionType] of [vs/platform/remote/common/remoteAgentConnection]. *)
Inductive ConnectionType : Type :=
| Management
| ExtensionHost
| Tunnel.

#[global] Instance ConnectionType_eq_dec : EqDecision ConnectionType.
Proof. solve_decision. Defined.

#[global] Instance ConnectionType_countable : Countable ConnectionType.
Proof.
  refine (inj_countable'
            (fun ty => match ty with
                       | Management => 1%nat
                       | ExtensionHost => 2%nat
                       | Tunnel => 3%nat
                       end)
            (fun n => match n with
                      | 1%nat => Management
                      | 2%nat => ExtensionHost
                      | _ => Tunnel
                      end) _).
  intros []; reflexivity.
Defined.

(** Modelled from the spec: the classes [Connection],
  [ManagementConnection] and [ExtensionHostConnection] of
  [vs/server/node/connection] are not among the sources.  The spec gives a
  connection its token, its flavour (an extension host connection is built
  from a language and the startup buffer) and an [offline] marker, the
  timestamp of the last disconnection, absent while a socket is bound and
  cleared on reattachment. *)
Inductive ConnectionFlavour : Type :=
| ManagementConnection
| ExtensionHostConnection (language : string) (buffer : string).

Record Connection : Type := {
  token : string;
  flavour : ConnectionFlavour;
  offline : option Z
}.

(** Modelled from the spec: [Connection.reconnect] belongs to the same
  missing class.  The spec has the offline marker cleared when a
  connection is reattached to a socket. *)
Definition reconnect (c : Connection) : Connection :=
  {| token := token c; flavour := flavour c; offline := None |}.

(** The first message of a socket, [ConnectionTypeRequest]; a
  [desiredConnectionType] outside the enumeration is [None], and
  [argsLanguage] is [args.language] when [args] is present. *)
Record ConnectionTypeRequest : Type := {
  desiredConnectionType : option ConnectionType;
  commit : option string;
  argsLanguage : option string
}.

(** Modelled from the spec: class [Protocol] of [vs/server/node/protocol]
  is not among the sources.  The dispatcher reads its options and the
  bytes buffered on its socket. *)
Record Protocol : Type := {
  reconnectionToken : string;
  reconnection : bool;
  skipWebSocketFrames : bool;
  permessageDeflate : bool;
  recordInflateBytes : bool;
  entireBuffer : string
}.

(** The query parameters of the upgrade request that [handleWebSocket]
  reads. *)
Record Query : Type := {
  queryReconnectionToken : option string;
  queryReconnection : option string;
  querySkipWebSocketFrames : option string
}.

(** The messages the dispatcher sends: [{ type: 'ok' }],
  [{ debugPort }] and [{ type: 'error', reason }]. *)
Inductive Message : Type :=
| MsgOk
| MsgDebugPort (debugPort : option Z)
| MsgError (reason : string).

(** Calls on collaborators and log lines. *)
Inductive Effect : Type :=
| LogWarnVersionMismatch (theirs : option string) (ours : string)
| LogDebugNewConnection (tok : string)
| LogDebugDisposing (tok : string)
| LogDebugConnectionClosed (tok : string)
| SendMessage (m : Message)
| ReadEntireBuffer
| ProtocolDispose
| SocketDispose
| ProtocolTunnel
| ConnectionReconnect (c : Connection) (buffer : string)
| ConnectionDispose (c : Connection)
| FireClientConnect (tok : string).

Record t : Type := {
  connections : gmap ConnectionType (JsMap.t Connection)
}.

Definition new : t := {| connections := ∅ |}.

(** The field [maxExtraOfflineConnections] (line 67). *)
Definition maxExtraOfflineConnections : Z := 0.

(** The error messages of [connect] and [handleWebSocket]; the
  specification calls the first two [DuplicateToken] and
  [UnrecognizedToken]. *)
Definition DuplicateToken : string := "Duplicate reconnection token".
Definition UnrecognizedToken : string := "Unrecognized reconnection token".
Definition UnrecognizedConnectionType : string := "Unrecognized connection type".
Definition MissingToken : string :=
  "Reconnection token is missing from query parameters".

(** [getDebugPort()] (lines 301-303). *)
Definition getDebugPort : option Z := None.

(** [typeof connection.offline !== 'undefined'] (line 201). *)
Definition isOffline (c : Connection) : bool :=
  match offline c with
  | Some _ => true
  | None => false
  end.

(** The array [offline] of [disposeOldOfflineConnections] (lines
  200-201): the offline connections in the order of [values()]. *)
Definition offlineConnections (conns : JsMap.t Connection) : list Connection :=
  List.filter isOffline (JsMap.values conns).

(** The same array with the token each of its connections is registered
  under, which is the token the listener of lines 188-191 on that
  connection holds. *)
Definition offlineEntries (conns : JsMap.t Connection)
    : list (string * Connection) :=
  List.filter (fun entry => isOffline (snd entry)) conns.

(** Modelled from the spec: [Connection.dispose] belongs to the missing
  class.  The spec has a connection destroyed when it is disposed and
  gives it a closed-notification: the listener that [connect] registered
  on the connection (lines 188-191) runs during the call and deletes the
  token [tok] the connection was registered under from the table. *)
Definition dispose (tok : string) (c : Connection) (conns : JsMap.t Connection)
    : JsMap.t Connection * list Effect :=
  (JsMap.delete tok conns, [ConnectionDispose c; LogDebugConnectionClosed tok]).

(** The loop of [disposeOldOfflineConnections] (lines 202-205) from index
  [i] on; [rest] is [offline] from that index and [conns] the table, which
  the listeners of the disposed connections change. *)
Fixpoint disposeLoop (i max : Z) (rest : list (string * Connection))
    (conns : JsMap.t Connection) : JsMap.t Connection * list Effect :=
  match rest with
  | [] => (conns, [])
  | (tok, c) :: rest' =>
      if (i <? max)%Z
      then
        let disposed := dispose tok c conns in
        let out := disposeLoop (i + 1) max rest' (fst disposed) in
        (fst out, LogDebugDisposing (token c) :: snd disposed ++ snd out)
      else (conns, [])
  end.

(** [disposeOldOfflineConnections(connections)] (lines 199-206): the
  table it leaves and the calls it makes. *)
Definition disposeOldOfflineConnections (conns : JsMap.t Connection)
    : JsMap.t Connection * list Effect :=
  let offline' := offlineEntries conns in
  disposeLoop 0 (Z.of_nat (length offline') - maxExtraOfflineConnections)
    offline' conns.

(** The connections a list of effects disposes, in order. *)
Fixpoint disposedConnections (effs : list Effect) : list Connection :=
  match effs with
  | [] => []
  | ConnectionDispose c :: effs' => c :: disposedConnections effs'
  | _ :: effs' => disposedConnections effs'
  end.

(** The [onClose] listener that [connect] registers (lines 188-191). *)
Definition onClose (ty : ConnectionType) (tok : string) (s : t)
    : t * list Effect :=
  match connections s !! ty with
  | Some m =>
      ({| connections := <[ty := JsMap.delete tok m]> (connections s) |},
       [LogDebugConnectionClosed tok])
  | None => (s, [LogDebugConnectionClosed tok])
  end.

(** A JavaScript string in a condition. *)
Definition truthy (str : string) : bool :=
  match str with
  | EmptyString => false
  | String _ _ => true
  end.

(** The version check of [connect] (lines 139-141); [productCommit] is
  [product.commit]. *)
Definition versionCheck (productCommit : option string)
    (message : ConnectionTypeRequest) : list Effect :=
  match productCommit with
  | Some ours =>
      if truthy ours && negb (bool_decide (commit message = Some ours))
      then [LogWarnVersionMismatch (commit message) ours]
      else []
  | None => []
  end.

(** The acknowledgement [ok()] of [connect] (lines 151-155). *)
Definition ok (ty : ConnectionType) : Message :=
  match ty with
  | ExtensionHost => MsgDebugPort getDebugPort
  | _ => MsgOk
  end.

(** Lines 146-148 of [connect]: the table of a type is created on first
  use. *)
Definition ensureTable (ty : ConnectionType) (s : t) : t :=
  match connections s !! ty with
  | Some _ => s
  | None => {| connections := <[ty := []]> (connections s) |}
  end.

(** [this.connections.get(type)], an empty table when there is none. *)
Definition tableOf (ty : ConnectionType) (s : t) : JsMap.t Connection :=
  default [] (connections s !! ty).

(** The connections in the table of a type, in insertion order. *)
Definition connectionsOf (ty : ConnectionType) (s : t) : list Connection :=
  JsMap.values (tableOf ty s).

(** The connection registered for a token of a type, if any. *)
Definition lookupConnection (ty : ConnectionType) (tok : string) (s : t)
    : option Connection :=
  JsMap.get tok (tableOf ty s).

(** Whether a connection is registered for a token of a type. *)
Definition registered (ty : ConnectionType) (tok : string) (s : t) : bool :=
  JsMap.has tok (tableOf ty s).

(** Lines 173-186 of [connect]: the connection object that is built for a
  new session, and the calls made while building it. *)
Definition newConnection (ty : ConnectionType)
    (message : ConnectionTypeRequest) (protocol : Protocol)
    : Connection * list Effect :=
  let tok := reconnectionToken protocol in
  match ty with
  | Management =>
      ({| token := tok; flavour := ManagementConnection; offline := None |},
       [FireClientConnect tok])
  | _ =>
      ({| token := tok;
          flavour :=
            ExtensionHostConnection
              (match argsLanguage message with
               | Some language => language
               | None => "en"
               end)
              (entireBuffer protocol);
          offline := None |},
       [ReadEntireBuffer])
  end.

(** The body of the first two cases of the [switch] of [connect]
  (lines 146-193); [ty] is [ExtensionHost] or [Management].  The only
  [await] of this code is on [ok()], which resolves without waiting for
  any event, so no other handler of the dispatcher runs in between and
  the body is one step. *)
Definition connectSession (ty : ConnectionType)
    (message : ConnectionTypeRequest) (protocol : Protocol) (s : t)
    : t * list Effect * Result unit :=
  let s1 := ensureTable ty s in
  let conns := tableOf ty s1 in
  let tok := reconnectionToken protocol in
  if reconnection protocol && JsMap.has tok conns then
    match JsMap.get tok conns with
    | Some c =>
        (* the connection object in the table is the one that changes *)
        ({| connections :=
              <[ty := JsMap.set tok (reconnect c) conns]> (connections s1) |},
         [SendMessage (ok ty); ReadEntireBuffer; ProtocolDispose;
          ConnectionReconnect c (entireBuffer protocol)],
         Ok ())
    | None => (s1, [], Ok ()) (* excluded by [has]; the source asserts [!] *)
    end
  else if reconnection protocol || JsMap.has tok conns then
    (s1, [],
     Throw (if reconnection protocol then UnrecognizedToken else DuplicateToken))
  else
    let '(connection, effs) := newConnection ty message protocol in
    let conns' := JsMap.set tok connection conns in
    let disposed := disposeOldOfflineConnections conns' in
    ({| connections := <[ty := fst disposed]> (connections s1) |},
     [LogDebugNewConnection tok; SendMessage (ok ty)] ++ effs ++ snd disposed,
     Ok ()).

(** [connect(message, protocol)] (lines 138-197). *)
Definition connect (productCommit : option string)
    (message : ConnectionTypeRequest) (protocol : Protocol) (s : t)
    : t * list Effect * Result unit :=
  let warn := versionCheck productCommit message in
  match desiredConnectionType message with
  | Some ExtensionHost =>
      let '(s', effs, r) := connectSession ExtensionHost message protocol s in
      (s', warn ++ effs, r)
  | Some Management =>
      let '(s', effs, r) := connectSession Management message protocol s in
      (s', warn ++ effs, r)
  | Some Tunnel => (s, warn ++ [ProtocolTunnel], Ok ())
  | None => (s, warn, Throw UnrecognizedConnectionType)
  end.

(** [handleWebSocket(socket, query, permessageDeflate)] (lines 117-136);
  [handshake] is what [protocol.handshake()] resolves to or is rejected
  with, [buffered] the bytes the protocol has read ahead. *)
Definition handleWebSocket (productCommit : option string) (query : Query)
    (deflate : bool) (handshake : Result ConnectionTypeRequest)
    (buffered : string) (s : t) : t * list Effect * Result bool :=
  match queryReconnectionToken query with
  | None => (s, [], Throw MissingToken)
  | Some tok =>
      if negb (truthy tok) then (s, [], Throw MissingToken)
      else
        let protocol :=
          {| reconnectionToken := tok;
             reconnection := bool_decide (queryReconnection query = Some "true");
             skipWebSocketFrames :=
               bool_decide (querySkipWebSocketFrames query = Some "true");
             permessageDeflate := deflate;
             recordInflateBytes := deflate;
             entireBuffer := buffered |} in
        let failed (s' : t) (effs : list Effect) (reason : string) :=
          (s', effs ++ [SendMessage (MsgError reason); ProtocolDispose;
                        SocketDispose], Ok true) in
        match handshake with
        | Throw reason => failed s [] reason
        | Ok message =>
            match connect productCommit message protocol s with
            | (s', effs, Ok _) => (s', effs, Ok true)
            | (s', effs, Throw reason) => failed s' effs reason
            end
        end
  end.

(** Modelled from the spec: what the close of its socket does to a
  connection belongs to the missing class.  The spec has the connection
  marked offline, with the time of the disconnection, and left in the
  table. *)
Definition markOffline (ty : ConnectionType) (tok : string) (now : Z) (s : t)
    : t :=
  match JsMap.get tok (tableOf ty s) with
  | Some c =>
      {| connections :=
           <[ty := JsMap.set tok
                     {| token := token c; flavour := flavour c;
                        offline := Some now |}
                     (tableOf ty s)]> (connections s) |}
  | None => s
  end.

(** *** The dispatcher as a transition system *)

Inductive Op : Type :=
| OpConnect (productCommit : option string) (message : ConnectionTypeRequest)
    (protocol : Protocol)
| OpClose (ty : ConnectionType) (tok : string)
| OpSocketClosed (ty : ConnectionType) (tok : string) (now : Z).

Definition step (op : Op) (s : t) : t :=
  match op with
  | OpConnect productCommit message protocol =>
      fst (fst (connect productCommit message protocol s))
  | OpClose ty tok => fst (onClose ty tok s)
  | OpSocketClosed ty tok now => markOffline ty tok now s
  end.

Inductive reachable : t -> Prop :=
| reachable_new : reachable new
| reachable_step op s : reachable s -> reachable (step op s).

(** In the table of every type a token occurs once, and it is the token of
  the connection it leads to. *)
Definition tokensUnique (s : t) : Prop :=
  forall ty,
    NoDup (map fst (tableOf ty s))
    /\ Forall (fun entry => token (snd entry) = fst entry) (tableOf ty s).

(** *** A dispatcher with two offline management connections

  [a] was registered first and went offline at 200, [b] was registered
  second and went offline at 100. *)

Definition offlineA : Connection :=
  {| token := "a"; flavour := ManagementConnection; offline := Some 200 |}.
Definition offlineB : Connection :=
  {| token := "b"; flavour := ManagementConnection; offline := Some 100 |}.

Definition exampleDispatcher : t :=
  {| connections := {[ Management := [("a", offlineA); ("b", offlineB)] ]} |}.

Definition exampleRequest (ty : ConnectionType) : ConnectionTypeRequest :=
  {| desiredConnectionType := Some ty; commit := None; argsLanguage := None |}.

Definition exampleProtocol (tok : string) (reconnect : bool) : Protocol :=
  {| reconnectionToken := tok; reconnection := reconnect;
     skipWebSocketFrames := false; permessageDeflate := false;
     recordInflateBytes := false; entireBuffer := EmptyString |}.

(** *** The retention policy as the specification words it

  The specification has the offline connections scanned oldest first by
  disconnection time, all but the newest [maxExtra] of them being
  disposed.  These definitions follow those words, to be compared with
  [disposeOldOfflineConnections]. *)

Definition offlineSince (c : Connection) : Z := default 0 (offline c).

Fixpoint insertOldestFirst (c : Connection) (sorted : list Connection)
    : list Connection :=
  match sorted with
  | [] => [c]
  | c' :: sorted' =>
      if (offlineSince c <=? offlineSince c')%Z
      then c :: sorted
      else c' :: insertOldestFirst c sorted'
  end.

Definition sortOldestFirst (l : list Connection) : list Connection :=
  fold_right insertOldestFirst [] l.

Definition disposedOldestFirst (maxExtra : Z) (conns : JsMap.t Connection)
    : list Connection :=
  let sorted := sortOldestFirst (offlineConnections conns) in
  firstn (Z.to_nat (Z.of_nat (length sorted) - maxExtra)) sorted.

End Vscode.

(** * Properties of [PersistentTerminalProcess] *)

Section ProcessProperties.
Import Async PersistentTerminalProcess.

(** Unfolds one operation down to its field updates. *)
Ltac unfold_step :=
  cbv [step attach detach start_begin start_resume shutdown input resize
       acknowledgeDataEvent triggerReplay sendCommandResult
       orphanQuestionReply reduceGraceTime isOrphaned_begin dispose
       onProcessReady onProcessTitleChanged onProcessData
       disconnectRunner1_fires disconnectRunner2_fires barrier_autoOpens].

(** Splits on every condition an operation tests: the result of a launch,
  the flags, the pending command and the barrier field. *)
Ltac split_conditions :=
  cbn;
  try match goal with
      | r : option ITerminalLaunchError |- _ => destruct r; cbn
      end;
  repeat match goal with
         | |- context [if ?b then _ else _] => destruct b eqn:?; cbn
         | |- context [@lookup _ _ _ _ ?k ?m] =>
             destruct (@lookup _ _ _ _ k m); cbn
         | |- context [match _orphanQuestionBarrier ?p with _ => _ end] =>
             destruct (_orphanQuestionBarrier p) eqn:?; cbn
         end.

(** No operation writes [_inReplay]. *)
Lemma step_inReplay (op : Op) (p : t) :
  _inReplay (fst (step op p)) = _inReplay p.
Proof.
  destruct op; unfold_step; split_conditions; congruence.
Qed.

Lemma reachable_inReplay (p : t) : reachable p -> _inReplay p = false.
Proof.
  induction 1 as [| op p _ IH]; [reflexivity |].
  now rewrite step_inReplay.
Qed.

(** No operation resets [_isStarted]. *)
Lemma step_isStarted (op : Op) (p : t) :
  _isStarted p = true -> _isStarted (fst (step op p)) = true.
Proof.
  intros Hs. destruct op; unfold_step; rewrite ?Hs; cbn;
    split_conditions; cbn; auto.
Qed.

Lemma run_isStarted (ops : list Op) (p : t) :
  _isStarted p = true -> _isStarted (run ops p) = true.
Proof.
  revert p. induction ops as [| op ops IH]; intros p Hs; cbn; [exact Hs |].
  apply IH, step_isStarted, Hs.
Qed.

Lemma step_barrierInv (op : Op) (p : t) :
  barrierInv p -> barrierInv (fst (step op p)).
Proof.
  unfold barrierInv. intros H.
  destruct op; unfold_step; split_conditions;
    repeat match goal with
           | Hb : _orphanQuestionBarrier p = _ |- _ => rewrite Hb in H; clear Hb
           end;
    cbn in *; simplify_eq; cbn in *; auto.
Qed.

Lemma reachable_barrierInv (p : t) : reachable p -> barrierInv p.
Proof.
  induction 1 as [| op p _ IH]; [exact I |].
  now apply step_barrierInv.
Qed.

(** Only a reply and the beginning of an orphan check write the reply
  time. *)
Lemma step_replyTime (op : Op) (p : t) :
  op <> OpIsOrphanedBegin ->
  _orphanQuestionReplyTime (fst (step op p))
  = match op with
    | OpOrphanQuestionReply now => now
    | _ => _orphanQuestionReplyTime p
    end.
Proof.
  intros Hop.
  destruct op; try congruence; unfold_step; split_conditions; reflexivity.
Qed.

(** The last element of a list that has one does not depend on the
  default. *)
Lemma last_cons_default (x : Z) (l : list Z) (d d' : Z) :
  List.last (x :: l) d = List.last (x :: l) d'.
Proof.
  revert x. induction l as [| y l IH]; intros x; [reflexivity |].
  change (List.last (y :: l) d = List.last (y :: l) d'). apply IH.
Qed.

(** While no orphan check begins, the recorded reply time is that of the
  last reply. *)
Lemma run_replyTime (ops : list Op) (p : t) :
  noOrphanCheckBegins ops ->
  _orphanQuestionReplyTime (run ops p)
  = List.last (replyTimes ops) (_orphanQuestionReplyTime p).
Proof.
  revert p. induction ops as [| op ops IH]; intros p Hq; [reflexivity |].
  inversion Hq as [| ? ? Hop Hq']; subst.
  cbn [run]. rewrite IH by exact Hq'.
  rewrite (step_replyTime op p Hop).
  destruct op; try reflexivity.
  cbn [replyTimes]. destruct (replyTimes ops) as [| z l]; [reflexivity |].
  exact (last_cons_default z l _ _).
Qed.

(** The last of a nondecreasing list of timestamps is far from [now]
  exactly when all of them are. *)
Lemma last_reply_decides (ts : list Z) (t0 now : Z) :
  nondecreasing ts -> 500 < now - t0 ->
  (500 < now - List.last ts t0 <-> Forall (fun t => 500 < now - t) ts).
Proof.
  revert t0. induction ts as [| t1 ts IH]; intros t0 Hs H0; cbn.
  - split; [constructor | intros _; exact H0].
  - destruct Hs as [H12 Hs]. destruct ts as [| t2 ts].
    + split; [intros H; repeat constructor; exact H |].
      intros H; inversion H; subst; assumption.
    + specialize (IH t0 Hs H0). cbn [List.last] in IH.
      split.
      * intros H. apply IH in H. constructor; [| exact H].
        inversion H; subst. lia.
      * intros H. inversion H; subst. apply IH. assumption.
Qed.

(** The barrier field changes under no other operation than those of
  [touchesBarrier]. *)
Lemma step_barrier (op : Op) (p : t) :
  touchesBarrier op = false ->
  _orphanQuestionBarrier (fst (step op p)) = _orphanQuestionBarrier p.
Proof.
  intros Hop.
  destruct op; try discriminate Hop; unfold_step; split_conditions;
    reflexivity.
Qed.

(** A wait on a fresh barrier lasts until a reply arrives or the barrier's
  timeout opens it: no other operation ends it. *)
Lemma wait_lasts_until_reply_or_timeout (p : t) (evs : list Op) :
  _orphanQuestionBarrier p = None ->
  snd (isOrphaned_begin p) = Await ->
  forallb (fun op => negb (touchesBarrier op)) evs = true ->
  barrierWaitDone (run evs (fst (fst (isOrphaned_begin p)))) = false.
Proof.
  intros Hnone Hawait Hevs.
  assert (Hfresh : _orphanQuestionBarrier (fst (fst (isOrphaned_begin p)))
                   = Some (newAutoOpenBarrier 4000)).
  { unfold isOrphaned_begin in *.
    destruct (isScheduled (_disconnectRunner1 p)
              || isScheduled (_disconnectRunner2 p)); [discriminate Hawait |].
    now rewrite Hnone. }
  revert Hfresh. generalize (fst (fst (isOrphaned_begin p))) as q.
  induction evs as [| op evs IH]; intros q Hq.
  - unfold barrierWaitDone. cbn. now rewrite Hq.
  - cbn in Hevs. apply andb_prop in Hevs as [Hop Hevs].
    cbn [run]. apply IH; [exact Hevs |].
    rewrite step_barrier; [exact Hq | now destruct (touchesBarrier op)].
Qed.

(** C5.  [attach()] cancels the long grace timer and does nothing else;
  [detach()] arms the long grace timer when [shouldPersistTerminal] is
  true and makes no call on the child, and when it is false shuts the
  child down immediately ([shutdown(true)]) and arms no timer. *)
Theorem attach_detach_long_grace_timer (p : t) :
  (isScheduled (_disconnectRunner1 (fst (attach p))) = false
   /\ _disconnectRunner2 (fst (attach p)) = _disconnectRunner2 p
   /\ snd (attach p) = [])
  /\ (if shouldPersistTerminal p
      then isScheduled (_disconnectRunner1 (fst (detach p))) = true
           /\ snd (detach p) = []
      else detach p = (p, [TerminalShutdown true])).
Proof.
  split; [repeat split |].
  unfold detach, shutdown. destruct (shouldPersistTerminal p); cbn; auto.
Qed.

(** C3.  On a process that is not started, [start()] launches the child
  and, when the launch fails, returns the launch error (the process stays
  not started).  Once a first [start()] has succeeded then, whatever
  operations follow, every further [start()] returns no error without
  launching the child: it fires the ready and title events and triggers
  a replay of the recorder. *)
Theorem start_spawns_once (p : t) (ops : list Op) (err : ITerminalLaunchError)
    (Hnot : _isStarted p = false) :
  start_begin p = (p, [TerminalStart], Await)
  /\ start (Some err) p = (p, [TerminalStart], Some err)
  /\ start None p = (set_isStarted true p, [TerminalStart], None)
  /\ (let p2 := run ops (fst (fst (start None p))) in
      forall result,
        start result p2
        = (p2,
           [FireProcessReady (_pid p2) (_cwd p2);
            FireProcessTitleChanged (currentTitle p2)]
             ++ snd (triggerReplay p2),
           None)
        /\ ~ In TerminalStart (snd (fst (start result p2)))).
Proof.
  assert (Hb : start_begin p = (p, [TerminalStart], Await))
    by (unfold start_begin; rewrite Hnot; reflexivity).
  assert (Hok : start None p = (set_isStarted true p, [TerminalStart], None))
    by (unfold start; rewrite Hb; reflexivity).
  split; [exact Hb |].
  split; [unfold start; rewrite Hb; reflexivity |].
  split; [exact Hok |].
  intros p2 result. subst p2. rewrite Hok. cbn [fst].
  set (p2 := run ops (set_isStarted true p)).
  assert (Hs : _isStarted p2 = true) by (apply run_isStarted; reflexivity).
  assert (Hstart : start result p2
                   = (p2,
                      [FireProcessReady (_pid p2) (_cwd p2);
                       FireProcessTitleChanged (currentTitle p2)]
                        ++ snd (triggerReplay p2),
                      None))
    by (unfold start, start_begin; rewrite Hs; reflexivity).
  split; [exact Hstart |].
  rewrite Hstart. cbn.
  intros [H | [H | [H | [H | [H | []]]]]]; discriminate H.
Qed.

Lemma start_spawns_once_witness :
  let p := new 1 "ws" "name" true 80 24 in
  _isStarted p = false
  /\ start (Some {| launchMessage := "no shell"; launchCode := None |}) p
     = (p, [TerminalStart],
        Some {| launchMessage := "no shell"; launchCode := None |})
  /\ snd (fst (start None
                 (run [OpResize 100 30; OpDetach; OpAttach]
                    (fst (fst (start None p))))))
     = [FireProcessReady (-1) EmptyString;
        FireProcessTitleChanged EmptyString;
        LogReplaying 1 0 1;
        FireProcessReplay
          {| TerminalRecorder.replayEvents :=
               [TerminalRecorder.RecResize 100 30] |};
        TerminalClearUnacknowledgedChars].
Proof.
  intros p.
  pose proof (start_spawns_once p [OpResize 100 30; OpDetach; OpAttach]
                {| launchMessage := "no shell"; launchCode := None |}
                eq_refl) as (_ & Herr & _ & Hagain).
  split; [reflexivity |]. split; [exact Herr |].
  destruct (Hagain None) as [Hstart _]. rewrite Hstart. reflexivity.
Defined.

(** C10.  In every reachable state [_inReplay] is false and stays false
  under every operation ([triggerReplay] included), so [input], [resize]
  and [acknowledgeDataEvent] always reach the child: the branch that
  drops them is never taken. *)
Theorem inReplay_never_set (p : t) (Hreach : reachable p) :
  _inReplay p = false
  /\ (forall op, _inReplay (fst (step op p)) = false)
  /\ (forall data, input data p = (p, [TerminalInput data]))
  /\ (forall cols rows,
        resize cols rows p
        = (set_recorder (TerminalRecorder.recordResize cols rows (_recorder p)) p,
           [TerminalResize cols rows]))
  /\ (forall charCount,
        acknowledgeDataEvent charCount p
        = (p, [TerminalAcknowledgeDataEvent charCount])).
Proof.
  pose proof (reachable_inReplay p Hreach) as H.
  repeat split; intros;
    try (rewrite step_inReplay; exact H);
    try exact H;
    unfold input, resize, acknowledgeDataEvent; rewrite H; reflexivity.
Qed.

Lemma inReplay_never_set_witness :
  let p := fst (step OpTriggerReplay
                  (fst (step OpStartBegin (new 1 "ws" "name" true 80 24)))) in
  reachable p
  /\ _inReplay p = false
  /\ input "ls" p = (p, [TerminalInput "ls"]).
Proof.
  intros p.
  assert (Hreach : reachable p) by (do 2 apply reachable_step; apply reachable_new).
  split; [exact Hreach |].
  pose proof (inReplay_never_set p Hreach) as (H & _ & Hin & _).
  split; [exact H | apply Hin].
Defined.

(** C2.  [_isOrphaned()] returns [true] at once, leaving the state (and so
  the barrier field) untouched, when the long or the short grace timer is
  scheduled.  Otherwise it waits for the barrier held by the field, a
  barrier built with a timeout of 4000 ms; when the wait is over at time
  [now], the result is [true] exactly when no reply was recorded during
  the wait within 500 ms of [now].  Timestamps are milliseconds since the
  epoch, so [now] is past 500, and the clock does not run backwards. *)
Theorem isOrphaned_verdict (p : t) (evs : list Op) (now : Z)
    (Hreach : reachable p) (Hqueue : noOrphanCheckBegins evs)
    (Hclock : nondecreasing (replyTimes evs)) (Hnow : 500 < now) :
  if isScheduled (_disconnectRunner1 p) || isScheduled (_disconnectRunner2 p)
  then isOrphaned_begin p = (p, [], Return true)
  else
    let p' := fst (fst (isOrphaned_begin p)) in
    snd (isOrphaned_begin p) = Await
    /\ (exists b, _orphanQuestionBarrier p' = Some b /\ autoOpenTimeMs b = 4000)
    /\ (isOrphaned_resume now (run evs p') = true
        <-> Forall (fun t => 500 < now - t) (replyTimes evs)).
Proof.
  pose proof (reachable_barrierInv p Hreach) as Hinv.
  unfold barrierInv in Hinv. unfold isOrphaned_begin.
  destruct (isScheduled (_disconnectRunner1 p)
            || isScheduled (_disconnectRunner2 p)); [reflexivity |].
  assert (Hdecide : forall q, _orphanQuestionReplyTime q = 0 ->
            (isOrphaned_resume now (run evs q) = true
             <-> Forall (fun t => 500 < now - t) (replyTimes evs))).
  { intros q Hq. unfold isOrphaned_resume.
    rewrite run_replyTime by exact Hqueue. rewrite Hq.
    rewrite Z.gtb_ltb, Z.ltb_lt.
    apply last_reply_decides; [exact Hclock | lia]. }
  destruct (_orphanQuestionBarrier p) as [b |] eqn:Hb; cbn [fst snd].
  - destruct Hinv as [Htime Hms].
    split; [reflexivity |]. split; [exists b; auto |].
    apply Hdecide, Htime.
  - split; [reflexivity |].
    split; [exists (newAutoOpenBarrier 4000); split; reflexivity |].
    apply Hdecide. reflexivity.
Qed.

Lemma isOrphaned_verdict_witness :
  let p := fst (step OpAttach (new 1 "ws" "name" true 80 24)) in
  let evs := [EvProcessData "x"; OpOrphanQuestionReply 1700000000000] in
  let now := 1700000000400 in
  reachable p
  /\ noOrphanCheckBegins evs
  /\ nondecreasing (replyTimes evs)
  /\ 500 < now
  /\ isOrphaned_resume now (run evs (fst (fst (isOrphaned_begin p)))) = false.
Proof.
  intros p evs now.
  assert (Hreach : reachable p) by (apply reachable_step, reachable_new).
  assert (Hqueue : noOrphanCheckBegins evs)
    by (repeat constructor; discriminate).
  assert (Hclock : nondecreasing (replyTimes evs)) by (cbn; tauto).
  assert (Hnow : 500 < now) by (unfold now; lia).
  repeat (split; [assumption |]).
  pose proof (isOrphaned_verdict p evs now Hreach Hqueue Hclock Hnow)
    as (_ & _ & Hiff).
  destruct (isOrphaned_resume now (run evs (fst (fst (isOrphaned_begin p)))))
    eqn:Hres; [| reflexivity].
  destruct Hiff as [Hall _]. specialize (Hall eq_refl).
  inversion Hall as [| ? ? Hfar _]; subst. unfold now in Hfar. lia.
Defined.

End ProcessProperties.

(** * Properties of the process registry *)

Section RegistryProperties.
Import PtyService.

(** The message for id 7 reads: Could not find pty with id, then 7 between
  double quotes. *)
Example UnknownProcess_7 :
  UnknownProcess 7 = "Could not find pty with id " +:+ quote +:+ "7" +:+ quote.
Proof. vm_compute. reflexivity. Qed.

(** C6, as the code has it.  For an id that is not in the registry,
  [detachFromProcess], [start], [input] and [resize] throw the error of
  [_throwIfNoPty] (the specification's [UnknownProcess]) and leave the
  registry as it is.  [attachToProcess] catches that error: it writes a
  trace line and resolves normally. *)
Theorem unknown_id_rejected_except_by_attach (s : t) (i : Z) (data : string)
    (cols rows : Z) (result : option ITerminalLaunchError)
    (Hunknown : _ptys s !! i = None) :
  detachFromProcess i s = (s, [], Throw (UnknownProcess i))
  /\ start i result s = (s, [], Throw (UnknownProcess i))
  /\ input i data s = (s, [], Throw (UnknownProcess i))
  /\ resize i cols rows s = (s, [], Throw (UnknownProcess i))
  /\ attachToProcess i s
     = (s, [LogTraceReconnectionFailed i (UnknownProcess i)], Ok ()).
Proof.
  unfold detachFromProcess, start, input, resize, attachToProcess,
    _throwIfNoPty.
  rewrite Hunknown. repeat split.
Qed.

Lemma unknown_id_rejected_except_by_attach_witness :
  _ptys (new 0) !! 7 = None
  /\ input 7 "ls" (new 0) = (new 0, [], Throw (UnknownProcess 7))
  /\ detachFromProcess 7 (new 0) = (new 0, [], Throw (UnknownProcess 7)).
Proof.
  pose proof (unknown_id_rejected_except_by_attach (new 0) 7 "ls" 80 24 None
                eq_refl) as (Hdetach & _ & Hinput & _).
  split; [reflexivity |]. split; [exact Hinput | exact Hdetach].
Defined.

(** C6 as stated fails for [attach]: on an empty registry
  [attachToProcess(7)] resolves, it does not fail. *)
Lemma attach_unknown_id_resolves :
  _ptys (new 0) !! 7 = None
  /\ attachToProcess 7 (new 0)
     = (new 0, [LogTraceReconnectionFailed 7 (UnknownProcess 7)], Ok ())
  /\ snd (attachToProcess 7 (new 0)) <> Throw (UnknownProcess 7).
Proof.
  split; [reflexivity |]. split; [reflexivity |]. discriminate.
Qed.

(** A reference whose process is not registered expands to a [null]
  placeholder. *)
Lemma expand_unknown_is_null (env : Awaited) (s : t)
    (ti : ITerminalInstanceLayoutInfoById) :
  _ptys s !! terminal ti = None ->
  _expandTerminalInstance env s ti
  = {| terminal := None; relativeSize := relativeSize ti |}.
Proof.
  intros H. unfold _expandTerminalInstance, _throwIfNoPty. now rewrite H.
Qed.

(** The descriptors of an expanded tab are those of the live references,
  in the stored order. *)
Lemma expandTab_descriptors (env : Awaited) (s : t)
    (tab : ITerminalTabLayoutInfoById) :
  map terminal (terminals (_expandTerminalTab env s tab))
  = descriptors (terminalsWithPlaceholders env s tab).
Proof.
  unfold _expandTerminalTab, terminalsWithPlaceholders. cbn [terminals].
  induction (terminals tab) as [| ti tis IH]; [reflexivity |].
  simpl. destruct (terminal (_expandTerminalInstance env s ti)); simpl;
    now rewrite IH.
Qed.

(** An expanded tab has a terminal exactly when a stored reference is
  live. *)
Lemma expandTab_nonempty (env : Awaited) (s : t)
    (tab : ITerminalTabLayoutInfoById) :
  (0 <? length (terminals (_expandTerminalTab env s tab)))%nat = true
  <-> exists ti, In ti (terminals tab) /\ isLive env s ti = true.
Proof.
  unfold _expandTerminalTab, isLive. cbn [terminals].
  induction (terminals tab) as [| ti tis IH]; simpl in *.
  - split; [discriminate | intros (ti & [] & _)].
  - destruct (terminal (_expandTerminalInstance env s ti)) eqn:Hti; simpl.
    + split; [intros _ | reflexivity].
      exists ti. rewrite Hti. auto.
    + rewrite IH. split.
      * intros (ti' & Hin & Hlive). exists ti'. auto.
      * intros (ti' & [Heq | Hin] & Hlive); [| exists ti'; auto].
        subst ti'. rewrite Hti in Hlive. discriminate.
Qed.

(** C7, as the code has it.  For a workspace with a stored layout the call
  returns a layout (it does not fail).  A reference whose process is not
  registered expands to a [null] placeholder, and the placeholders are
  then filtered out: the terminals of an expanded tab are the descriptors
  of its live references, in order.  A tab is in the result exactly when
  it is the expansion of a stored tab with at least one live reference. *)
Theorem layout_expansion_filters_dead_terminals (env : Awaited) (s : t)
    (wsId : string) (layout : ISetTerminalLayoutInfoArgs)
    (Hstored : _workspaceLayoutInfos s !! wsId = Some layout) :
  exists result,
    getTerminalLayoutInfo env wsId s = Some result
    /\ (forall ti, _ptys s !! terminal ti = None ->
          _expandTerminalInstance env s ti
          = {| terminal := None; relativeSize := relativeSize ti |})
    /\ (forall tab,
          map terminal (terminals (_expandTerminalTab env s tab))
          = descriptors (terminalsWithPlaceholders env s tab))
    /\ (forall tab',
          In tab' (tabs result)
          <-> exists tab,
                In tab (argsTabs layout)
                /\ tab' = _expandTerminalTab env s tab
                /\ exists ti, In ti (terminals tab) /\ isLive env s ti = true).
Proof.
  unfold getTerminalLayoutInfo. rewrite Hstored.
  eexists. split; [reflexivity |].
  split; [intros ti; apply expand_unknown_is_null |].
  split; [apply expandTab_descriptors |].
  intros tab'. cbn [tabs]. rewrite filter_In, in_map_iff. split.
  - intros ((tab & Heq & Hin) & Hne). subst tab'.
    exists tab. repeat split; [exact Hin |].
    now apply expandTab_nonempty.
  - intros (tab & Hin & Heq & Hlive). subst tab'. split.
    + exists tab. auto.
    + now apply expandTab_nonempty.
Qed.

Lemma layout_expansion_filters_dead_terminals_witness :
  _workspaceLayoutInfos exampleRegistry !! "ws"
  = Some {| argsWorkspaceId := "ws"; argsTabs := [exampleTab] |}
  /\ exists result,
       getTerminalLayoutInfo exampleAwaited "ws" exampleRegistry = Some result
       /\ forall tab',
            In tab' (tabs result)
            -> tab' = _expandTerminalTab exampleAwaited exampleRegistry exampleTab.
Proof.
  assert (Hstored : _workspaceLayoutInfos exampleRegistry !! "ws"
                    = Some {| argsWorkspaceId := "ws"; argsTabs := [exampleTab] |})
    by reflexivity.
  split; [exact Hstored |].
  destruct (layout_expansion_filters_dead_terminals exampleAwaited
              exampleRegistry "ws" _ Hstored)
    as (result & Hres & _ & _ & Htabs).
  exists result. split; [exact Hres |].
  intros tab' Hin. apply Htabs in Hin.
  destruct Hin as (tab & [Heq | []] & Htab & _). now subst tab.
Defined.

(** C7 as stated fails for the placeholder: the stored tab refers to
  terminals 1 and 2, process 2 is not registered, and the tab of the
  result lists the descriptor of terminal 1 only.  The list the
  specification describes has a second, [null] entry. *)
Lemma dead_terminal_leaves_no_placeholder :
  _ptys exampleRegistry !! 2 = None
  /\ getTerminalLayoutInfo exampleAwaited "ws" exampleRegistry
     = Some {| tabs :=
                 [ {| isActive := true;
                      activePersistentTerminalId := Some 1;
                      terminals :=
                        [ {| relativeSize := (1 # 2)%Q;
                             terminal := exampleDto |} ] |} ] |}
  /\ terminalsWithPlaceholders exampleAwaited exampleRegistry exampleTab
     = [Some exampleDto; None]
  /\ map Some
       (map terminal
          (terminals (_expandTerminalTab exampleAwaited exampleRegistry
                        exampleTab)))
     <> terminalsWithPlaceholders exampleAwaited exampleRegistry exampleTab.
Proof.
  split; [reflexivity |]. split; [reflexivity |]. split; [reflexivity |].
  discriminate.
Qed.

End RegistryProperties.

(** * Properties of the session dispatcher *)

Section DispatcherProperties.
Import Vscode.

Lemma get_set_eq {V : Type} (k : string) (v : V) (m : JsMap.t V) :
  JsMap.get k (JsMap.set k v m) = Some v.
Proof.
  induction m as [| [k' v'] m IH]; simpl.
  - now rewrite String.eqb_refl.
  - destruct (String.eqb k k') eqn:E; simpl.
    + now rewrite String.eqb_refl.
    + now rewrite E.
Qed.

Lemma set_fresh {V : Type} (k : string) (v : V) (m : JsMap.t V) :
  JsMap.get k m = None -> JsMap.set k v m = m ++ [(k, v)].
Proof.
  induction m as [| [k' v'] m IH]; simpl; [reflexivity |].
  destruct (String.eqb k k'); [discriminate |].
  intros H. now rewrite IH.
Qed.

Lemma has_false {V : Type} (k : string) (m : JsMap.t V) :
  JsMap.has k m = false -> JsMap.get k m = None.
Proof. unfold JsMap.has. now destruct (JsMap.get k m). Qed.

(** ** The table of a type as a [Map] *)

Lemma get_set_ne {V : Type} (k k' : string) (v : V) (m : JsMap.t V) :
  k <> k' -> JsMap.get k' (JsMap.set k v m) = JsMap.get k' m.
Proof.
  intros Hne. induction m as [| [k0 v0] m IH]; simpl.
  - destruct (String.eqb_spec k' k); congruence.
  - destruct (String.eqb_spec k k0) as [-> | Hk]; simpl.
    + destruct (String.eqb_spec k' k0); congruence.
    + now rewrite IH.
Qed.

Lemma get_None_keys {V : Type} (k : string) (m : JsMap.t V) :
  JsMap.get k m = None <-> ~ In k (map fst m).
Proof.
  induction m as [| [k0 v0] m IH]; simpl; [tauto |].
  destruct (String.eqb_spec k k0) as [-> | Hk].
  - split; [discriminate | intros H; exfalso; auto].
  - rewrite IH. split; [intros H [Heq | Hin]; [congruence | auto] | tauto].
Qed.

Lemma get_Some_In {V : Type} (k : string) (v : V) (m : JsMap.t V) :
  JsMap.get k m = Some v -> In (k, v) m.
Proof.
  induction m as [| [k0 v0] m IH]; simpl; [discriminate |].
  destruct (String.eqb_spec k k0) as [-> | Hk]; [intros [= ->]; now left |].
  intros H. right. now apply IH.
Qed.

Lemma In_get {V : Type} (k : string) (v : V) (m : JsMap.t V) :
  NoDup (map fst m) -> In (k, v) m -> JsMap.get k m = Some v.
Proof.
  induction m as [| [k0 v0] m IH]; simpl; [tauto |].
  intros Hnd [Heq | Hin]; inversion Hnd as [| ? ? Hnotin Hnd']; subst.
  - injection Heq as -> ->. now rewrite String.eqb_refl.
  - destruct (String.eqb_spec k k0) as [-> | Hk]; [| now apply IH].
    exfalso. apply Hnotin, list_elem_of_In.
    change k0 with (fst (k0, v)). now apply in_map.
Qed.

Lemma keys_set {V : Type} (k : string) (v : V) (m : JsMap.t V) :
  map fst (JsMap.set k v m)
  = if JsMap.has k m then map fst m else map fst m ++ [k].
Proof.
  unfold JsMap.has. induction m as [| [k0 v0] m IH]; simpl; [reflexivity |].
  destruct (String.eqb_spec k k0) as [-> | Hk]; simpl; [reflexivity |].
  rewrite IH. now destruct (JsMap.get k m).
Qed.

Lemma set_NoDup {V : Type} (k : string) (v : V) (m : JsMap.t V) :
  NoDup (map fst m) -> NoDup (map fst (JsMap.set k v m)).
Proof.
  intros Hnd. rewrite keys_set. unfold JsMap.has.
  destruct (JsMap.get k m) eqn:E; [exact Hnd |].
  apply NoDup_app. repeat split; [exact Hnd | | apply NoDup_singleton].
  intros x Hx Hk.
  apply list_elem_of_singleton in Hk. subst x.
  apply get_None_keys in E. apply E, list_elem_of_In, Hx.
Qed.

Lemma set_Forall {V : Type} (P : string * V -> Prop) (k : string) (v : V)
    (m : JsMap.t V) :
  P (k, v) -> Forall P m -> Forall P (JsMap.set k v m).
Proof.
  intros Hkv. induction 1 as [| [k0 v0] m H0 Hm IH]; simpl.
  - now repeat constructor.
  - destruct (String.eqb k k0); constructor; auto.
Qed.

Lemma delete_In {V : Type} (k : string) (entry : string * V) (m : JsMap.t V) :
  In entry (JsMap.delete k m) -> In entry m.
Proof.
  induction m as [| [k0 v0] m IH]; simpl; [tauto |].
  destruct (String.eqb k k0); simpl; [tauto |]. intros [H | H]; auto.
Qed.

Lemma delete_NoDup {V : Type} (k : string) (m : JsMap.t V) :
  NoDup (map fst m) -> NoDup (map fst (JsMap.delete k m)).
Proof.
  induction m as [| [k0 v0] m IH]; simpl; [auto |].
  intros Hnd. inversion Hnd as [| ? ? Hnotin Hnd']; subst.
  destruct (String.eqb k k0); simpl; [exact Hnd' |].
  constructor; [| now apply IH].
  intros Hin. apply Hnotin, list_elem_of_In.
  apply list_elem_of_In, in_map_iff in Hin as ([k1 v1] & <- & Hin).
  apply (in_map fst). exact (delete_In k _ m Hin).
Qed.

Lemma delete_Forall {V : Type} (P : string * V -> Prop) (k : string)
    (m : JsMap.t V) :
  Forall P m -> Forall P (JsMap.delete k m).
Proof.
  induction 1 as [| [k0 v0] m H0 Hm IH]; simpl; [constructor |].
  destruct (String.eqb k k0); [exact Hm | now constructor].
Qed.

Lemma get_delete_eq {V : Type} (k : string) (m : JsMap.t V) :
  NoDup (map fst m) -> JsMap.get k (JsMap.delete k m) = None.
Proof.
  induction m as [| [k0 v0] m IH]; simpl; [reflexivity |].
  intros Hnd. inversion Hnd as [| ? ? Hnotin Hnd']; subst.
  destruct (String.eqb_spec k k0) as [-> | Hk]; simpl.
  - apply get_None_keys. now rewrite <- list_elem_of_In.
  - destruct (String.eqb_spec k k0); [congruence | now apply IH].
Qed.

Lemma get_delete_ne {V : Type} (k k' : string) (m : JsMap.t V) :
  k <> k' -> JsMap.get k' (JsMap.delete k m) = JsMap.get k' m.
Proof.
  intros Hne. induction m as [| [k0 v0] m IH]; simpl; [reflexivity |].
  destruct (String.eqb_spec k k0) as [-> | Hk]; simpl.
  - destruct (String.eqb_spec k' k0); congruence.
  - now rewrite IH.
Qed.

(** Creating the table of a type registers no connection. *)
Lemma tableOf_ensureTable (ty ty' : ConnectionType) (s : t) :
  tableOf ty' (ensureTable ty s) = tableOf ty' s.
Proof.
  unfold ensureTable, tableOf.
  destruct (connections s !! ty) eqn:E; [reflexivity |]. cbn [connections].
  destruct (decide (ty = ty')) as [-> | Hne].
  - now rewrite lookup_insert_eq, E.
  - now rewrite lookup_insert_ne.
Qed.

Lemma tableOf_insert (ty : ConnectionType) (m : JsMap.t Connection)
    (tables : gmap ConnectionType (JsMap.t Connection)) :
  tableOf ty {| connections := <[ty := m]> tables |} = m.
Proof. unfold tableOf. cbn [connections]. now rewrite lookup_insert_eq. Qed.

(** [connect] on a session type is the version check followed by
  [connectSession]. *)
Lemma connect_session (productCommit : option string)
    (message : ConnectionTypeRequest) (protocol : Protocol) (s : t)
    (ty : ConnectionType) :
  desiredConnectionType message = Some ty -> ty <> Tunnel ->
  connect productCommit message protocol s
  = (fst (fst (connectSession ty message protocol s)),
     versionCheck productCommit message
       ++ snd (fst (connectSession ty message protocol s)),
     snd (connectSession ty message protocol s)).
Proof.
  intros Hty Hsession. unfold connect. rewrite Hty.
  destruct ty; try congruence;
    now destruct (connectSession _ message protocol s) as [[s' effs] r].
Qed.

Lemma connectSession_rejects (ty : ConnectionType)
    (message : ConnectionTypeRequest) (protocol : Protocol) (s : t) :
  registered ty (reconnectionToken protocol) s = negb (reconnection protocol) ->
  connectSession ty message protocol s
  = (ensureTable ty s, [],
     Throw (if reconnection protocol then UnrecognizedToken else DuplicateToken)).
Proof.
  unfold registered, connectSession. intros Hbad.
  rewrite tableOf_ensureTable, Hbad.
  now destruct (reconnection protocol).
Qed.

(** ** What [disposeOldOfflineConnections] does *)

(** The calls made for one disposed connection. *)
Lemma disposeLoop_effects (i max : Z) (rest : list (string * Connection))
    (conns : JsMap.t Connection) (e : Effect) :
  In e (snd (disposeLoop i max rest conns)) ->
  (exists tok, e = LogDebugDisposing tok) \/ (exists c, e = ConnectionDispose c)
  \/ (exists tok, e = LogDebugConnectionClosed tok).
Proof.
  revert i conns. induction rest as [| [tok c] rest IH]; intros i conns; simpl;
    [tauto |].
  destruct (i <? max)%Z; simpl; [| tauto].
  intros [<- | [<- | [<- | H]]]; eauto.
Qed.

(** What the loop disposes, in order. *)
Lemma disposeLoop_disposed (i max : Z) (rest : list (string * Connection))
    (conns : JsMap.t Connection) :
  disposedConnections (snd (disposeLoop i max rest conns))
  = map snd (firstn (Z.to_nat (max - i)) rest).
Proof.
  revert i conns. induction rest as [| [tok c] rest IH]; intros i conns; simpl.
  - now rewrite firstn_nil.
  - destruct (i <? max)%Z eqn:E.
    + apply Z.ltb_lt in E. simpl. rewrite IH.
      replace (Z.to_nat (max - i)) with (S (Z.to_nat (max - (i + 1)))) by lia.
      reflexivity.
    + apply Z.ltb_ge in E.
      replace (Z.to_nat (max - i)) with 0%nat by lia. reflexivity.
Qed.

(** The loop leaves alone what is registered under a token whose
  connection it does not dispose. *)
Lemma disposeLoop_get (i max : Z) (rest : list (string * Connection))
    (conns : JsMap.t Connection) (tok : string) :
  ~ In tok (map fst rest) ->
  JsMap.get tok (fst (disposeLoop i max rest conns)) = JsMap.get tok conns.
Proof.
  revert i conns. induction rest as [| [k c] rest IH]; intros i conns Hnotin;
    simpl; [reflexivity |].
  destruct (i <? max)%Z; simpl; [| reflexivity].
  rewrite IH by (intros H; apply Hnotin; now right).
  apply get_delete_ne. intros ->. apply Hnotin. now left.
Qed.

Lemma disposeLoop_NoDup (i max : Z) (rest : list (string * Connection))
    (conns : JsMap.t Connection) :
  NoDup (map fst conns) ->
  NoDup (map fst (fst (disposeLoop i max rest conns))).
Proof.
  revert i conns. induction rest as [| [k c] rest IH]; intros i conns Hnd;
    simpl; [exact Hnd |].
  destruct (i <? max)%Z; simpl; [| exact Hnd].
  apply IH. now apply delete_NoDup.
Qed.

Lemma disposeLoop_Forall (P : string * Connection -> Prop) (i max : Z)
    (rest : list (string * Connection)) (conns : JsMap.t Connection) :
  Forall P conns -> Forall P (fst (disposeLoop i max rest conns)).
Proof.
  revert i conns. induction rest as [| [k c] rest IH]; intros i conns Hall;
    simpl; [exact Hall |].
  destruct (i <? max)%Z; simpl; [| exact Hall].
  apply IH. now apply delete_Forall.
Qed.

Lemma offlineEntries_connections (conns : JsMap.t Connection) :
  map snd (offlineEntries conns) = offlineConnections conns.
Proof.
  unfold offlineEntries, offlineConnections, JsMap.values.
  induction conns as [| [k c] conns IH]; simpl; [reflexivity |].
  destruct (isOffline c); simpl; now rewrite IH.
Qed.

Lemma offlineEntries_app (conns1 conns2 : JsMap.t Connection) :
  offlineEntries (conns1 ++ conns2)
  = offlineEntries conns1 ++ offlineEntries conns2.
Proof. apply List.filter_app. Qed.

Lemma offlineEntries_keys (conns : JsMap.t Connection) (tok : string) :
  In tok (map fst (offlineEntries conns)) -> In tok (map fst conns).
Proof.
  intros Hin. apply in_map_iff in Hin as (entry & <- & Hin).
  apply filter_In in Hin as [Hin _]. now apply in_map.
Qed.

(** None of the connections that are not offline is offline. *)
Lemma offlineEntries_online (conns : JsMap.t Connection) :
  offlineEntries
    (List.filter (fun entry => negb (isOffline (snd entry))) conns) = [].
Proof.
  unfold offlineEntries.
  induction conns as [| [k c] conns IH]; [reflexivity |].
  cbn [List.filter snd]. destruct (isOffline c) eqn:E; cbn [negb]; [exact IH |].
  cbn [List.filter snd]. now rewrite E.
Qed.

Lemma delete_app_fresh {V : Type} (k : string) (m1 m2 : JsMap.t V) :
  ~ In k (map fst m1) -> JsMap.delete k (m1 ++ m2) = m1 ++ JsMap.delete k m2.
Proof.
  induction m1 as [| [k0 v0] m1 IH]; simpl; [reflexivity |].
  intros Hnotin. destruct (String.eqb_spec k k0) as [-> | Hk].
  - exfalso. apply Hnotin. now left.
  - rewrite IH; [reflexivity |]. intros H. apply Hnotin. now right.
Qed.

(** When no token occurs twice and every offline connection is disposed,
  the loop leaves the connections that are not offline, in their
  order. *)
Lemma disposeLoop_table (i max : Z) (before conns : JsMap.t Connection) :
  NoDup (map fst (before ++ conns)) ->
  Z.of_nat (length (offlineEntries conns)) <= max - i ->
  fst (disposeLoop i max (offlineEntries conns) (before ++ conns))
  = before ++ List.filter (fun entry => negb (isOffline (snd entry))) conns.
Proof.
  unfold offlineEntries. revert i before.
  induction conns as [| [k c] conns IH]; intros i before Hnd Hmax;
    [reflexivity |].
  cbn [List.filter snd] in *.
  destruct (isOffline c) eqn:Hoff; cbn [negb].
  - cbn [length] in Hmax. cbn [disposeLoop].
    replace (i <? max)%Z with true by (symmetry; apply Z.ltb_lt; lia).
    cbn [dispose fst snd].
    assert (Hfresh : ~ In k (map fst before)).
    { rewrite map_app in Hnd. apply NoDup_app in Hnd as (_ & Hdis & _).
      intros Hin. apply (Hdis k); [now apply list_elem_of_In |].
      cbn. apply list_elem_of_here. }
    rewrite (delete_app_fresh k before _ Hfresh). cbn [JsMap.delete].
    rewrite String.eqb_refl.
    apply IH; [| lia].
    rewrite map_app in *. cbn [map fst] in Hnd.
    apply NoDup_app in Hnd as (Hb & Hdis & Hc).
    apply NoDup_app. repeat split; [exact Hb | | now inversion Hc].
    intros x Hx Hin. apply (Hdis x Hx). now apply list_elem_of_further.
  - change (before ++ (k, c) :: conns) with (before ++ [(k, c)] ++ conns).
    rewrite app_assoc. rewrite IH; [now rewrite <- app_assoc | | exact Hmax].
    now rewrite <- app_assoc.
Qed.

(** [disposeOldOfflineConnections] disposes the offline connections of
  the table, all of them, in the order of the table. *)
Lemma dispose_disposed (conns : JsMap.t Connection) :
  disposedConnections (snd (disposeOldOfflineConnections conns))
  = offlineConnections conns.
Proof.
  unfold disposeOldOfflineConnections, maxExtraOfflineConnections.
  rewrite disposeLoop_disposed, !Z.sub_0_r, Nat2Z.id, firstn_all.
  apply offlineEntries_connections.
Qed.

(** In a table where no token occurs twice it leaves the connections
  that are not offline. *)
Lemma dispose_table (conns : JsMap.t Connection) :
  NoDup (map fst conns) ->
  fst (disposeOldOfflineConnections conns)
  = List.filter (fun entry => negb (isOffline (snd entry))) conns.
Proof.
  intros Hnd. unfold disposeOldOfflineConnections, maxExtraOfflineConnections.
  apply (disposeLoop_table 0 _ [] conns Hnd). lia.
Qed.

(** ** What [connect] does for a new session *)

Lemma connectSession_new (ty : ConnectionType)
    (message : ConnectionTypeRequest) (protocol : Protocol) (s : t) :
  reconnection protocol = false ->
  registered ty (reconnectionToken protocol) s = false ->
  let tok := reconnectionToken protocol in
  let conns' := tableOf ty s ++ [(tok, fst (newConnection ty message protocol))] in
  connectSession ty message protocol s
  = ({| connections :=
          <[ty := fst (disposeOldOfflineConnections conns')]>
            (connections (ensureTable ty s)) |},
     [LogDebugNewConnection tok; SendMessage (ok ty)]
       ++ snd (newConnection ty message protocol)
       ++ snd (disposeOldOfflineConnections conns'),
     Ok ()).
Proof.
  unfold registered, connectSession. intros Hnew Hfree.
  rewrite tableOf_ensureTable, Hnew, Hfree. cbn [andb orb].
  destruct (newConnection ty message protocol) as [connection effs].
  cbn [fst snd]. now rewrite (set_fresh _ _ _ (has_false _ _ Hfree)).
Qed.

Lemma disposedConnections_app (effs1 effs2 : list Effect) :
  disposedConnections (effs1 ++ effs2)
  = disposedConnections effs1 ++ disposedConnections effs2.
Proof.
  induction effs1 as [| e effs1 IH]; simpl; [reflexivity |].
  destruct e; simpl; now rewrite IH.
Qed.

Lemma disposedConnections_In (effs : list Effect) (c : Connection) :
  In c (disposedConnections effs) <-> In (ConnectionDispose c) effs.
Proof.
  induction effs as [| e effs IH]; simpl; [tauto |].
  destruct e; simpl; rewrite IH; split; intros H;
    try (now right); try (destruct H as [H | H]; [discriminate | exact H]).
  - destruct H as [-> | H]; auto.
  - destruct H as [H | H]; [injection H as ->; auto | auto].
Qed.

Lemma versionCheck_disposes_nothing (productCommit : option string)
    (message : ConnectionTypeRequest) :
  disposedConnections (versionCheck productCommit message) = [].
Proof.
  unfold versionCheck. destruct productCommit as [ours |]; [| reflexivity].
  now destruct (truthy ours && _).
Qed.

Lemma newConnection_disposes_nothing (ty : ConnectionType)
    (message : ConnectionTypeRequest) (protocol : Protocol) :
  disposedConnections (snd (newConnection ty message protocol)) = []
  /\ isOffline (fst (newConnection ty message protocol)) = false.
Proof. now destruct ty. Qed.

(** The effects of a new session and what they dispose. *)
Lemma connect_new (productCommit : option string)
    (message : ConnectionTypeRequest) (protocol : Protocol) (s : t)
    (ty : ConnectionType) :
  desiredConnectionType message = Some ty -> ty <> Tunnel ->
  reconnection protocol = false ->
  registered ty (reconnectionToken protocol) s = false ->
  let tok := reconnectionToken protocol in
  let conns' := tableOf ty s ++ [(tok, fst (newConnection ty message protocol))] in
  connect productCommit message protocol s
  = ({| connections :=
          <[ty := fst (disposeOldOfflineConnections conns')]>
            (connections (ensureTable ty s)) |},
     versionCheck productCommit message
       ++ [LogDebugNewConnection tok; SendMessage (ok ty)]
       ++ snd (newConnection ty message protocol)
       ++ snd (disposeOldOfflineConnections conns'),
     Ok ()).
Proof.
  intros Hty Hsession Hnew Hfree tok conns'.
  rewrite (connect_session _ _ _ _ ty Hty Hsession).
  now rewrite (connectSession_new ty message protocol s Hnew Hfree).
Qed.

(** The offline connections of the table a new session is added to are
  those the table held before: the connection of the session is bound to
  its socket. *)
Lemma offlineConnections_new (ty : ConnectionType)
    (message : ConnectionTypeRequest) (protocol : Protocol)
    (conns : JsMap.t Connection) (tok : string) :
  offlineEntries (conns ++ [(tok, fst (newConnection ty message protocol))])
  = offlineEntries conns.
Proof.
  rewrite offlineEntries_app. cbn [offlineEntries List.filter snd].
  rewrite (proj2 (newConnection_disposes_nothing ty message protocol)).
  apply app_nil_r.
Qed.

Lemma connect_new_disposed (productCommit : option string)
    (message : ConnectionTypeRequest) (protocol : Protocol)
    (ty : ConnectionType) (conns : JsMap.t Connection) :
  let conns' :=
    conns ++ [(reconnectionToken protocol,
               fst (newConnection ty message protocol))] in
  disposedConnections
    (versionCheck productCommit message
       ++ [LogDebugNewConnection (reconnectionToken protocol);
           SendMessage (ok ty)]
       ++ snd (newConnection ty message protocol)
       ++ snd (disposeOldOfflineConnections conns'))
  = offlineConnections conns.
Proof.
  intros conns'. subst conns'.
  rewrite !disposedConnections_app, versionCheck_disposes_nothing.
  rewrite (proj1 (newConnection_disposes_nothing ty message protocol)).
  rewrite dispose_disposed. cbn [app disposedConnections].
  now rewrite <- !offlineEntries_connections, offlineConnections_new.
Qed.

(** The connection of a new session is registered under its token when
  the call returns. *)
Lemma connect_new_registered (productCommit : option string)
    (message : ConnectionTypeRequest) (protocol : Protocol) (s : t)
    (ty : ConnectionType) :
  desiredConnectionType message = Some ty -> ty <> Tunnel ->
  reconnection protocol = false ->
  registered ty (reconnectionToken protocol) s = false ->
  lookupConnection ty (reconnectionToken protocol)
    (fst (fst (connect productCommit message protocol s)))
  = Some (fst (newConnection ty message protocol)).
Proof.
  intros Hty Hsession Hnew Hfree.
  rewrite (connect_new productCommit message protocol s ty
             Hty Hsession Hnew Hfree).
  cbn [fst]. unfold lookupConnection. rewrite tableOf_insert.
  unfold disposeOldOfflineConnections. rewrite disposeLoop_get.
  - rewrite <- (set_fresh (reconnectionToken protocol)
                  (fst (newConnection ty message protocol)))
      by (apply has_false, Hfree).
    apply get_set_eq.
  - rewrite offlineConnections_new. intros Hin.
    apply offlineEntries_keys in Hin.
    apply has_false, get_None_keys in Hfree. now apply Hfree.
Qed.

(** In a table where no token occurs twice, the table of a new session
  after the call: the connections that were not offline, followed by the
  connection of the session. *)
Lemma connect_new_table (productCommit : option string)
    (message : ConnectionTypeRequest) (protocol : Protocol) (s : t)
    (ty : ConnectionType) :
  desiredConnectionType message = Some ty -> ty <> Tunnel ->
  reconnection protocol = false ->
  registered ty (reconnectionToken protocol) s = false ->
  NoDup (map fst (tableOf ty s)) ->
  tableOf ty (fst (fst (connect productCommit message protocol s)))
  = List.filter (fun entry => negb (isOffline (snd entry))) (tableOf ty s)
      ++ [(reconnectionToken protocol,
           fst (newConnection ty message protocol))].
Proof.
  intros Hty Hsession Hnew Hfree Hnd.
  rewrite (connect_new productCommit message protocol s ty
             Hty Hsession Hnew Hfree).
  cbn [fst]. rewrite tableOf_insert, dispose_table.
  - rewrite List.filter_app. cbn [List.filter snd].
    now rewrite (proj2 (newConnection_disposes_nothing ty message protocol)).
  - rewrite map_app. apply NoDup_app. repeat split; [exact Hnd | |].
    + intros x Hx Hin. cbn in Hin. apply list_elem_of_singleton in Hin. subst x.
      apply has_false, get_None_keys in Hfree.
      apply Hfree. now apply list_elem_of_In.
    + cbn. apply NoDup_singleton.
Qed.

(** ** The invariant of the tables *)

Lemma tableOf_insert_ne (ty ty' : ConnectionType) (m : JsMap.t Connection)
    (tables : gmap ConnectionType (JsMap.t Connection)) :
  ty <> ty' ->
  tableOf ty' {| connections := <[ty := m]> tables |}
  = tableOf ty' {| connections := tables |}.
Proof.
  intros Hne. unfold tableOf. cbn [connections]. now rewrite lookup_insert_ne.
Qed.

Lemma tokensUnique_update (s : t) (ty : ConnectionType)
    (m : JsMap.t Connection) :
  tokensUnique s ->
  NoDup (map fst m) ->
  Forall (fun entry => token (snd entry) = fst entry) m ->
  tokensUnique {| connections := <[ty := m]> (connections s) |}.
Proof.
  intros Hinv Hnd Hall ty'. destruct (decide (ty = ty')) as [<- | Hne].
  - now rewrite tableOf_insert.
  - rewrite tableOf_insert_ne by exact Hne. destruct s. apply Hinv.
Qed.

Lemma tokensUnique_ensureTable (ty : ConnectionType) (s : t) :
  tokensUnique s -> tokensUnique (ensureTable ty s).
Proof. intros Hinv ty'. rewrite tableOf_ensureTable. apply Hinv. Qed.

Lemma connectSession_tokensUnique (ty : ConnectionType)
    (message : ConnectionTypeRequest) (protocol : Protocol) (s : t) :
  tokensUnique s ->
  tokensUnique (fst (fst (connectSession ty message protocol s))).
Proof.
  intros Hinv.
  pose proof (tokensUnique_ensureTable ty s Hinv) as Hinv1.
  destruct (Hinv ty) as [Hnd Hall].
  unfold connectSession. rewrite tableOf_ensureTable.
  destruct (reconnection protocol && JsMap.has _ _) eqn:Hre.
  - destruct (JsMap.get (reconnectionToken protocol) (tableOf ty s))
      as [c |] eqn:Hget; [| exact Hinv1].
    cbn [fst]. apply tokensUnique_update; [exact Hinv1 | now apply set_NoDup |].
    apply set_Forall; [| exact Hall]. cbn.
    apply get_Some_In in Hget.
    rewrite Forall_forall in Hall. apply (Hall (_, c)), list_elem_of_In, Hget.
  - destruct (reconnection protocol || JsMap.has _ _); [exact Hinv1 |].
    destruct (newConnection ty message protocol) as [connection effs] eqn:Hc.
    cbn [fst]. unfold disposeOldOfflineConnections.
    apply tokensUnique_update;
      [exact Hinv1 | now apply disposeLoop_NoDup, set_NoDup |].
    apply disposeLoop_Forall, set_Forall; [| exact Hall]. cbn.
    unfold newConnection in Hc. destruct ty; injection Hc as <- _; reflexivity.
Qed.

Lemma step_tokensUnique (op : Op) (s : t) :
  tokensUnique s -> tokensUnique (step op s).
Proof.
  intros Hinv. destruct op as [productCommit message protocol | ty tok | ty tok now];
    cbn [step].
  - unfold connect.
    destruct (desiredConnectionType message) as [[| |] |]; try exact Hinv.
    + pose proof (connectSession_tokensUnique Management message protocol s Hinv).
      now destruct (connectSession Management message protocol s) as [[? ?] ?].
    + pose proof (connectSession_tokensUnique ExtensionHost message protocol s Hinv).
      now destruct (connectSession ExtensionHost message protocol s) as [[? ?] ?].
  - unfold onClose. destruct (connections s !! ty) as [m |] eqn:Hm; [| exact Hinv].
    destruct (Hinv ty) as [Hnd Hall]. unfold tableOf in Hnd, Hall.
    rewrite Hm in Hnd, Hall. cbn in Hnd, Hall. cbn [fst].
    apply tokensUnique_update;
      [exact Hinv | now apply delete_NoDup | now apply delete_Forall].
  - unfold markOffline. destruct (Hinv ty) as [Hnd Hall].
    destruct (JsMap.get tok (tableOf ty s)) as [c |] eqn:Hget; [| exact Hinv].
    apply tokensUnique_update; [exact Hinv | now apply set_NoDup |].
    apply set_Forall; [| exact Hall]. cbn.
    apply get_Some_In in Hget. rewrite Forall_forall in Hall.
    apply (Hall (_, c)), list_elem_of_In, Hget.
Qed.

Lemma reachable_tokensUnique (s : t) : reachable s -> tokensUnique s.
Proof.
  induction 1 as [| op s _ IH]; [| now apply step_tokensUnique].
  intros ty. unfold tableOf, new. cbn. rewrite lookup_empty. cbn.
  split; constructor.
Qed.

Lemma keys_are_tokens (m : JsMap.t Connection) :
  Forall (fun entry => token (snd entry) = fst entry) m ->
  map token (JsMap.values m) = map fst m.
Proof.
  unfold JsMap.values. induction 1 as [| [k c] m Hk Hm IH]; simpl; [reflexivity |].
  cbn in Hk. now rewrite Hk, IH.
Qed.

(** C1.  On a handshake of type Management or ExtensionHost whose
  reconnection flag disagrees with the table (no reconnection and the
  token is registered, or a reconnection and the token is not
  registered), [connect] throws: [DuplicateToken] in the first case,
  [UnrecognizedToken] in the second.  It makes no call besides the
  version check, and the table of every type holds what it held. *)
Theorem bad_token_rejected (productCommit : option string)
    (message : ConnectionTypeRequest) (protocol : Protocol) (s : t)
    (ty : ConnectionType)
    (Hty : desiredConnectionType message = Some ty) (Hsession : ty <> Tunnel)
    (Hbad : registered ty (reconnectionToken protocol) s
            = negb (reconnection protocol)) :
  exists s',
    connect productCommit message protocol s
    = (s', versionCheck productCommit message,
       Throw (if reconnection protocol
              then UnrecognizedToken else DuplicateToken))
    /\ (forall ty', tableOf ty' s' = tableOf ty' s)
    /\ (forall ty' tok',
          lookupConnection ty' tok' s' = lookupConnection ty' tok' s).
Proof.
  exists (ensureTable ty s).
  rewrite (connect_session _ _ _ _ ty Hty Hsession).
  rewrite (connectSession_rejects ty message protocol s Hbad).
  cbn [fst snd]. rewrite app_nil_r.
  split; [reflexivity |].
  split; intros; unfold lookupConnection; now rewrite tableOf_ensureTable.
Qed.

Lemma bad_token_rejected_witness :
  desiredConnectionType (exampleRequest Management) = Some Management
  /\ Management <> Tunnel
  /\ registered Management "a" exampleDispatcher = negb false
  /\ snd (connect None (exampleRequest Management) (exampleProtocol "a" false)
            exampleDispatcher) = Throw DuplicateToken
  /\ registered ExtensionHost "a" exampleDispatcher = negb true
  /\ snd (connect None (exampleRequest ExtensionHost) (exampleProtocol "a" true)
            exampleDispatcher) = Throw UnrecognizedToken.
Proof.
  assert (Hne : Management <> Tunnel) by discriminate.
  assert (Hne' : ExtensionHost <> Tunnel) by discriminate.
  split; [reflexivity |]. split; [exact Hne |]. split; [reflexivity |].
  destruct (bad_token_rejected None (exampleRequest Management)
              (exampleProtocol "a" false) exampleDispatcher Management
              eq_refl Hne eq_refl) as (s1 & H1 & _).
  destruct (bad_token_rejected None (exampleRequest ExtensionHost)
              (exampleProtocol "a" true) exampleDispatcher ExtensionHost
              eq_refl Hne' eq_refl) as (s2 & H2 & _).
  rewrite H1, H2. repeat split.
Defined.

(** C8, as the code has it.  A new session of type Management or
  ExtensionHost is acknowledged, a connection for its token, with no
  offline marker, is built and registered in the table of its type, and
  the call returns normally.  The client-connected event is fired for a
  Management session only. *)
Theorem new_session_registered (productCommit : option string)
    (message : ConnectionTypeRequest) (protocol : Protocol) (s : t)
    (ty : ConnectionType)
    (Hty : desiredConnectionType message = Some ty) (Hsession : ty <> Tunnel)
    (Hnew : reconnection protocol = false)
    (Hfree : registered ty (reconnectionToken protocol) s = false) :
  let tok := reconnectionToken protocol in
  let connection := fst (newConnection ty message protocol) in
  exists s' effs,
    connect productCommit message protocol s
    = (s',
       versionCheck productCommit message
         ++ LogDebugNewConnection tok :: SendMessage (ok ty) :: effs,
       Ok ())
    /\ lookupConnection ty tok s' = Some connection
    /\ token connection = tok
    /\ offline connection = None
    /\ (In (FireClientConnect tok)
          (snd (fst (connect productCommit message protocol s)))
        <-> ty = Management).
Proof.
  intros tok connection.
  pose proof (connect_new productCommit message protocol s ty
                Hty Hsession Hnew Hfree) as Hc.
  cbv zeta in Hc. fold tok in Hc. fold connection in Hc.
  eexists. eexists. split; [exact Hc |].
  split.
  { pose proof (connect_new_registered productCommit message protocol s ty
                  Hty Hsession Hnew Hfree) as Hreg.
    rewrite Hc in Hreg. exact Hreg. }
  split; [subst connection; now destruct ty |].
  split; [subst connection; now destruct ty |].
  rewrite Hc. cbn [fst snd]. rewrite !in_app_iff. split.
  - intros [H | [H | [H | H]]].
    + unfold versionCheck in H.
      destruct productCommit as [ours |]; [| destruct H].
      destruct (truthy ours && _); [| destruct H].
      destruct H as [H | []]. discriminate H.
    + destruct H as [H | [H | []]]; discriminate H.
    + destruct ty; try reflexivity; try congruence.
      destruct H as [H | []]. discriminate H.
    + apply disposeLoop_effects in H.
      destruct H as [[? H] | [[? H] | [? H]]]; discriminate H.
  - intros ->. right. right. left. now left.
Qed.

Lemma new_session_registered_witness :
  desiredConnectionType (exampleRequest Management) = Some Management
  /\ Management <> Tunnel
  /\ reconnection (exampleProtocol "c" false) = false
  /\ registered Management "c" exampleDispatcher = false
  /\ In (FireClientConnect "c")
       (snd (fst (connect None (exampleRequest Management)
                    (exampleProtocol "c" false) exampleDispatcher))).
Proof.
  assert (Hne : Management <> Tunnel) by discriminate.
  split; [reflexivity |]. split; [exact Hne |].
  split; [reflexivity |]. split; [reflexivity |].
  destruct (new_session_registered None (exampleRequest Management)
              (exampleProtocol "c" false) exampleDispatcher Management
              eq_refl Hne eq_refl eq_refl) as (s' & effs & _ & _ & _ & _ & Hfire).
  now apply Hfire.
Defined.

(** C8 as stated fails for ExtensionHost: a new ExtensionHost session is
  acknowledged and registered, and no client-connected event is fired. *)
Lemma extension_host_session_fires_no_event :
  let out := connect None (exampleRequest ExtensionHost)
               (exampleProtocol "c" false) new in
  snd out = Ok ()
  /\ snd (fst out)
     = [LogDebugNewConnection "c"; SendMessage (MsgDebugPort None);
        ReadEntireBuffer]
  /\ registered ExtensionHost "c" (fst (fst out)) = true
  /\ ~ In (FireClientConnect "c") (snd (fst out)).
Proof.
  split; [reflexivity |]. split; [reflexivity |]. split; [reflexivity |].
  cbn. intros [H | [H | [H | []]]]; discriminate H.
Qed.

(** C9.  [maxExtraOfflineConnections] is the constant 0, and when a new
  session of type Management or ExtensionHost is registered, every
  connection that the table of that type holds with its offline marker
  set is disposed by the call. *)
Theorem every_offline_connection_disposed (productCommit : option string)
    (message : ConnectionTypeRequest) (protocol : Protocol) (s : t)
    (ty : ConnectionType)
    (Hty : desiredConnectionType message = Some ty) (Hsession : ty <> Tunnel)
    (Hnew : reconnection protocol = false)
    (Hfree : registered ty (reconnectionToken protocol) s = false) :
  let out := connect productCommit message protocol s in
  maxExtraOfflineConnections = 0
  /\ (forall c, In c (connectionsOf ty s) -> isOffline c = true ->
        In (ConnectionDispose c) (snd (fst out)))
  /\ disposedConnections (snd (fst out)) = offlineConnections (tableOf ty s).
Proof.
  intros out. subst out.
  rewrite (connect_new productCommit message protocol s ty
             Hty Hsession Hnew Hfree).
  cbn [fst snd]. rewrite connect_new_disposed.
  split; [reflexivity |]. split; [| reflexivity].
  intros c Hin Hoff. apply disposedConnections_In.
  rewrite connect_new_disposed. unfold offlineConnections.
  apply filter_In. auto.
Qed.

Lemma every_offline_connection_disposed_witness :
  let out := connect None (exampleRequest Management)
               (exampleProtocol "c" false) exampleDispatcher in
  desiredConnectionType (exampleRequest Management) = Some Management
  /\ Management <> Tunnel
  /\ reconnection (exampleProtocol "c" false) = false
  /\ registered Management "c" exampleDispatcher = false
  /\ In (ConnectionDispose offlineA) (snd (fst out))
  /\ In (ConnectionDispose offlineB) (snd (fst out)).
Proof.
  intros out.
  assert (Hne : Management <> Tunnel) by discriminate.
  split; [reflexivity |]. split; [exact Hne |].
  split; [reflexivity |]. split; [reflexivity |].
  destruct (every_offline_connection_disposed None (exampleRequest Management)
              (exampleProtocol "c" false) exampleDispatcher Management
              eq_refl Hne eq_refl eq_refl) as (_ & Hdisposed & _).
  split; apply Hdisposed; try reflexivity; vm_compute; auto.
Defined.

(** The dispatcher with the two offline connections is reachable: two
  sessions were registered and their sockets closed. *)
Lemma exampleDispatcher_reachable : reachable exampleDispatcher.
Proof.
  change exampleDispatcher
    with (step (OpSocketClosed Management "b" 100)
            (step (OpSocketClosed Management "a" 200)
               (step (OpConnect None (exampleRequest Management)
                        (exampleProtocol "b" false))
                  (step (OpConnect None (exampleRequest Management)
                           (exampleProtocol "a" false)) new)))).
  do 4 apply reachable_step. apply reachable_new.
Qed.

(** C4, as the code has it.  When a new session of type Management or
  ExtensionHost is registered in a reachable state, the call disposes the
  offline connections that the table of that type holds, in the insertion
  order of the table and without sorting them by disconnection time: all
  but the last [maxExtraOfflineConnections] of them, which is all of
  them.  The disposed connections leave the table, so that when the call
  returns the table holds no more than [maxExtraOfflineConnections]
  offline connections: the connections that were bound to a socket and
  the connection of the new session. *)
Theorem offline_disposed_in_table_order (productCommit : option string)
    (message : ConnectionTypeRequest) (protocol : Protocol) (s : t)
    (ty : ConnectionType)
    (Hreach : reachable s)
    (Hty : desiredConnectionType message = Some ty) (Hsession : ty <> Tunnel)
    (Hnew : reconnection protocol = false)
    (Hfree : registered ty (reconnectionToken protocol) s = false) :
  let out := connect productCommit message protocol s in
  let offline' := offlineConnections (tableOf ty s) in
  let table' := tableOf ty (fst (fst out)) in
  disposedConnections (snd (fst out)) = offline'
  /\ disposedConnections (snd (fst out))
     = firstn (Z.to_nat (Z.of_nat (length offline') - maxExtraOfflineConnections))
         offline'
  /\ Z.of_nat (length (offlineConnections table')) <= maxExtraOfflineConnections
  /\ table'
     = List.filter (fun entry => negb (isOffline (snd entry))) (tableOf ty s)
         ++ [(reconnectionToken protocol,
              fst (newConnection ty message protocol))].
Proof.
  intros out offline' table'.
  destruct (reachable_tokensUnique s Hreach ty) as [Hnd _].
  assert (Htable : table'
            = List.filter (fun entry => negb (isOffline (snd entry)))
                (tableOf ty s)
                ++ [(reconnectionToken protocol,
                     fst (newConnection ty message protocol))])
    by (apply connect_new_table; assumption).
  assert (Hdisposed : disposedConnections (snd (fst out)) = offline').
  { subst out offline'.
    rewrite (connect_new productCommit message protocol s ty
               Hty Hsession Hnew Hfree).
    cbn [fst snd]. apply connect_new_disposed. }
  split; [exact Hdisposed |]. split; [| split; [| exact Htable]].
  - rewrite Hdisposed. unfold maxExtraOfflineConnections.
    now rewrite Z.sub_0_r, Nat2Z.id, firstn_all.
  - rewrite Htable, <- offlineEntries_connections, offlineConnections_new.
    rewrite offlineEntries_online. unfold maxExtraOfflineConnections. cbn. lia.
Qed.

Lemma offline_disposed_in_table_order_witness :
  let out := connect None (exampleRequest Management)
               (exampleProtocol "c" false) exampleDispatcher in
  reachable exampleDispatcher
  /\ desiredConnectionType (exampleRequest Management) = Some Management
  /\ Management <> Tunnel
  /\ reconnection (exampleProtocol "c" false) = false
  /\ registered Management "c" exampleDispatcher = false
  /\ disposedConnections (snd (fst out)) = [offlineA; offlineB]
  /\ tableOf Management (fst (fst out))
     = [("c", {| token := "c"; flavour := ManagementConnection;
                 offline := None |})].
Proof.
  intros out.
  assert (Hne : Management <> Tunnel) by discriminate.
  pose proof exampleDispatcher_reachable as Hreach.
  split; [exact Hreach |].
  split; [reflexivity |]. split; [exact Hne |].
  split; [reflexivity |]. split; [reflexivity |].
  destruct (offline_disposed_in_table_order None (exampleRequest Management)
              (exampleProtocol "c" false) exampleDispatcher Management
              Hreach eq_refl Hne eq_refl eq_refl) as (Hall & _ & _ & Htable).
  subst out. split; [rewrite Hall | rewrite Htable]; reflexivity.
Defined.

(** C4 as stated fails for the order of the scan: [a] was registered
  before [b] and went offline after it; the call disposes [a] first,
  where a scan of the table that is oldest first by disconnection time
  disposes [b] first. *)
Lemma offline_not_scanned_oldest_first :
  let out := connect None (exampleRequest Management)
               (exampleProtocol "c" false) exampleDispatcher in
  let table := tableOf Management exampleDispatcher in
  snd out = Ok ()
  /\ offlineConnections table = [offlineA; offlineB]
  /\ disposedConnections (snd (fst out)) = [offlineA; offlineB]
  /\ disposedOldestFirst maxExtraOfflineConnections table = [offlineB; offlineA]
  /\ disposedConnections (snd (fst out))
     <> disposedOldestFirst maxExtraOfflineConnections table.
Proof.
  repeat (split; [reflexivity |]). discriminate.
Qed.

(** Whatever makes the handshake fail, [handleWebSocket] reports the
  reason on the socket, tears the socket down and resolves. *)
Lemma handleWebSocket_reports_failure (productCommit : option string)
    (tok : string) (deflate : bool) (message : ConnectionTypeRequest)
    (buffered : string) (s s' : t) (effs : list Effect) (reason : string) :
  truthy tok = true ->
  (forall protocol, reconnectionToken protocol = tok ->
     connect productCommit message protocol s = (s', effs, Throw reason)) ->
  handleWebSocket productCommit
    {| queryReconnectionToken := Some tok; queryReconnection := None;
       querySkipWebSocketFrames := None |}
    deflate (Ok message) buffered s
  = (s', effs ++ [SendMessage (MsgError reason); ProtocolDispose; SocketDispose],
     Ok true).
Proof.
  intros Htok Hthrow. unfold handleWebSocket. cbn.
  rewrite Htok. cbn. now rewrite Hthrow.
Qed.

End DispatcherProperties.

(** * Integers as JavaScript numbers *)

Section DoubleProperties.

Lemma ulp_pos a : 0 < ulp a.
Proof. unfold ulp. apply Z.pow_pos_nonneg; lia. Qed.

Lemma ulp_small a : a < 2 ^ 53 -> ulp a = 1.
Proof.
  intros Ha. unfold ulp.
  assert (Z.log2 a <= 52).
  { destruct (Z.le_gt_cases a 0) as [H0 | H0].
    - rewrite Z.log2_nonpos by exact H0. lia.
    - apply Z.log2_lt_pow2 in Ha; lia. }
  replace (Z.max 0 (Z.log2 a - 52)) with 0 by lia. reflexivity.
Qed.

Lemma roundQuotient_cases n d :
  roundQuotient n d = n / d
  \/ (roundQuotient n d = n / d + 1 /\ d <= 2 * (n mod d)).
Proof.
  unfold roundQuotient.
  destruct (Z.ltb_spec (2 * (n mod d)) d); [auto |].
  destruct (d <? 2 * (n mod d))%Z; [auto |].
  destruct (Z.even (n / d)); auto.
Qed.

Lemma roundQuotient_ge n d : n / d <= roundQuotient n d.
Proof. destruct (roundQuotient_cases n d) as [-> | [-> _]]; lia. Qed.

Lemma round_cases a u :
  0 < u ->
  roundTiesToEven a u = a / u * u \/ roundTiesToEven a u = (a / u + 1) * u.
Proof.
  intros Hu. unfold roundTiesToEven.
  destruct (roundQuotient_cases a u) as [-> | [-> _]]; auto.
Qed.

Lemma round_exact a u : 0 < u -> a mod u = 0 -> roundTiesToEven a u = a.
Proof.
  intros Hu Hr. unfold roundTiesToEven.
  destruct (roundQuotient_cases a u) as [-> | [_ Hup]]; [| lia].
  assert (Hau : a = u * (a / u) + a mod u) by (apply Z.div_mod; lia). lia.
Qed.

Lemma round_lower a u n :
  0 < u -> n mod u = 0 -> n <= a -> n <= roundTiesToEven a u.
Proof.
  intros Hu Hn Hle.
  assert (n <= a / u * u).
  { apply Z.mod_divide in Hn; [| lia]. destruct Hn as [m ->].
    apply Z.mul_le_mono_nonneg_r; [lia |].
    apply Z.div_le_lower_bound; lia. }
  destruct (round_cases a u Hu) as [-> | ->]; lia.
Qed.

Lemma round_upper a u n :
  0 < u -> n mod u = 0 -> a <= n -> roundTiesToEven a u <= n.
Proof.
  intros Hu Hn Hle.
  destruct (Z.eq_dec (a mod u) 0) as [Hr | Hr].
  - rewrite round_exact by assumption. exact Hle.
  - assert ((a / u + 1) * u <= n).
    { apply Z.mod_divide in Hn; [| lia]. destruct Hn as [m ->].
      apply Z.mul_le_mono_nonneg_r; [lia |].
      assert (Hau : a = u * (a / u) + a mod u) by (apply Z.div_mod; lia).
      pose proof (Z.mod_pos_bound a u Hu).
      assert (a / u < m); [| lia].
      apply Z.div_lt_upper_bound; [lia |].
      destruct (Z.eq_dec a (m * u)) as [-> | Hne]; [| lia].
      rewrite Z.mod_mul in Hr by lia. contradiction. }
    destruct (round_cases a u Hu) as [-> | ->]; lia.
Qed.

Lemma ulp_divide a b : a <= b -> (ulp a | ulp b).
Proof.
  intros Hle. unfold ulp.
  pose proof (Z.log2_le_mono a b Hle).
  exists (2 ^ (Z.max 0 (Z.log2 b - 52) - Z.max 0 (Z.log2 a - 52))).
  rewrite <- Z.pow_add_r by lia. f_equal. lia.
Qed.

Lemma isDouble_spec z : isDouble z = true <-> Z.abs z mod ulp (Z.abs z) = 0.
Proof.
  unfold isDouble, toDouble. rewrite Z.eqb_eq.
  pose proof (ulp_pos (Z.abs z)) as Hu. split.
  - intros H.
    destruct (round_cases (Z.abs z) (ulp (Z.abs z)) Hu) as [E | E];
      rewrite E in H; apply Z.mod_divide; try lia.
    + exists (Z.sgn z * (Z.sgn z * (Z.abs z / ulp (Z.abs z)))).
      destruct z; cbn [Z.sgn Z.abs] in *; lia.
    + exists (Z.sgn z * (Z.sgn z * (Z.abs z / ulp (Z.abs z) + 1))).
      destruct z; cbn [Z.sgn Z.abs] in *; lia.
  - intros H. rewrite round_exact by assumption. destruct z; cbn; lia.
Qed.

Lemma toDouble_safe z : Z.abs z <= 2 ^ 53 -> toDouble z = z.
Proof.
  intros Hz. apply Z.eqb_eq. change (isDouble z = true). apply isDouble_spec.
  destruct (Z.eq_dec (Z.abs z) (2 ^ 53)) as [-> | Hne]; [reflexivity |].
  rewrite ulp_small by lia. apply Z.mod_1_r.
Qed.

(** Adding one to a double never gives less. *)
Lemma toDouble_succ_ge n : isDouble n = true -> n <= toDouble (n + 1).
Proof.
  intros Hn. apply isDouble_spec in Hn. unfold toDouble.
  destruct (Z.le_gt_cases 0 n) as [H0 | H0].
  - rewrite Z.abs_eq in Hn by lia.
    rewrite Z.abs_eq, Z.sgn_pos by lia. rewrite Z.mul_1_l.
    destruct (Z.log2_succ_or n) as [Hs | Hs].
    + apply Z.log2_eq_succ_is_pow2 in Hs as [b Hb].
      assert (0 <= b).
      { destruct (Z.le_gt_cases 0 b); [assumption |].
        rewrite Z.pow_neg_r in Hb by lia. lia. }
      rewrite round_exact; [lia | apply ulp_pos |].
      unfold ulp. change (Z.succ n) with (n + 1) in Hb. rewrite Hb.
      rewrite Z.log2_pow2 by lia.
      apply Z.mod_divide; [pose proof (Z.pow_pos_nonneg 2 (Z.max 0 (b - 52))); lia |].
      exists (2 ^ (b - Z.max 0 (b - 52))).
      rewrite <- Z.pow_add_r by lia. f_equal. lia.
    + apply round_lower; [apply ulp_pos | | lia].
      unfold ulp in *. change (Z.succ n) with (n + 1) in Hs. now rewrite Hs.
  - destruct (Z.eq_dec n (-1)) as [-> | Hne]; [cbn; lia |].
    rewrite Z.sgn_neg by lia.
    assert (roundTiesToEven (Z.abs (n + 1)) (ulp (Z.abs (n + 1))) <= - n); [| lia].
    apply round_upper; [apply ulp_pos | | lia].
    rewrite Z.abs_neq in Hn by lia.
    assert (Hle : Z.abs (n + 1) <= - n) by lia.
    destruct (ulp_divide (Z.abs (n + 1)) (- n) Hle) as [k Hk].
    apply Z.mod_divide; [pose proof (ulp_pos (Z.abs (n + 1))); lia |].
    apply Z.mod_divide in Hn; [| pose proof (ulp_pos (- n)); lia].
    destruct Hn as [m Hm]. exists (m * k). rewrite Hm at 1. rewrite Hk. ring.
Qed.

Lemma pow2_mod_ulp k : 0 <= k -> 2 ^ k mod 2 ^ Z.max 0 (k - 52) = 0.
Proof.
  intros Hk.
  apply Z.mod_divide; [pose proof (Z.pow_pos_nonneg 2 (Z.max 0 (k - 52))); lia |].
  exists (2 ^ (k - Z.max 0 (k - 52))).
  rewrite <- Z.pow_add_r by lia. f_equal. lia.
Qed.

Lemma round_isDouble a :
  0 <= a ->
  roundTiesToEven a (ulp a) mod ulp (roundTiesToEven a (ulp a)) = 0.
Proof.
  intros Ha. pose proof (ulp_pos a) as Hu.
  destruct (Z.lt_ge_cases a (2 ^ 53)) as [Hsmall | Hbig].
  - rewrite (ulp_small a Hsmall), round_exact by (try apply Z.mod_1_r; lia).
    rewrite (ulp_small a Hsmall). apply Z.mod_1_r.
  - assert (Hpos : 0 < a) by lia.
    destruct (Z.log2_spec a Hpos) as [Hlo Hhi].
    assert (Hk : 53 <= Z.log2 a).
    { apply Z.log2_le_pow2; lia. }
    set (k := Z.log2 a) in *.
    assert (Hulp : ulp a = 2 ^ (k - 52)).
    { unfold ulp. fold k. f_equal. lia. }
    assert (Hmul : forall j, k <= j -> 2 ^ j mod ulp a = 0).
    { intros j Hj. rewrite Hulp.
      apply Z.mod_divide; [pose proof (Z.pow_pos_nonneg 2 (k - 52)); lia |].
      exists (2 ^ (j - (k - 52))). rewrite <- Z.pow_add_r by lia. f_equal. lia. }
    set (v := roundTiesToEven a (ulp a)).
    assert (Hvlo : 2 ^ k <= v) by (apply round_lower; auto; apply Hmul; lia).
    assert (Hvhi : v <= 2 ^ Z.succ k)
      by (apply round_upper; auto; [apply Hmul |]; lia).
    destruct (Z.eq_dec v (2 ^ Z.succ k)) as [-> | Hne].
    + unfold ulp. rewrite Z.log2_pow2 by lia. apply pow2_mod_ulp. lia.
    + assert (Hlog : Z.log2 v = k) by (apply Z.log2_unique; lia).
      assert (Huv : ulp v = ulp a) by (unfold ulp; fold k; now rewrite Hlog).
      rewrite Huv. subst v.
      destruct (round_cases a (ulp a) Hu) as [-> | ->]; apply Z.mod_mul; lia.
Qed.

Lemma round_nonneg a u : 0 <= a -> 0 < u -> 0 <= roundTiesToEven a u.
Proof.
  intros Ha Hu. apply (round_lower a u 0); auto.
Qed.

(** What [toDouble] returns is a double. *)
Lemma toDouble_isDouble z : isDouble (toDouble z) = true.
Proof.
  apply isDouble_spec. unfold toDouble.
  pose proof (round_nonneg (Z.abs z) (ulp (Z.abs z)) (Z.abs_nonneg z)
                (ulp_pos _)) as Hv.
  pose proof (round_isDouble (Z.abs z) (Z.abs_nonneg z)) as Hd.
  destruct z as [| p | p]; [reflexivity | |].
  - cbn [Z.sgn]. rewrite Z.mul_1_l, Z.abs_eq by exact Hv. exact Hd.
  - cbn [Z.sgn].
    replace (-1 * roundTiesToEven (Z.abs (Z.neg p)) (ulp (Z.abs (Z.neg p))))
      with (- roundTiesToEven (Z.abs (Z.neg p)) (ulp (Z.abs (Z.neg p)))) by lia.
    rewrite Z.abs_opp, Z.abs_eq by exact Hv. exact Hd.
Qed.

(** [Math.floor] of a quotient that is at least one is at least one. *)
Lemma floorDiv_pos a b : 0 < b -> b <= a -> 1 <= floorDiv a b.
Proof.
  intros Hb Hab. unfold floorDiv.
  assert (Hq : 1 <= a / b) by (apply Z.div_le_lower_bound; lia).
  assert (Hq0 : 0 < a / b) by lia.
  destruct (Z.log2_spec (a / b) Hq0) as [Hlo _].
  set (k := Z.log2 (a / b)) in *.
  assert (Hk : 0 <= k) by apply Z.log2_nonneg.
  destruct (Z.leb_spec 0 (k - 52)) as [He | He].
  - assert (Hp : 0 < 2 ^ (k - 52)) by (apply Z.pow_pos_nonneg; lia).
    assert (Hle : 2 ^ (k - 52) <= 2 ^ k) by (apply Z.pow_le_mono_r; lia).
    assert (Hdiv : 1 <= a / (b * 2 ^ (k - 52))).
    { apply Z.div_le_lower_bound; [nia |].
      assert (b * (a / b) <= a) by (apply Z.mul_div_le; lia). nia. }
    pose proof (roundQuotient_ge a (b * 2 ^ (k - 52))). nia.
  - assert (Hp : 0 < 2 ^ (- (k - 52))) by (apply Z.pow_pos_nonneg; lia).
    apply Z.div_le_lower_bound; [lia |].
    pose proof (roundQuotient_ge (a * 2 ^ (- (k - 52))) b) as Hge.
    assert (2 ^ (- (k - 52)) <= a * 2 ^ (- (k - 52)) / b); [| lia].
    apply Z.div_le_lower_bound; [lia |]. nia.
Qed.

Lemma floorDiv_safe a b : 0 < b -> b <= a -> a < 2 ^ 53 -> floorDiv a b = a / b.
Proof.
  intros Hb Hab Ha. unfold floorDiv.
  assert (Hq : 1 <= a / b) by (apply Z.div_le_lower_bound; lia).
  assert (Hq0 : 0 < a / b) by lia.
  destruct (Z.log2_spec (a / b) Hq0) as [Hlo Hhi].
  set (k := Z.log2 (a / b)) in *.
  assert (Hk : 0 <= k) by apply Z.log2_nonneg.
  assert (Hmul : b * (a / b) <= a) by (apply Z.mul_div_le; lia).
  assert (Hk53 : k < 53).
  { destruct (Z.lt_ge_cases k 53) as [| Hge]; [assumption | exfalso].
    assert (2 ^ 53 <= 2 ^ k) by (apply Z.pow_le_mono_r; lia).
    assert (a / b <= a) by (apply Z.div_le_upper_bound; nia).
    lia. }
  destruct (Z.leb_spec 0 (k - 52)) as [He | He].
  - assert (Hk52 : k = 52) by lia. rewrite Hk52 in *.
    change (2 ^ (52 - 52)) with 1. rewrite !Z.mul_1_r.
    assert (b = 1).
    { destruct (Z.eq_dec b 1); [assumption |].
      assert (2 * 2 ^ 52 <= a) by nia. change (2 ^ 53) with (2 * 2 ^ 52) in Ha. lia. }
    subst b. unfold roundQuotient. rewrite Z.mod_1_r, Z.div_1_r. reflexivity.
  - set (j := - (k - 52)).
    assert (Hj : 0 < j) by lia.
    assert (Hp : 0 < 2 ^ j) by (apply Z.pow_pos_nonneg; lia).
    assert (Hb2 : b < 2 * 2 ^ j).
    { assert (Hpow : 2 ^ k * (2 * 2 ^ j) = 2 ^ 53).
      { rewrite <- Z.pow_succ_r, <- Z.pow_add_r by lia. f_equal. lia. }
      assert (0 < 2 ^ k) by (apply Z.pow_pos_nonneg; lia).
      nia. }
    set (P := 2 ^ j) in *.
    set (Q := a / b) in *.
    assert (Hr : a < b * (Q + 1)).
    { pose proof (Z.mod_pos_bound a b Hb).
      assert (a = b * (a / b) + a mod b) by (apply Z.div_mod; lia).
      subst Q. lia. }
    set (n := a * P).
    assert (Hn : n = b * (n / b) + n mod b) by (apply Z.div_mod; lia).
    pose proof (Z.mod_pos_bound n b Hb) as HR.
    symmetry. apply Z.div_unique_pos with (r := roundQuotient n b - Q * P).
    + split.
      * pose proof (roundQuotient_ge n b).
        assert (Q * P <= n / b); [| lia].
        apply Z.div_le_lower_bound; [lia |]. subst n. nia.
      * destruct (roundQuotient_cases n b) as [-> | [-> Hup]].
        -- assert (n / b < (Q + 1) * P); [| lia].
           apply Z.div_lt_upper_bound; [lia |]. subst n. nia.
        -- assert (n / b + 1 < (Q + 1) * P); [| lia].
           destruct (Z.lt_ge_cases (n / b + 1) ((Q + 1) * P)) as [|Hge];
             [assumption | exfalso].
           assert (H1 : 2 * n >= b * (2 * (n / b) + 1)) by lia.
           assert (H2 : b * (2 * (n / b) + 1) >= b * (2 * ((Q + 1) * P) - 1))
             by nia.
           assert (H3 : n <= (b * (Q + 1) - 1) * P) by (subst n; nia).
           nia.
    + lia.
Qed.

End DoubleProperties.

(** * Further properties: [printTime] *)

Section PrintTimeProperties.

Lemma append_empty (a b : string) :
  a +:+ b = EmptyString -> a = EmptyString /\ b = EmptyString.
Proof. destruct a; cbn; [auto | discriminate]. Qed.

Lemma timePart_empty (n : Z) (c : Ascii.ascii) (unit : string) :
  timePart n (String c unit) = EmptyString -> n = 0.
Proof.
  unfold timePart. destruct (Z.eqb_spec n 0); [auto |].
  intros H. apply append_empty in H as [_ H]. discriminate H.
Qed.

(** On safe integers [Math.floor(a / b)] is the quotient of the integers
  and [a - Math.floor(a / b) * b] the remainder. *)
Lemma floorDiv_mod_safe (a b : Z) :
  0 < b -> b <= a -> a <= MAX_SAFE_INTEGER ->
  floorDiv a b = a / b
  /\ toDouble (a - toDouble (floorDiv a b * b)) = a mod b.
Proof.
  unfold MAX_SAFE_INTEGER. intros Hb Hab Ha.
  assert (Hdiv : floorDiv a b = a / b) by (apply floorDiv_safe; lia).
  split; [exact Hdiv |]. rewrite Hdiv.
  assert (Hau : a = b * (a / b) + a mod b) by (apply Z.div_mod; lia).
  pose proof (Z.mod_pos_bound a b Hb).
  assert (0 <= a / b) by (apply Z.div_pos; lia).
  rewrite (toDouble_safe (a / b * b)) by nia.
  rewrite toDouble_safe by nia. lia.
Qed.

(** X1.  For a duration that is not negative and is a safe integer (up to
  [MAX_SAFE_INTEGER], where the arithmetic of doubles loses nothing),
  [printTime] prints the hours, the minutes below 60, the seconds below
  60 and the milliseconds below 1000 of the duration, each with its unit,
  leaving out every part that is zero. *)
Theorem printTime_parts (ms : Z) (Hms : 0 <= ms)
    (Hsafe : ms <= MAX_SAFE_INTEGER) :
  printTime ms
  = timePart (ms / 3600000) "h" +:+ timePart (ms / 60000 mod 60) "m"
      +:+ timePart (ms / 1000 mod 60) "s" +:+ timePart (ms mod 1000) "ms".
Proof.
  assert (H1 : ms / 60000 = ms / 1000 / 60)
    by (rewrite Z.div_div by lia; reflexivity).
  assert (H2 : ms / 3600000 = ms / 1000 / 60 / 60)
    by (rewrite !Z.div_div by lia; reflexivity).
  rewrite H1, H2. unfold printTime. rewrite Z.geb_leb.
  assert (Hs : 0 <= ms / 1000 <= MAX_SAFE_INTEGER)
    by (unfold MAX_SAFE_INTEGER in *; Z.div_mod_to_equations; lia).
  assert (Hm : 0 <= ms / 1000 / 60 <= MAX_SAFE_INTEGER)
    by (unfold MAX_SAFE_INTEGER in *; Z.div_mod_to_equations; lia).
  destruct (Z.leb_spec 1000 ms) as [Hge | Hlt]; cbv beta iota zeta.
  - destruct (floorDiv_mod_safe ms 1000) as [-> ->]; try lia.
    rewrite Z.geb_leb.
    destruct (Z.leb_spec 60 (ms / 1000)) as [Hge' | Hlt']; cbv beta iota zeta.
    + destruct (floorDiv_mod_safe (ms / 1000) 60) as [-> ->]; try lia.
      rewrite Z.geb_leb.
      destruct (Z.leb_spec 60 (ms / 1000 / 60)) as [Hge'' | Hlt''];
        cbv beta iota zeta.
      * destruct (floorDiv_mod_safe (ms / 1000 / 60) 60) as [-> ->]; try lia.
        reflexivity.
      * repeat f_equal; Z.div_mod_to_equations; lia.
    + cbn [Z.geb Z.compare]. repeat f_equal; Z.div_mod_to_equations; lia.
  - cbn [Z.geb Z.compare]. repeat f_equal; Z.div_mod_to_equations; lia.
Qed.

Lemma printTime_parts_witness :
  0 <= 3723004 /\ 3723004 <= MAX_SAFE_INTEGER
  /\ printTime 3723004 = "1h2m3s4ms".
Proof.
  assert (H : 0 <= 3723004) by lia.
  assert (Hsafe : 3723004 <= MAX_SAFE_INTEGER) by (unfold MAX_SAFE_INTEGER; lia).
  split; [exact H |]. split; [exact Hsafe |].
  rewrite (printTime_parts 3723004 H Hsafe). vm_compute. reflexivity.
Defined.

(** A part that is not zero is printed. *)
Lemma timePart_nonempty (n : Z) (c : Ascii.ascii) (unit rest : string) :
  n <> 0 -> timePart n (String c unit) +:+ rest <> EmptyString.
Proof.
  intros Hn H. apply append_empty in H as [H _].
  now apply timePart_empty in H.
Qed.

(** X2.  [printTime] prints nothing for a duration of zero, and only for
  it: every other duration, a negative one included, gives a text that
  is not empty. *)
Theorem printTime_empty_iff_zero (ms : Z) :
  printTime ms = EmptyString <-> ms = 0.
Proof.
  split; [| intros ->; reflexivity].
  unfold printTime. rewrite Z.geb_leb.
  destruct (Z.leb_spec 1000 ms) as [Hge | Hlt]; cbv beta iota zeta.
  - assert (Hs : 1 <= floorDiv ms 1000) by (apply floorDiv_pos; lia).
    rewrite Z.geb_leb.
    destruct (Z.leb_spec 60 (floorDiv ms 1000)) as [Hge' | Hlt'];
      cbv beta iota zeta.
    + assert (Hm : 1 <= floorDiv (floorDiv ms 1000) 60)
        by (apply floorDiv_pos; lia).
      rewrite Z.geb_leb.
      destruct (Z.leb_spec 60 (floorDiv (floorDiv ms 1000) 60))
        as [Hge'' | Hlt'']; cbv beta iota zeta.
      * assert (Hh : 1 <= floorDiv (floorDiv (floorDiv ms 1000) 60) 60)
          by (apply floorDiv_pos; lia).
        intros H. exfalso. revert H. apply timePart_nonempty. lia.
      * intros H. exfalso. apply append_empty in H as [_ H].
        revert H. apply timePart_nonempty. lia.
    + cbn [Z.geb Z.compare]. intros H. exfalso.
      apply append_empty in H as [_ H]. apply append_empty in H as [_ H].
      revert H. apply timePart_nonempty. lia.
  - cbn [Z.geb Z.compare]. intros H.
    apply append_empty in H as [_ H]. apply append_empty in H as [_ H].
    apply append_empty in H as [_ H]. now apply timePart_empty in H.
Qed.

End PrintTimeProperties.

(** * Further properties of [PersistentTerminalProcess] *)

Section ProcessLifecycle.
Import Async PersistentTerminalProcess.

Ltac unfold_step :=
  cbv [step attach detach start_begin start_resume shutdown input resize
       acknowledgeDataEvent triggerReplay sendCommandResult
       orphanQuestionReply reduceGraceTime isOrphaned_begin dispose
       onProcessReady onProcessTitleChanged onProcessData
       disconnectRunner1_fires disconnectRunner2_fires barrier_autoOpens].

Ltac split_conditions :=
  cbn;
  try match goal with
      | r : option ITerminalLaunchError |- _ => destruct r; cbn
      end;
  repeat match goal with
         | |- context [if ?b then _ else _] => destruct b eqn:?; cbn
         | |- context [@lookup _ _ _ _ ?k ?m] =>
             destruct (@lookup _ _ _ _ k m); cbn
         | |- context [match _orphanQuestionBarrier ?p with _ => _ end] =>
             destruct (_orphanQuestionBarrier p) eqn:?; cbn
         end.

(** Nothing is ever added to [_pendingCommands]. *)
Lemma step_pendingCommands (op : Op) (p : t) :
  _pendingCommands p = ∅ -> _pendingCommands (fst (step op p)) = ∅.
Proof.
  intros Hp. destruct op; unfold_step; rewrite ?Hp, ?lookup_empty;
    split_conditions; exact Hp.
Qed.

(** X3.  In every reachable state the table of pending commands is empty,
  so [sendCommandResult] finds no command to complete: it changes
  nothing and calls nothing, whatever request id it is given. *)
Theorem sendCommandResult_finds_nothing (p : t) (Hreach : reachable p) :
  _pendingCommands p = ∅
  /\ forall reqId isError, sendCommandResult reqId isError p = (p, []).
Proof.
  assert (Hp : _pendingCommands p = ∅).
  { induction Hreach as [| op p _ IH]; [reflexivity |].
    now apply step_pendingCommands. }
  split; [exact Hp |]. intros reqId isError.
  unfold sendCommandResult. now rewrite Hp, lookup_empty.
Qed.

Lemma sendCommandResult_finds_nothing_witness :
  let p := fst (step (OpSendCommandResult 3 false)
                  (fst (step (OpInput "ls") (new 1 "ws" "name" true 80 24)))) in
  reachable p /\ sendCommandResult 3 true p = (p, []).
Proof.
  intros p.
  assert (Hreach : reachable p) by (do 2 apply reachable_step; apply reachable_new).
  split; [exact Hreach |].
  apply (sendCommandResult_finds_nothing p Hreach).
Defined.

(** X4.  [attach()] cancels the long grace timer only.  When a persistent
  process is detached, its grace time is reduced and a client attaches
  again, the short grace timer is still scheduled: the process is
  reported orphaned at once, and when the timer fires the child is shut
  down although a client is attached. *)
Theorem attach_leaves_short_timer_armed (p : t)
    (Hpersist : shouldPersistTerminal p = true) :
  let q := run [OpDetach; OpReduceGraceTime; OpAttach] p in
  isScheduled (_disconnectRunner1 q) = false
  /\ isScheduled (_disconnectRunner2 q) = true
  /\ isOrphaned_begin q = (q, [], Return true)
  /\ snd (disconnectRunner2_fires q)
     = [LogShortGraceTimeExpired (_persistentTerminalId p) (_pid p);
        TerminalShutdown true].
Proof.
  unfold run, step, detach, reduceGraceTime, attach, isOrphaned_begin,
    disconnectRunner2_fires, shutdown.
  rewrite Hpersist. cbn.
  destruct (isScheduled (_disconnectRunner2 p)) eqn:H2; cbn;
    rewrite ?H2; cbn; repeat split.
Qed.

Lemma attach_leaves_short_timer_armed_witness :
  let p := new 1 "ws" "name" true 80 24 in
  shouldPersistTerminal p = true
  /\ isScheduled
       (_disconnectRunner2 (run [OpDetach; OpReduceGraceTime; OpAttach] p))
     = true.
Proof.
  intros p. split; [reflexivity |].
  apply (attach_leaves_short_timer_armed p eq_refl).
Defined.

(** Only the successful end of a launch sets [_isStarted]. *)
Lemma step_isStarted_false (op : Op) (p : t) :
  launchSucceeds op = false ->
  _isStarted p = false -> _isStarted (fst (step op p)) = false.
Proof.
  intros Hop Hs.
  destruct op; try discriminate Hop; unfold_step; rewrite ?Hs;
    split_conditions; try exact Hs; try discriminate Hop.
Qed.

(** X5.  A process counts as started only once a launch of the child has
  resolved without an error.  Until then, whatever else happens (failed
  launches and launches still pending included), every call of
  [start()] launches the child again and returns what that launch
  resolves to. *)
Theorem start_launches_until_success (p : t) (ops : list Op)
    (Hnot : _isStarted p = false)
    (Hops : forallb (fun op => negb (launchSucceeds op)) ops = true) :
  let q := run ops p in
  _isStarted q = false
  /\ start_begin q = (q, [TerminalStart], Await)
  /\ forall result,
       snd (start result q) = result
       /\ snd (fst (start result q)) = [TerminalStart].
Proof.
  intros q. subst q.
  assert (Hq : _isStarted (run ops p) = false).
  { revert p Hnot. induction ops as [| op ops IH]; intros p Hnot; [exact Hnot |].
    cbn in Hops. apply andb_prop in Hops as [Hop Hops].
    cbn [run]. apply IH; [exact Hops |].
    apply step_isStarted_false; [now destruct (launchSucceeds op) | exact Hnot]. }
  assert (Hb : start_begin (run ops p) = (run ops p, [TerminalStart], Await))
    by (unfold start_begin; now rewrite Hq).
  split; [exact Hq |]. split; [exact Hb |].
  intros result. unfold start. rewrite Hb. now destruct result.
Qed.

Lemma start_launches_until_success_witness :
  let p := new 1 "ws" "name" true 80 24 in
  let err := {| launchMessage := "no shell"; launchCode := None |} in
  let ops := [OpStartBegin; OpStartBegin; OpStartResume (Some err); OpDetach] in
  _isStarted p = false
  /\ forallb (fun op => negb (launchSucceeds op)) ops = true
  /\ start_begin (run ops p) = (run ops p, [TerminalStart], Await).
Proof.
  intros p err ops. split; [reflexivity |]. split; [reflexivity |].
  apply (start_launches_until_success p ops eq_refl eq_refl).
Defined.

(** Only the ready event of the child writes [_pid] and [_cwd]. *)
Lemma step_pid_cwd (op : Op) (p : t) :
  isReadyEvent op = false ->
  _pid (fst (step op p)) = _pid p /\ _cwd (fst (step op p)) = _cwd p.
Proof.
  intros Hop.
  destruct op; try discriminate Hop; unfold_step; split_conditions;
    split; reflexivity.
Qed.

Lemma run_pid_cwd (ops : list Op) (p : t) :
  forallb (fun op => negb (isReadyEvent op)) ops = true ->
  _pid (run ops p) = _pid p /\ _cwd (run ops p) = _cwd p.
Proof.
  revert p. induction ops as [| op ops IH]; intros p Hops; [auto |].
  cbn in Hops. apply andb_prop in Hops as [Hop Hops].
  cbn [run]. destruct (IH (fst (step op p)) Hops) as [-> ->].
  apply step_pid_cwd. now destruct (isReadyEvent op).
Qed.

(** X6.  The ready event that [start()] fires again for a client that
  attaches to a started process carries the pid and the working
  directory of the last ready event of the child; as long as the child
  has not reported ready, the pid of the process is -1 and its working
  directory is empty. *)
Theorem ready_event_is_remembered (p : t) (ops : list Op) (pid : Z)
    (cwd : string)
    (Hops : forallb (fun op => negb (isReadyEvent op)) ops = true) :
  (let q := run ops (fst (step (EvProcessReady pid cwd) p)) in
   _pid q = pid /\ _cwd q = cwd
   /\ (_isStarted q = true ->
       exists rest,
         snd (fst (start_begin q)) = FireProcessReady pid cwd :: rest))
  /\ (forall id wsId wsName shouldPersist cols rows,
        let q := run ops (new id wsId wsName shouldPersist cols rows) in
        _pid q = -1 /\ _cwd q = EmptyString).
Proof.
  split.
  - intros q. subst q.
    destruct (run_pid_cwd ops (fst (step (EvProcessReady pid cwd) p)) Hops)
      as [Hpid Hcwd].
    cbn in Hpid, Hcwd. repeat split; try assumption.
    intros Hs. unfold start_begin. rewrite Hs. cbn.
    rewrite Hpid, Hcwd. eauto.
  - intros id wsId wsName shouldPersist cols rows q. subst q.
    now destruct (run_pid_cwd ops (new id wsId wsName shouldPersist cols rows)
                    Hops) as [-> ->].
Qed.

Lemma ready_event_is_remembered_witness :
  let ops := [OpStartBegin; OpStartResume None; OpDetach; OpAttach] in
  let q := run ops (fst (step (EvProcessReady 4242 "/home")
                           (new 1 "ws" "name" true 80 24))) in
  forallb (fun op => negb (isReadyEvent op)) ops = true
  /\ _pid q = 4242 /\ _cwd q = "/home".
Proof.
  intros ops q. split; [reflexivity |].
  destruct (ready_event_is_remembered (new 1 "ws" "name" true 80 24) ops
              4242 "/home" eq_refl) as [(Hpid & Hcwd & _) _].
  split; [exact Hpid | exact Hcwd].
Defined.

(** X7.  A barrier that was opened by its timeout stays in the field: only
  a reply clears the field.  So when an orphan check on an idle process
  has ended by timeout, the next check builds no new barrier and does
  not wait: the barrier it awaits is open already, and it reports the
  process orphaned. *)
Theorem check_after_timeout_does_not_wait (p : t) (now : Z)
    (Hidle : isScheduled (_disconnectRunner1 p)
             || isScheduled (_disconnectRunner2 p) = false)
    (Hfresh : _orphanQuestionBarrier p = None) (Hnow : 500 < now) :
  let p1 := fst (fst (isOrphaned_begin p)) in
  let p2 := fst (barrier_autoOpens p1) in
  barrierWaitDone p1 = false
  /\ barrierWaitDone p2 = true
  /\ isOrphaned_resume now p2 = true
  /\ isOrphaned_begin p2 = (p2, [], Await)
  /\ _orphanQuestionBarrier p2 = Some (open (newAutoOpenBarrier 4000)).
Proof.
  unfold isOrphaned_begin at 1 2. rewrite Hidle, Hfresh. cbn [fst].
  unfold barrier_autoOpens. cbn.
  unfold isOrphaned_begin, isOrphaned_resume. cbn. rewrite Hidle.
  repeat split. apply Z.gtb_lt. lia.
Qed.

Lemma check_after_timeout_does_not_wait_witness :
  let p := new 1 "ws" "name" true 80 24 in
  isScheduled (_disconnectRunner1 p) || isScheduled (_disconnectRunner2 p)
  = false
  /\ _orphanQuestionBarrier p = None
  /\ 500 < 1700000000000
  /\ barrierWaitDone
       (fst (barrier_autoOpens (fst (fst (isOrphaned_begin p))))) = true.
Proof.
  intros p.
  assert (Hnow : 500 < 1700000000000) by lia.
  split; [reflexivity |]. split; [reflexivity |]. split; [exact Hnow |].
  apply (check_after_timeout_does_not_wait p 1700000000000
           eq_refl eq_refl Hnow).
Defined.

(** No operation changes the id a process was built with. *)
Lemma step_persistentTerminalId (op : Op) (p : t) :
  _persistentTerminalId (fst (step op p)) = _persistentTerminalId p.
Proof.
  destruct op; unfold_step; split_conditions; reflexivity.
Qed.

(** A complete call of [start()] is made of operations of the process. *)
Lemma start_steps (result : option ITerminalLaunchError) (p : t) :
  fst (fst (start result p)) = fst (step (OpStartResume result) p)
  \/ fst (fst (start result p)) = p.
Proof.
  unfold start, start_begin. destruct (_isStarted p); cbn; [now right |].
  left. now destruct result.
Qed.

End ProcessLifecycle.

(** * Further properties of the process registry *)

Section RegistryLifecycle.
Import PtyService.

(** The registry is a record of its fields. *)
Lemma registry_eta (s : t) :
  {| _lastPtyId := _lastPtyId s; _ptys := _ptys s;
     _workspaceLayoutInfos := _workspaceLayoutInfos s;
     _isDisposed := _isDisposed s |} = s.
Proof. now destruct s. Qed.

Lemma set_ptys_id (s : t) (i : Z) (pty : PersistentTerminalProcess.t) :
  _ptys s !! i = Some pty -> set_ptys (<[i := pty]> (_ptys s)) s = s.
Proof.
  intros H. unfold set_ptys. rewrite (insert_id _ _ _ H). apply registry_eta.
Qed.

(** Replacing a registered process by a later state of itself keeps the
  invariant of the registry. *)
Lemma registryInv_update (s : t) (i : Z) (pty pty' : PersistentTerminalProcess.t) :
  registryInv s -> _ptys s !! i = Some pty ->
  PersistentTerminalProcess._persistentTerminalId pty'
  = PersistentTerminalProcess._persistentTerminalId pty ->
  PersistentTerminalProcess.reachable pty' ->
  registryInv (set_ptys (<[i := pty']> (_ptys s)) s).
Proof.
  intros Hinv Hreg Hid Hreach j q. cbn.
  destruct (decide (i = j)) as [<- | Hne].
  - rewrite lookup_insert_eq. intros [= <-].
    destruct (Hinv i pty Hreg) as (Hle & Hi & _). repeat split; congruence.
  - rewrite lookup_insert_ne by exact Hne. apply Hinv.
Qed.

Lemma registryInv_onPty (s : t) (i : Z) (pty : PersistentTerminalProcess.t)
    (op : PersistentTerminalProcess.Op) :
  registryInv s -> _ptys s !! i = Some pty ->
  registryInv
    (set_ptys (<[i := fst (PersistentTerminalProcess.step op pty)]> (_ptys s)) s).
Proof.
  intros Hinv Hreg. apply (registryInv_update s i pty); auto.
  - apply step_persistentTerminalId.
  - apply PersistentTerminalProcess.reachable_step. now apply (Hinv i pty).
Qed.

(** The state a method of a registered process leaves the registry in. *)
Lemma onPty_fst (i : Z)
    (f : PersistentTerminalProcess.t ->
         PersistentTerminalProcess.t * list PersistentTerminalProcess.Effect)
    (pty : PersistentTerminalProcess.t) (s : t) :
  onPty i f pty s
  = (set_ptys (<[i := fst (f pty)]> (_ptys s)) s,
     map (ProcessEffect i) (snd (f pty))).
Proof. unfold onPty. now destruct (f pty). Qed.

(** Only [createProcess] writes the counter, and what it writes is a
  number. *)
Lemma step_counterInv (op : Op) (s : t) :
  counterInv s -> counterInv (step op s).
Proof.
  unfold counterInv. intros Hc.
  destruct op; cbn [step];
    unfold attachToProcess, detachFromProcess, start, shutdown, input, resize,
      acknowledgeDataEvent, _throwIfNoPty, createProcess, shutdownAll, dispose;
    try (destruct (_ptys s !! i)); rewrite ?onPty_fst;
    try (destruct (attachPersistentTerminal shellLaunchConfig));
    try (destruct (PersistentTerminalProcess.start result t0) as [[? ?] ?]);
    try (destruct (_isDisposed s));
    cbn; try exact Hc; apply toDouble_isDouble.
Qed.

(** The counter of ids never decreases. *)
Lemma step_lastPtyId (op : Op) (s : t) :
  counterInv s -> _lastPtyId s <= _lastPtyId (step op s).
Proof.
  unfold counterInv. intros Hc. pose proof (toDouble_succ_ge _ Hc).
  destruct op; cbn [step];
    unfold attachToProcess, detachFromProcess, start, shutdown, input, resize,
      acknowledgeDataEvent, _throwIfNoPty, createProcess, shutdownAll, dispose;
    try (destruct (_ptys s !! i)); rewrite ?onPty_fst;
    try (destruct (attachPersistentTerminal shellLaunchConfig));
    try (destruct (PersistentTerminalProcess.start result t0) as [[? ?] ?]);
    try (destruct (_isDisposed s));
    cbn; lia.
Qed.

Lemma step_registryInv (op : Op) (s : t) :
  counterInv s -> registryInv s -> registryInv (step op s).
Proof.
  intros Hc Hinv.
  destruct op; cbn [step];
    unfold attachToProcess, detachFromProcess, start, shutdown, input, resize,
      acknowledgeDataEvent, _throwIfNoPty;
    try (destruct (_ptys s !! i) as [pty |] eqn:Hreg; cbn; [| exact Hinv]);
    rewrite ?onPty_fst; cbn [fst snd].
  - (* createProcess *)
    unfold createProcess.
    destruct (attachPersistentTerminal shellLaunchConfig); [exact Hinv |].
    intros j q. cbn.
    pose proof (toDouble_succ_ge _ Hc) as Hge.
    destruct (decide (toDouble (_lastPtyId s + 1) = j)) as [<- | Hne].
    + rewrite lookup_insert_eq. intros [= <-]. repeat split; [lia |].
      apply PersistentTerminalProcess.reachable_new.
    + rewrite lookup_insert_ne by exact Hne. intros Hq.
      destruct (Hinv j q Hq) as (Hle & Hid & Hreach). repeat split; auto. lia.
  - (* exit *)
    intros j q. unfold onProcessExit. cbn. intros Hq.
    apply lookup_delete_Some in Hq as [_ Hq]. now apply Hinv.
  - exact (registryInv_onPty s i pty PersistentTerminalProcess.OpAttach Hinv Hreg).
  - exact (registryInv_onPty s i pty PersistentTerminalProcess.OpDetach Hinv Hreg).
  - destruct (PersistentTerminalProcess.start result pty) as [[p' effs] r] eqn:Hs.
    cbn. pose proof (start_steps result pty) as Hsteps. rewrite Hs in Hsteps.
    cbn in Hsteps. destruct Hsteps as [-> | ->].
    + exact (registryInv_onPty s i pty
               (PersistentTerminalProcess.OpStartResume result) Hinv Hreg).
    + now rewrite set_ptys_id.
  - exact (registryInv_onPty s i pty
             (PersistentTerminalProcess.OpShutdown immediate) Hinv Hreg).
  - exact (registryInv_onPty s i pty
             (PersistentTerminalProcess.OpInput data) Hinv Hreg).
  - exact (registryInv_onPty s i pty
             (PersistentTerminalProcess.OpResize cols rows) Hinv Hreg).
  - exact (registryInv_onPty s i pty
             (PersistentTerminalProcess.OpAcknowledgeDataEvent charCount)
             Hinv Hreg).
  - exact Hinv.
  - unfold shutdownAll, dispose. destruct (_isDisposed s); [exact Hinv |].
    intros j q. cbn. now rewrite lookup_empty.
  - exact (registryInv_onPty s i pty op Hinv Hreg).
Qed.

Lemma reachable_counterInv (s : t) : reachable s -> counterInv s.
Proof.
  induction 1 as [n Hn | op s _ IH]; [exact Hn |].
  now apply step_counterInv.
Qed.

Lemma reachable_registryInv (s : t) : reachable s -> registryInv s.
Proof.
  induction 1 as [n Hn | op s Hs IH].
  - intros j q. cbn. now rewrite lookup_empty.
  - apply step_registryInv; [now apply reachable_counterInv | exact IH].
Qed.

(** Unfolds a method of the registry on a given id. *)
Ltac unfold_registry :=
  unfold attachToProcess, detachFromProcess, start, shutdown, input, resize,
    acknowledgeDataEvent, _throwIfNoPty.

(** X8.  In a reachable registry whose counter of ids is a safe integer
  (of magnitude up to [MAX_SAFE_INTEGER], where the increment of a double
  is exact), [createProcess] hands out the counter plus one, an id that
  is not registered and is larger than every registered id: it registers
  a new, not yet started process under it and leaves every registered
  process as it is. *)
Theorem createProcess_id_is_fresh (s : t) (shellLaunchConfig : IShellLaunchConfig)
    (cols rows : Z) (shouldPersist : bool) (wsId wsName : string)
    (Hreach : reachable s)
    (Hcreate : attachPersistentTerminal shellLaunchConfig = false)
    (Hsafe : Z.abs (_lastPtyId s) <= MAX_SAFE_INTEGER) :
  let i := _lastPtyId s + 1 in
  let out := createProcess shellLaunchConfig cols rows shouldPersist wsId wsName s in
  snd out = Ok i
  /\ _ptys s !! i = None
  /\ (forall j pty, _ptys s !! j = Some pty ->
        j < i /\ _ptys (fst out) !! j = Some pty)
  /\ _ptys (fst out) !! i
     = Some (PersistentTerminalProcess.new i wsId wsName shouldPersist cols rows).
Proof.
  intros i out. subst out i. unfold createProcess. rewrite Hcreate.
  rewrite toDouble_safe by (unfold MAX_SAFE_INTEGER in Hsafe; lia). cbn.
  pose proof (reachable_registryInv s Hreach) as Hinv.
  assert (Hbelow : forall j pty, _ptys s !! j = Some pty -> j < _lastPtyId s + 1).
  { intros j pty Hj. destruct (Hinv j pty Hj) as [Hle _]. lia. }
  split; [reflexivity |]. split.
  - destruct (_ptys s !! (_lastPtyId s + 1)) as [pty |] eqn:E; [| reflexivity].
    apply Hbelow in E. lia.
  - split; [| apply lookup_insert_eq].
    intros j pty Hj. pose proof (Hbelow j pty Hj) as Hlt.
    split; [exact Hlt |]. rewrite lookup_insert_ne by lia. exact Hj.
Qed.

Lemma createProcess_id_is_fresh_witness :
  let s := step (OpProcessExit 1)
             (step (OpCreateProcess {| attachPersistentTerminal := false |}
                      80 24 true "ws" "name") (new 0)) in
  reachable s
  /\ attachPersistentTerminal {| attachPersistentTerminal := false |} = false
  /\ Z.abs (_lastPtyId s) <= MAX_SAFE_INTEGER
  /\ snd (createProcess {| attachPersistentTerminal := false |}
            80 24 false "ws" "name" s) = Ok 2.
Proof.
  intros s.
  assert (Hreach : reachable s)
    by (do 2 apply reachable_step; apply reachable_new; reflexivity).
  assert (Hsafe : Z.abs (_lastPtyId s) <= MAX_SAFE_INTEGER)
    by (vm_compute; discriminate).
  split; [exact Hreach |]. split; [reflexivity |]. split; [exact Hsafe |].
  apply (createProcess_id_is_fresh s {| attachPersistentTerminal := false |}
           80 24 false "ws" "name" Hreach eq_refl Hsafe).
Defined.

Lemma run_counterInv (ops : list Op) (s : t) :
  counterInv s -> counterInv (run ops s).
Proof.
  revert s. induction ops as [| op ops IH]; intros s Hc; cbn; [exact Hc |].
  apply IH. now apply step_counterInv.
Qed.

Lemma run_lastPtyId (ops : list Op) (s : t) :
  counterInv s -> _lastPtyId s <= _lastPtyId (run ops s).
Proof.
  revert s. induction ops as [| op ops IH]; intros s Hc; cbn; [lia |].
  pose proof (step_lastPtyId op s Hc).
  pose proof (IH (step op s) (step_counterInv op s Hc)). lia.
Qed.

(** X9.  Ids are not reused as long as the counter is a safe integer:
  whatever happens to the registry between two calls of [createProcess]
  (exits of processes and [shutdownAll] included), if the counter is of
  magnitude up to [MAX_SAFE_INTEGER] when the later call is made, that
  call returns a larger id than the earlier one. *)
Theorem ids_are_never_reused (s : t) (ops : list Op)
    (config1 config2 : IShellLaunchConfig) (cols1 rows1 cols2 rows2 : Z)
    (persist1 persist2 : bool) (wsId1 wsName1 wsId2 wsName2 : string)
    (Hcreate1 : attachPersistentTerminal config1 = false)
    (Hcreate2 : attachPersistentTerminal config2 = false)
    (Hsafe :
       Z.abs (_lastPtyId
                (run ops
                   (fst (createProcess config1 cols1 rows1 persist1
                           wsId1 wsName1 s))))
       <= MAX_SAFE_INTEGER) :
  let first := createProcess config1 cols1 rows1 persist1 wsId1 wsName1 s in
  let later :=
    createProcess config2 cols2 rows2 persist2 wsId2 wsName2
      (run ops (fst first)) in
  exists i j, snd first = Ok i /\ snd later = Ok j /\ i < j.
Proof.
  intros first later. subst later first. revert Hsafe. unfold createProcess.
  rewrite Hcreate1, Hcreate2. cbn [fst snd]. intros Hsafe.
  eexists. eexists. split; [reflexivity |]. split; [reflexivity |].
  match goal with
  | |- _ < toDouble (_lastPtyId (run ops ?s1) + 1) =>
      rewrite (toDouble_safe (_lastPtyId (run ops s1) + 1))
        by (unfold MAX_SAFE_INTEGER in Hsafe; lia);
      assert (Hc : counterInv s1) by apply toDouble_isDouble;
      pose proof (run_lastPtyId ops s1 Hc) as Hmono; cbn in Hmono
  end.
  lia.
Qed.

Lemma ids_are_never_reused_witness :
  let config := {| attachPersistentTerminal := false |} in
  let s1 := fst (createProcess config 80 24 true "ws" "name" (new 0)) in
  attachPersistentTerminal config = false
  /\ Z.abs (_lastPtyId (run [OpProcessExit 1; OpShutdownAll] s1))
     <= MAX_SAFE_INTEGER
  /\ snd (createProcess config 80 24 true "ws" "name" (new 0)) = Ok 1
  /\ snd (createProcess config 80 24 true "ws" "name"
            (run [OpProcessExit 1; OpShutdownAll] s1))
     = Ok 2.
Proof.
  intros config s1.
  assert (Hsafe : Z.abs (_lastPtyId (run [OpProcessExit 1; OpShutdownAll] s1))
                  <= MAX_SAFE_INTEGER)
    by (vm_compute; discriminate).
  split; [reflexivity |]. split; [exact Hsafe |].
  destruct (ids_are_never_reused (new 0) [OpProcessExit 1; OpShutdownAll]
              config config 80 24 80 24 true true "ws" "name" "ws" "name"
              eq_refl eq_refl Hsafe) as (i & j & Hi & Hj & _).
  split; reflexivity.
Defined.

(** X10.  A process that was created can be used under the id that was
  returned, the counter incremented as a double, from the moment of its
  creation until its child exits: input
  for that id reaches its child and leaves the registry as it is, and
  once the exit listener has run the id is unknown again. *)
Theorem create_use_exit (s : t) (shellLaunchConfig : IShellLaunchConfig)
    (cols rows : Z) (shouldPersist : bool) (wsId wsName : string)
    (data : string)
    (Hcreate : attachPersistentTerminal shellLaunchConfig = false) :
  let i := toDouble (_lastPtyId s + 1) in
  let s' := fst (createProcess shellLaunchConfig cols rows shouldPersist
                   wsId wsName s) in
  snd (createProcess shellLaunchConfig cols rows shouldPersist wsId wsName s)
  = Ok i
  /\ _throwIfNoPty i s'
  = Ok (PersistentTerminalProcess.new i wsId wsName shouldPersist cols rows)
  /\ input i data s'
     = (s', [ProcessEffect i (PersistentTerminalProcess.TerminalInput data)],
        Ok ())
  /\ _throwIfNoPty i (onProcessExit i s') = Throw (UnknownProcess i)
  /\ input i data (onProcessExit i s')
     = (onProcessExit i s', [], Throw (UnknownProcess i)).
Proof.
  intros i s'. subst s' i. unfold createProcess. rewrite Hcreate.
  cbn [fst snd]. split; [reflexivity |].
  set (i := toDouble (_lastPtyId s + 1)).
  set (s' := {| _lastPtyId := i; _ptys := _; _workspaceLayoutInfos := _;
                _isDisposed := _ |}).
  assert (Hreg : _ptys s' !! i
                 = Some (PersistentTerminalProcess.new i wsId wsName
                           shouldPersist cols rows))
    by apply lookup_insert_eq.
  assert (Hgone : _ptys (onProcessExit i s') !! i = None)
    by apply lookup_delete_eq.
  unfold input, _throwIfNoPty. rewrite Hreg, Hgone, onPty_fst.
  repeat split. cbn [fst snd PersistentTerminalProcess.input
                     PersistentTerminalProcess.new
                     PersistentTerminalProcess._inReplay].
  cbn [map]. now rewrite (set_ptys_id s' i _ Hreg).
Qed.

Lemma create_use_exit_witness :
  let config := {| attachPersistentTerminal := false |} in
  let s' := fst (createProcess config 80 24 true "ws" "name" (new 0)) in
  attachPersistentTerminal config = false
  /\ input 1 "ls" s'
     = (s', [ProcessEffect 1 (PersistentTerminalProcess.TerminalInput "ls")],
        Ok ())
  /\ input 1 "ls" (onProcessExit 1 s')
     = (onProcessExit 1 s', [], Throw (UnknownProcess 1)).
Proof.
  intros config s'. split; [reflexivity |].
  destruct (create_use_exit (new 0) config 80 24 true "ws" "name" "ls" eq_refl)
    as (_ & _ & Hin & _ & Hout).
  split; [exact Hin | exact Hout].
Defined.

(** X11.  A method of the registry that works on one id changes nothing
  but the process registered under that id: the other processes, the set
  of registered ids, the counter of ids and the stored layouts are as
  before. *)
Theorem per_process_methods_are_local (s : t) (op : Op) (i : Z)
    (Hop : perProcess i op = true) :
  (forall j, j <> i -> _ptys (step op s) !! j = _ptys s !! j)
  /\ dom (_ptys (step op s)) = dom (_ptys s)
  /\ _lastPtyId (step op s) = _lastPtyId s
  /\ _workspaceLayoutInfos (step op s) = _workspaceLayoutInfos s.
Proof.
  assert (Hupd : forall pty pty',
            _ptys s !! i = Some pty ->
            (forall j, j <> i ->
               _ptys (set_ptys (<[i := pty']> (_ptys s)) s) !! j = _ptys s !! j)
            /\ dom (_ptys (set_ptys (<[i := pty']> (_ptys s)) s)) = dom (_ptys s)).
  { intros pty pty' Hreg. cbn. split.
    - intros j Hne. now rewrite lookup_insert_ne.
    - apply dom_insert_lookup_L. eauto. }
  destruct op; try discriminate Hop; cbn in Hop;
    apply bool_decide_eq_true in Hop; subst i0;
    cbn [step]; unfold_registry;
    (destruct (_ptys s !! i) as [pty |] eqn:Hreg; [| now cbn]);
    rewrite ?onPty_fst;
    try (destruct (PersistentTerminalProcess.start result pty) as [[? ?] ?]);
    cbn [fst snd];
    (split; [apply (Hupd pty _ eq_refl) |]);
    (split; [apply (Hupd pty _ eq_refl) |]); now cbn.
Qed.

Lemma per_process_methods_are_local_witness :
  let s := exampleRegistry in
  perProcess 1 (OpDetachFromProcess 1) = true
  /\ dom (_ptys (step (OpDetachFromProcess 1) s)) = dom (_ptys s).
Proof.
  intros s. split; [reflexivity |].
  apply (per_process_methods_are_local s (OpDetachFromProcess 1) 1 eq_refl).
Defined.

(** X12.  Detaching from a process that is not persistent shuts its
  child down at once but does not take the process out of the registry:
  until the exit listener runs the id stays known, and attaching to it
  again is traced as a reconnection and not as a failure. *)
Theorem detached_ephemeral_process_stays_registered (s : t) (i : Z)
    (pty : PersistentTerminalProcess.t)
    (Hreg : _ptys s !! i = Some pty)
    (Hephemeral : PersistentTerminalProcess.shouldPersistTerminal pty = false) :
  let s' := fst (fst (detachFromProcess i s)) in
  detachFromProcess i s
  = (s, [ProcessEffect i (PersistentTerminalProcess.TerminalShutdown true)],
     Ok ())
  /\ _ptys s' !! i = Some pty
  /\ snd (fst (attachToProcess i s')) = [LogTraceReconnection i].
Proof.
  assert (Hdetach : detachFromProcess i s
            = (s, [ProcessEffect i
                     (PersistentTerminalProcess.TerminalShutdown true)],
               Ok ())).
  { unfold detachFromProcess, _throwIfNoPty. rewrite Hreg, onPty_fst.
    unfold PersistentTerminalProcess.detach. rewrite Hephemeral. cbn.
    now rewrite (set_ptys_id s i pty Hreg). }
  intros s'. subst s'. rewrite Hdetach. cbn [fst].
  split; [reflexivity |]. split; [exact Hreg |].
  unfold attachToProcess, _throwIfNoPty. rewrite Hreg, onPty_fst. reflexivity.
Qed.

Lemma detached_ephemeral_process_stays_registered_witness :
  let s := fst (createProcess {| attachPersistentTerminal := false |}
                  80 24 false "ws" "name" (new 0)) in
  let pty := PersistentTerminalProcess.new 1 "ws" "name" false 80 24 in
  _ptys s !! 1 = Some pty
  /\ PersistentTerminalProcess.shouldPersistTerminal pty = false
  /\ snd (fst (attachToProcess 1 (fst (fst (detachFromProcess 1 s)))))
     = [LogTraceReconnection 1].
Proof.
  intros s pty. split; [reflexivity |]. split; [reflexivity |].
  apply (detached_ephemeral_process_stays_registered s 1 pty eq_refl eq_refl).
Defined.

(** X13.  [setTerminalLayoutInfo] replaces the layout of its workspace as
  a whole and touches no other workspace and no process:
  [getTerminalLayoutInfo] for that workspace expands what was stored
  last, for another workspace it answers as before, and for a workspace
  no layout was ever stored for it answers [undefined]. *)
Theorem layout_set_then_get (env : Awaited) (s : t)
    (args : ISetTerminalLayoutInfoArgs) (wsId : string) (lastPtyId : Z) :
  getTerminalLayoutInfo env wsId (setTerminalLayoutInfo args s)
  = (if decide (wsId = argsWorkspaceId args)
     then Some {| tabs :=
                    List.filter
                      (fun tab => (0 <? length (terminals tab))%nat)
                      (map (_expandTerminalTab env s) (argsTabs args)) |}
     else getTerminalLayoutInfo env wsId s)
  /\ _ptys (setTerminalLayoutInfo args s) = _ptys s
  /\ getTerminalLayoutInfo env wsId (new lastPtyId) = None.
Proof.
  split; [| split; [reflexivity |]].
  - unfold getTerminalLayoutInfo, setTerminalLayoutInfo.
    cbn [_workspaceLayoutInfos].
    destruct (decide (wsId = argsWorkspaceId args)) as [-> | Hne].
    + now rewrite lookup_insert_eq.
    + rewrite lookup_insert_ne by congruence.
      now destruct (_workspaceLayoutInfos s !! wsId).
  - unfold getTerminalLayoutInfo. cbn. now rewrite lookup_empty.
Qed.

(** What a stored reference expands to: a placeholder, or the descriptor
  of the process registered under its id. *)
Lemma expandTerminalInstance_cases (env : Awaited) (s : t)
    (ti : ITerminalInstanceLayoutInfoById) :
  terminal (_expandTerminalInstance env s ti) = None
  \/ exists pty cwd' orphan,
       _ptys s !! terminal ti = Some pty
       /\ _expandTerminalInstance env s ti
          = {| relativeSize := relativeSize ti;
               terminal :=
                 Some {| id := terminal ti;
                         title := PersistentTerminalProcess.title pty;
                         pid := PersistentTerminalProcess.pid pty;
                         workspaceId := PersistentTerminalProcess.workspaceId pty;
                         workspaceName :=
                           PersistentTerminalProcess.workspaceName pty;
                         cwd := cwd';
                         isOrphan := orphan |} |}.
Proof.
  unfold _expandTerminalInstance, _throwIfNoPty, _terminalToDto.
  destruct (_ptys s !! terminal ti) as [pty |]; [| now left].
  destruct (env (terminal ti)) as [[cwd' orphan] | message]; [| now left].
  right. eauto.
Qed.

(** X14.  The expansion of a stored tab keeps the flags of the tab and
  lists, in the stored order and with their stored relative sizes, the
  references that are live; the descriptor of each carries the id of the
  reference it was made from and the title, pid and workspace of the
  process registered under that id. *)
Theorem expanded_tab_follows_references (env : Awaited) (s : t)
    (tab : ITerminalTabLayoutInfoById) :
  let expanded := _expandTerminalTab env s tab in
  isActive expanded = isActive tab
  /\ activePersistentTerminalId expanded = activePersistentTerminalId tab
  /\ map (fun term => (id (terminal term), relativeSize term))
       (terminals expanded)
     = map (fun ti => (terminal ti, relativeSize ti))
         (List.filter (isLive env s) (terminals tab))
  /\ Forall
       (fun term =>
          exists pty,
            _ptys s !! id (terminal term) = Some pty
            /\ title (terminal term) = PersistentTerminalProcess.title pty
            /\ pid (terminal term) = PersistentTerminalProcess.pid pty
            /\ workspaceId (terminal term)
               = PersistentTerminalProcess.workspaceId pty
            /\ workspaceName (terminal term)
               = PersistentTerminalProcess.workspaceName pty)
       (terminals expanded).
Proof.
  intros expanded. subst expanded.
  split; [reflexivity |]. split; [reflexivity |].
  unfold _expandTerminalTab. cbn [terminals].
  induction (terminals tab) as [| ti tis [IHsizes IHdto]];
    [split; [reflexivity | constructor] |].
  cbn [map filterNotNull List.filter]. unfold isLive at 1.
  destruct (expandTerminalInstance_cases env s ti)
    as [Hnone | (pty & cwd' & orphan & Hreg & Hsome)].
  - rewrite Hnone. split; assumption.
  - rewrite Hsome. cbn. split; [now rewrite IHsizes |].
    constructor; [| exact IHdto]. exists pty. cbn. auto.
Qed.

(** X15.  In a reachable registry the calls for a registered id always
  reach the child of its process: [input], [acknowledgeDataEvent] and
  [shutdown] forward their arguments to it and leave the registry as it
  is, and [resize] forwards the new size. *)
Theorem calls_reach_registered_process (s : t) (i : Z)
    (pty : PersistentTerminalProcess.t) (data : string)
    (charCount cols rows : Z) (immediate : bool)
    (Hreach : reachable s) (Hreg : _ptys s !! i = Some pty) :
  input i data s
  = (s, [ProcessEffect i (PersistentTerminalProcess.TerminalInput data)], Ok ())
  /\ acknowledgeDataEvent i charCount s
     = (s, [ProcessEffect i
              (PersistentTerminalProcess.TerminalAcknowledgeDataEvent charCount)],
        Ok ())
  /\ shutdown i immediate s
     = (s, [ProcessEffect i (PersistentTerminalProcess.TerminalShutdown immediate)],
        Ok ())
  /\ snd (fst (resize i cols rows s))
     = [ProcessEffect i (PersistentTerminalProcess.TerminalResize cols rows)]
  /\ snd (resize i cols rows s) = Ok ().
Proof.
  destruct (reachable_registryInv s Hreach i pty Hreg) as (_ & _ & Hpty).
  pose proof (reachable_inReplay pty Hpty) as Hrep.
  unfold input, acknowledgeDataEvent, shutdown, resize, _throwIfNoPty.
  rewrite Hreg, !onPty_fst.
  unfold PersistentTerminalProcess.input,
    PersistentTerminalProcess.acknowledgeDataEvent,
    PersistentTerminalProcess.resize, PersistentTerminalProcess.shutdown.
  rewrite Hrep. cbn [fst snd map].
  rewrite (set_ptys_id s i pty Hreg). repeat split.
Qed.

Lemma calls_reach_registered_process_witness :
  let s := step (OpProcess 1 PersistentTerminalProcess.OpTriggerReplay)
             (step (OpCreateProcess {| attachPersistentTerminal := false |}
                      80 24 true "ws" "name") (new 0)) in
  reachable s
  /\ (exists pty, _ptys s !! 1 = Some pty)
  /\ input 1 "ls" s
     = (s, [ProcessEffect 1 (PersistentTerminalProcess.TerminalInput "ls")],
        Ok ()).
Proof.
  intros s.
  assert (Hreach : reachable s)
    by (do 2 apply reachable_step; apply reachable_new; reflexivity).
  assert (Hreg : _ptys s !! 1
                 = Some (PersistentTerminalProcess.new 1 "ws" "name" true 80 24))
    by reflexivity.
  split; [exact Hreach |]. split; [eauto |].
  apply (calls_reach_registered_process s 1 _ "ls" 0 80 24 true Hreach Hreg).
Defined.

(** X27.  A launch that fails is an ordinary result of [start]: for a
  registered process that is not started the call resolves to the launch
  error, the process stays registered under its id and is still not
  started, and the registry is as before.  A launch that succeeds marks
  the process started and keeps it registered. *)
Theorem failed_launch_keeps_process_registered (s : t) (i : Z)
    (pty : PersistentTerminalProcess.t) (err : ITerminalLaunchError)
    (Hreg : _ptys s !! i = Some pty)
    (Hnot : PersistentTerminalProcess._isStarted pty = false) :
  start i (Some err) s
  = (s, [ProcessEffect i PersistentTerminalProcess.TerminalStart],
     Ok (Some err))
  /\ snd (start i None s) = Ok None
  /\ snd (fst (start i None s))
     = [ProcessEffect i PersistentTerminalProcess.TerminalStart]
  /\ _ptys (fst (fst (start i None s))) !! i
     = Some (PersistentTerminalProcess.set_isStarted true pty).
Proof.
  unfold start, _throwIfNoPty. rewrite Hreg.
  unfold PersistentTerminalProcess.start, PersistentTerminalProcess.start_begin.
  rewrite Hnot. cbn.
  rewrite (set_ptys_id s i pty Hreg), lookup_insert_eq. repeat split.
Qed.

Lemma failed_launch_keeps_process_registered_witness :
  let s := fst (createProcess {| attachPersistentTerminal := false |}
                  80 24 true "ws" "name" (new 0)) in
  let pty := PersistentTerminalProcess.new 1 "ws" "name" true 80 24 in
  let err := {| launchMessage := "no shell"; launchCode := None |} in
  _ptys s !! 1 = Some pty
  /\ PersistentTerminalProcess._isStarted pty = false
  /\ start 1 (Some err) s
     = (s, [ProcessEffect 1 PersistentTerminalProcess.TerminalStart],
        Ok (Some err)).
Proof.
  intros s pty err. split; [reflexivity |]. split; [reflexivity |].
  apply (failed_launch_keeps_process_registered s 1 pty err eq_refl eq_refl).
Defined.

(** X16.  The first [shutdownAll] shuts the child of every registered
  process down immediately, persistent or not and whatever its grace
  timers are doing, shuts nothing else down, and empties the registry:
  afterwards every id is unknown, and the counter of ids and the layouts
  are kept.  It works once: on a registry that was disposed before,
  [shutdownAll] does nothing, so a process created after the first call
  is neither shut down nor removed by a second one. *)
Theorem shutdownAll_empties_registry (s : t) :
  let s' := fst (shutdownAll s) in
  (if _isDisposed s
   then shutdownAll s = (s, [])
   else
     (forall e,
        In e (snd (shutdownAll s))
        <-> exists i,
              is_Some (_ptys s !! i)
              /\ e = ProcessEffect i
                       (PersistentTerminalProcess.TerminalShutdown true))
     /\ (forall i, _throwIfNoPty i s' = Throw (UnknownProcess i))
     /\ (forall i data, input i data s' = (s', [], Throw (UnknownProcess i)))
     /\ _lastPtyId s' = _lastPtyId s
     /\ _workspaceLayoutInfos s' = _workspaceLayoutInfos s)
  /\ _isDisposed s' = true
  /\ (forall shellLaunchConfig cols rows shouldPersist wsId wsName,
        let s2 := fst (createProcess shellLaunchConfig cols rows shouldPersist
                         wsId wsName s') in
        shutdownAll s2 = (s2, [])).
Proof.
  intros s'.
  assert (Hdisposed : _isDisposed s' = true).
  { subst s'. unfold shutdownAll, dispose.
    destruct (_isDisposed s) eqn:E; [exact E | reflexivity]. }
  split; [| split; [exact Hdisposed |]].
  - subst s'. unfold shutdownAll, dispose.
    destruct (_isDisposed s); [reflexivity |]. cbn [fst snd disposePtys].
    split; [| unfold input, _throwIfNoPty; cbn; repeat split;
              intros; now rewrite lookup_empty].
    intros e. cbn [_ptys]. rewrite in_flat_map. split.
    + intros ([i pty] & Hin & He).
      apply list_elem_of_In in Hin. rewrite merge_sort_Permutation in Hin.
      apply elem_of_map_to_list in Hin.
      cbn in He. destruct He as [<- | []]. exists i. eauto.
    + intros (i & [pty Hreg] & ->). exists (i, pty). split; [| now left].
      apply list_elem_of_In. rewrite merge_sort_Permutation.
      now apply elem_of_map_to_list.
  - intros shellLaunchConfig cols rows shouldPersist wsId wsName s2.
    assert (H2 : _isDisposed s2 = true).
    { subst s2. unfold createProcess.
      now destruct (attachPersistentTerminal shellLaunchConfig). }
    unfold shutdownAll, dispose. now rewrite H2.
Qed.

End RegistryLifecycle.

(** * Further properties of the session dispatcher *)

Section DispatcherLifecycle.
Import Vscode.

(** X17.  In every reachable state of the dispatcher the connections of a
  type have pairwise distinct tokens, and each of them is the connection
  registered under its own token: there is at most one connection for a
  token of a type. *)
Theorem one_connection_per_token (s : t) (ty : ConnectionType)
    (Hreach : reachable s) :
  NoDup (map token (connectionsOf ty s))
  /\ forall c,
       In c (connectionsOf ty s)
       <-> lookupConnection ty (token c) s = Some c.
Proof.
  destruct (reachable_tokensUnique s Hreach ty) as [Hnd Hall].
  unfold connectionsOf, lookupConnection.
  split; [now rewrite keys_are_tokens |].
  intros c. split.
  - unfold JsMap.values. intros Hin.
    apply in_map_iff in Hin as ([k c'] & Heq & Hin). cbn in Heq. subst c'.
    pose proof Hall as Hall'. rewrite Forall_forall in Hall'.
    pose proof (Hall' (k, c) (proj2 (list_elem_of_In _ _) Hin)) as Hk.
    cbn in Hk. rewrite Hk. now apply In_get.
  - intros Hget. apply get_Some_In in Hget.
    unfold JsMap.values. change c with (snd (token c, c)). now apply in_map.
Qed.

Lemma one_connection_per_token_witness :
  let s := step (OpSocketClosed Management "c" 1700000000000)
             (step (OpConnect None (exampleRequest Management)
                      (exampleProtocol "c" false)) new) in
  reachable s
  /\ NoDup (map token (connectionsOf Management s)).
Proof.
  intros s.
  assert (Hreach : reachable s) by (do 2 apply reachable_step; apply reachable_new).
  split; [exact Hreach |].
  apply (one_connection_per_token s Management Hreach).
Defined.

Lemma get_app {V : Type} (k : string) (m1 m2 : JsMap.t V) :
  JsMap.get k (m1 ++ m2)
  = match JsMap.get k m1 with
    | Some v => Some v
    | None => JsMap.get k m2
    end.
Proof.
  induction m1 as [| [k0 v0] m1 IH]; simpl; [reflexivity |].
  now destruct (String.eqb k k0).
Qed.

Lemma get_filter {V : Type} (f : string * V -> bool) (k : string)
    (m : JsMap.t V) :
  NoDup (map fst m) ->
  JsMap.get k (List.filter f m)
  = match JsMap.get k m with
    | Some v => if f (k, v) then Some v else None
    | None => None
    end.
Proof.
  induction m as [| [k0 v0] m IH]; simpl; [reflexivity |].
  intros Hnd. inversion Hnd as [| ? ? Hnotin Hnd']; subst.
  destruct (String.eqb_spec k k0) as [-> | Hk].
  - destruct (f (k0, v0)); simpl.
    + now rewrite String.eqb_refl.
    + rewrite IH by exact Hnd'.
      assert (Hnone : JsMap.get k0 m = None)
        by (apply get_None_keys; now rewrite <- list_elem_of_In).
      now rewrite Hnone.
  - destruct (f (k0, v0)); simpl; [| now apply IH].
    destruct (String.eqb_spec k k0); [congruence | now apply IH].
Qed.

(** The table of every type after [connectSession], when no token
  occurs twice in the table of the session's type. *)
Lemma connectSession_table (ty ty' : ConnectionType)
    (message : ConnectionTypeRequest) (protocol : Protocol) (s : t) :
  NoDup (map fst (tableOf ty s)) ->
  let tok := reconnectionToken protocol in
  let conns := tableOf ty s in
  tableOf ty' (fst (fst (connectSession ty message protocol s)))
  = if decide (ty = ty')
    then
      if reconnection protocol
      then match JsMap.get tok conns with
           | Some c => JsMap.set tok (reconnect c) conns
           | None => conns
           end
      else if JsMap.has tok conns then conns
           else List.filter (fun entry => negb (isOffline (snd entry))) conns
                  ++ [(tok, fst (newConnection ty message protocol))]
    else tableOf ty' s.
Proof.
  intros Hnd tok conns. subst tok conns.
  assert (Hupd : forall m,
            tableOf ty' {| connections := <[ty := m]> (connections (ensureTable ty s)) |}
            = if decide (ty = ty') then m else tableOf ty' s).
  { intros m. destruct (decide (ty = ty')) as [<- | Hne].
    - apply tableOf_insert.
    - rewrite tableOf_insert_ne by exact Hne.
      rewrite <- (tableOf_ensureTable ty ty' s). now destruct (ensureTable ty s). }
  assert (Hsame : tableOf ty' (ensureTable ty s)
                  = if decide (ty = ty') then tableOf ty s else tableOf ty' s).
  { rewrite tableOf_ensureTable. now destruct (decide (ty = ty')) as [<- |]. }
  destruct (reconnection protocol) eqn:Hre.
  - unfold connectSession. rewrite tableOf_ensureTable, Hre. unfold JsMap.has.
    destruct (JsMap.get (reconnectionToken protocol) (tableOf ty s))
      as [c |] eqn:Hget; cbn [andb orb fst];
      try exact Hsame; apply Hupd.
  - destruct (JsMap.has (reconnectionToken protocol) (tableOf ty s)) eqn:Hhas.
    + rewrite connectSession_rejects by (now rewrite Hre). exact Hsame.
    + rewrite (connectSession_new ty message protocol s Hre Hhas).
      cbn [fst]. rewrite Hupd.
      destruct (decide (ty = ty')); [| reflexivity].
      rewrite dispose_table.
      * rewrite List.filter_app. cbn [List.filter snd].
        now rewrite (proj2 (newConnection_disposes_nothing ty message protocol)).
      * rewrite map_app. apply NoDup_app. repeat split; [exact Hnd | |].
        -- intros x Hx Hin. cbn in Hin.
           apply list_elem_of_singleton in Hin. subst x.
           apply has_false, get_None_keys in Hhas.
           apply Hhas. now apply list_elem_of_In.
        -- cbn. apply NoDup_singleton.
Qed.

(** The state [connect] leaves the dispatcher in. *)
Lemma connect_state (productCommit : option string)
    (message : ConnectionTypeRequest) (protocol : Protocol) (s : t) :
  fst (fst (connect productCommit message protocol s))
  = match desiredConnectionType message with
    | Some Management =>
        fst (fst (connectSession Management message protocol s))
    | Some ExtensionHost =>
        fst (fst (connectSession ExtensionHost message protocol s))
    | _ => s
    end.
Proof.
  unfold connect.
  destruct (desiredConnectionType message) as [[| |] |]; try reflexivity;
    now destruct (connectSession _ message protocol s) as [[? ?] ?].
Qed.

(** A string is none of the keys that a filter keeps when it is none of
  the keys. *)
Lemma keys_filter_has {V : Type} (f : string * V -> bool) (k : string)
    (m : JsMap.t V) :
  JsMap.get k m = None -> JsMap.get k (List.filter f m) = None.
Proof.
  rewrite !get_None_keys. intros Hnotin Hin. apply Hnotin.
  apply in_map_iff in Hin as (entry & <- & Hin).
  apply filter_In in Hin as [Hin _]. now apply in_map.
Qed.

(** X18.  In a reachable state [connect] changes the tokens of a table in
  one case only: a handshake of type Management or ExtensionHost that is
  no reconnection and whose token is not registered.  The tokens of the
  offline connections of that type, which the call disposes, then leave
  the table and the token of the handshake is added at its end.  In
  every other case (Tunnel, an unrecognized type, a reconnection, a
  duplicate) the tokens of every table are what they were. *)
Theorem tokens_registered_by_new_sessions_only (productCommit : option string)
    (message : ConnectionTypeRequest) (protocol : Protocol) (s : t)
    (ty : ConnectionType) (Hreach : reachable s) :
  let tok := reconnectionToken protocol in
  let s' := fst (fst (connect productCommit message protocol s)) in
  map fst (tableOf ty s')
  = if bool_decide (desiredConnectionType message = Some ty)
       && bool_decide (ty <> Tunnel)
       && negb (reconnection protocol)
       && negb (registered ty tok s)
    then map fst
           (List.filter (fun entry => negb (isOffline (snd entry)))
              (tableOf ty s))
           ++ [tok]
    else map fst (tableOf ty s).
Proof.
  intros tok s'. subst tok s'. rewrite connect_state. unfold registered.
  assert (Hnd : forall ty0, NoDup (map fst (tableOf ty0 s)))
    by (intros ty0; apply (reachable_tokensUnique s Hreach ty0)).
  destruct (desiredConnectionType message) as [[| |] |].
  1, 2:
    rewrite connectSession_table by apply Hnd;
    (destruct (decide (_ = ty)) as [<- | Hne];
     [ rewrite !bool_decide_eq_true_2 by congruence
     | rewrite (bool_decide_eq_false_2 (Some _ = Some ty)) by congruence;
       reflexivity ]);
    cbn [andb]; unfold JsMap.has;
    destruct (reconnection protocol);
    destruct (JsMap.get (reconnectionToken protocol) (tableOf _ s)) eqn:Hget;
    cbn [andb negb]; try reflexivity;
    try (rewrite keys_set; unfold JsMap.has; now rewrite Hget);
    now rewrite map_app.
  - destruct (decide (ty = Tunnel)) as [-> | Hne].
    + rewrite (bool_decide_eq_false_2 (Tunnel <> Tunnel)) by congruence.
      now rewrite andb_false_r.
    + now rewrite (bool_decide_eq_false_2 (Some Tunnel = Some ty)) by congruence.
  - now rewrite (bool_decide_eq_false_2 (None = Some ty)) by congruence.
Qed.

Lemma tokens_registered_by_new_sessions_only_witness :
  reachable exampleDispatcher
  /\ map fst (tableOf Management exampleDispatcher) = ["a"; "b"]
  /\ map fst
       (tableOf Management
          (fst (fst (connect None (exampleRequest Management)
                       (exampleProtocol "c" false) exampleDispatcher))))
     = ["c"].
Proof.
  pose proof exampleDispatcher_reachable as Hreach.
  split; [exact Hreach |]. split; [reflexivity |].
  rewrite (tokens_registered_by_new_sessions_only None
             (exampleRequest Management) (exampleProtocol "c" false)
             exampleDispatcher Management Hreach).
  reflexivity.
Defined.

(** X19.  In a reachable state [connect] changes what is registered under
  another token than the one of the handshake, or for another type than
  the one it asks for, in one way only: when it registers a new session,
  the connections of that type that are offline, which it disposes, are
  no longer registered.  Every other connection stays registered under
  its token. *)
Theorem other_sessions_kept_unless_disposed (productCommit : option string)
    (message : ConnectionTypeRequest) (protocol : Protocol) (s : t)
    (ty : ConnectionType) (tok : string)
    (Hreach : reachable s)
    (Hother : tok <> reconnectionToken protocol
              \/ desiredConnectionType message <> Some ty) :
  lookupConnection ty tok
    (fst (fst (connect productCommit message protocol s)))
  = match lookupConnection ty tok s with
    | Some c =>
        if bool_decide (desiredConnectionType message = Some ty)
           && bool_decide (ty <> Tunnel)
           && negb (reconnection protocol)
           && negb (registered ty (reconnectionToken protocol) s)
           && isOffline c
        then None
        else Some c
    | None => None
    end.
Proof.
  assert (Hnd : forall ty0, NoDup (map fst (tableOf ty0 s)))
    by (intros ty0; apply (reachable_tokensUnique s Hreach ty0)).
  assert (Hkeep : forall b : bool,
            b = false ->
            lookupConnection ty tok s
            = match lookupConnection ty tok s with
              | Some c => if b && isOffline c then None else Some c
              | None => None
              end).
  { intros b ->. now destruct (lookupConnection ty tok s). }
  unfold registered. rewrite connect_state.
  destruct (desiredConnectionType message) as [[| |] |] eqn:Hty.
  1, 2:
    unfold lookupConnection at 1; rewrite connectSession_table by apply Hnd;
    (destruct (decide (_ = ty)) as [<- | Hne];
     [| apply Hkeep;
        rewrite (bool_decide_eq_false_2 (Some _ = Some ty)) by congruence;
        reflexivity ]);
    (destruct Hother as [Htok | Habs]; [| congruence]);
    rewrite !bool_decide_eq_true_2 by congruence; cbn [andb];
    unfold JsMap.has;
    destruct (reconnection protocol);
    destruct (JsMap.get (reconnectionToken protocol) (tableOf _ s)) eqn:Hget;
    cbn [andb negb];
    try (apply (Hkeep false eq_refl));
    try (rewrite get_set_ne by congruence; apply (Hkeep false eq_refl));
    (rewrite get_app, get_filter by apply Hnd;
     unfold lookupConnection;
     destruct (JsMap.get tok (tableOf _ s)) as [c |]; cbn [snd];
     [destruct (isOffline c); cbn [negb] |]; try reflexivity;
     cbn [JsMap.get]; destruct (String.eqb_spec tok (reconnectionToken protocol));
     congruence).
  - apply Hkeep. destruct (decide (ty = Tunnel)) as [-> | Hne].
    + rewrite (bool_decide_eq_false_2 (Tunnel <> Tunnel)) by congruence.
      now rewrite andb_false_r.
    + now rewrite (bool_decide_eq_false_2 (Some Tunnel = Some ty)) by congruence.
  - apply Hkeep.
    now rewrite (bool_decide_eq_false_2 (None = Some ty)) by congruence.
Qed.

Lemma other_sessions_kept_unless_disposed_witness :
  let s := step (OpSocketClosed Management "a" 200)
             (step (OpConnect None (exampleRequest Management)
                      (exampleProtocol "b" false))
                (step (OpConnect None (exampleRequest Management)
                         (exampleProtocol "a" false)) new)) in
  let s' := fst (fst (connect None (exampleRequest Management)
                        (exampleProtocol "c" false) s)) in
  reachable s
  /\ "a" <> reconnectionToken (exampleProtocol "c" false)
  /\ "b" <> reconnectionToken (exampleProtocol "c" false)
  /\ lookupConnection Management "a" s = Some offlineA
  /\ lookupConnection Management "a" s' = None
  /\ lookupConnection Management "b" s'
     = Some {| token := "b"; flavour := ManagementConnection; offline := None |}.
Proof.
  intros s s'.
  assert (Hreach : reachable s) by (do 3 apply reachable_step; apply reachable_new).
  assert (Ha : "a" <> reconnectionToken (exampleProtocol "c" false))
    by discriminate.
  assert (Hb : "b" <> reconnectionToken (exampleProtocol "c" false))
    by discriminate.
  split; [exact Hreach |]. split; [exact Ha |]. split; [exact Hb |].
  split; [reflexivity |]. subst s'.
  rewrite (other_sessions_kept_unless_disposed None (exampleRequest Management)
             (exampleProtocol "c" false) s Management "a" Hreach (or_introl Ha)).
  rewrite (other_sessions_kept_unless_disposed None (exampleRequest Management)
             (exampleProtocol "c" false) s Management "b" Hreach (or_introl Hb)).
  split; reflexivity.
Defined.

Lemma connectSession_reconnects (ty : ConnectionType)
    (message : ConnectionTypeRequest) (protocol : Protocol) (s : t)
    (c : Connection) :
  reconnection protocol = true ->
  lookupConnection ty (reconnectionToken protocol) s = Some c ->
  connectSession ty message protocol s
  = ({| connections :=
          <[ty := JsMap.set (reconnectionToken protocol) (reconnect c)
                    (tableOf ty s)]> (connections (ensureTable ty s)) |},
     [SendMessage (ok ty); ReadEntireBuffer; ProtocolDispose;
      ConnectionReconnect c (entireBuffer protocol)],
     Ok ()).
Proof.
  unfold lookupConnection, connectSession. intros Hre Hget.
  rewrite tableOf_ensureTable, Hre. unfold JsMap.has. now rewrite Hget.
Qed.

(** X20.  A reconnection for a registered token is acknowledged and handed
  to the connection registered under the token, together with the bytes
  read ahead on the new socket, and the protocol object is disposed.  The
  tables keep their tokens, the connection stays registered under its
  token, and no connection is disposed. *)
Theorem reconnection_rebinds_registered_connection
    (productCommit : option string) (message : ConnectionTypeRequest)
    (protocol : Protocol) (s : t) (ty : ConnectionType) (c : Connection)
    (Hty : desiredConnectionType message = Some ty) (Hsession : ty <> Tunnel)
    (Hreconnection : reconnection protocol = true)
    (Hregistered : lookupConnection ty (reconnectionToken protocol) s = Some c) :
  let out := connect productCommit message protocol s in
  snd out = Ok ()
  /\ snd (fst out)
     = versionCheck productCommit message
         ++ [SendMessage (ok ty); ReadEntireBuffer; ProtocolDispose;
             ConnectionReconnect c (entireBuffer protocol)]
  /\ map fst (tableOf ty (fst (fst out))) = map fst (tableOf ty s)
  /\ lookupConnection ty (reconnectionToken protocol) (fst (fst out))
     = Some (reconnect c)
  /\ disposedConnections (snd (fst out)) = [].
Proof.
  intros out. subst out.
  rewrite (connect_session _ _ _ _ ty Hty Hsession).
  rewrite (connectSession_reconnects ty message protocol s c
             Hreconnection Hregistered).
  cbn [fst snd]. unfold lookupConnection in *. rewrite tableOf_insert.
  split; [reflexivity |]. split; [reflexivity |].
  split.
  { rewrite keys_set. unfold JsMap.has. now rewrite Hregistered. }
  split; [apply get_set_eq |].
  rewrite disposedConnections_app, versionCheck_disposes_nothing. reflexivity.
Qed.

Lemma reconnection_rebinds_registered_connection_witness :
  let out := connect None (exampleRequest Management)
               (exampleProtocol "a" true) exampleDispatcher in
  desiredConnectionType (exampleRequest Management) = Some Management
  /\ Management <> Tunnel
  /\ reconnection (exampleProtocol "a" true) = true
  /\ lookupConnection Management "a" exampleDispatcher = Some offlineA
  /\ lookupConnection Management "a" (fst (fst out)) = Some (reconnect offlineA).
Proof.
  intros out.
  assert (Hne : Management <> Tunnel) by discriminate.
  split; [reflexivity |]. split; [exact Hne |].
  split; [reflexivity |]. split; [reflexivity |].
  apply (reconnection_rebinds_registered_connection None
           (exampleRequest Management) (exampleProtocol "a" true)
           exampleDispatcher Management offlineA eq_refl Hne eq_refl eq_refl).
Defined.

(** X21.  A version mismatch is never fatal: the commit of the product and
  the commit the client announces decide whether one warning is logged
  before anything else, and nothing more.  State, result and all other
  calls of [connect] are those of a server without a commit. *)
Theorem version_mismatch_only_warns (productCommit : option string)
    (message : ConnectionTypeRequest) (protocol : Protocol) (s : t) :
  let base := connect None message protocol s in
  connect productCommit message protocol s
  = (fst (fst base), versionCheck productCommit message ++ snd (fst base),
     snd base)
  /\ (versionCheck productCommit message = []
      \/ exists ours,
           productCommit = Some ours
           /\ commit message <> Some ours
           /\ versionCheck productCommit message
              = [LogWarnVersionMismatch (commit message) ours]).
Proof.
  split.
  - unfold connect. cbn [versionCheck app].
    destruct (desiredConnectionType message) as [[| |] |];
      cbn [fst snd]; rewrite ?app_nil_r; try reflexivity;
      match goal with
      | |- context [connectSession ?ty message protocol s] =>
          now destruct (connectSession ty message protocol s) as [[? ?] ?]
      end.
  - unfold versionCheck. destruct productCommit as [ours |]; [| now left].
    destruct (truthy ours); cbn [andb]; [| now left].
    destruct (bool_decide_reflect (commit message = Some ours)); cbn [negb];
      [now left | right; eauto].
Qed.

(** X22.  [handleWebSocket] is rejected in one case only, a reconnection
  token that is missing from the query or empty, and then it has done
  nothing.  In every other case it resolves to [true], also when the
  handshake or [connect] fails; a handshake that is rejected is reported
  on the socket, which is then torn down, and the tables are not
  touched. *)
Theorem handleWebSocket_resolves_unless_token_missing
    (productCommit : option string) (query : Query) (deflate : bool)
    (handshake : Result ConnectionTypeRequest) (buffered : string) (s : t) :
  let out := handleWebSocket productCommit query deflate handshake buffered s in
  match queryReconnectionToken query with
  | Some (String _ _) =>
      snd out = Ok true
      /\ forall reason,
           handshake = Throw reason ->
           out = (s, [SendMessage (MsgError reason); ProtocolDispose;
                      SocketDispose], Ok true)
  | _ => out = (s, [], Throw MissingToken)
  end.
Proof.
  intros out. subst out. unfold handleWebSocket.
  destruct (queryReconnectionToken query) as [[| c tok] |]; try reflexivity.
  cbn [truthy negb]. split.
  - destruct handshake as [message | reason]; [| reflexivity].
    now destruct (connect productCommit message _ s) as [[s' effs] [[] | reason]].
  - now intros reason ->.
Qed.

(** X23.  Whenever [connect] throws, it throws one of its three errors, it
  has sent no acknowledgement and made no other call than the version
  check, and the table of every type holds what it held. *)
Theorem failed_connect_changes_nothing (productCommit : option string)
    (message : ConnectionTypeRequest) (protocol : Protocol) (s : t)
    (reason : string)
    (Hfail : snd (connect productCommit message protocol s) = Throw reason) :
  (forall ty,
     tableOf ty (fst (fst (connect productCommit message protocol s)))
     = tableOf ty s)
  /\ snd (fst (connect productCommit message protocol s))
     = versionCheck productCommit message
  /\ (reason = DuplicateToken \/ reason = UnrecognizedToken
      \/ reason = UnrecognizedConnectionType).
Proof.
  assert (Hsession : forall ty,
            snd (connectSession ty message protocol s) = Throw reason ->
            connectSession ty message protocol s
            = (ensureTable ty s, [], Throw reason)
            /\ (reason = DuplicateToken \/ reason = UnrecognizedToken)).
  { intros ty. unfold connectSession. rewrite tableOf_ensureTable.
    destruct (reconnection protocol && JsMap.has _ _).
    - now destruct (JsMap.get _ _).
    - destruct (reconnection protocol || JsMap.has _ _).
      + cbn. intros [= <-]. split; [reflexivity |].
        destruct (reconnection protocol); auto.
      + now destruct (newConnection ty message protocol). }
  revert Hfail. unfold connect.
  destruct (desiredConnectionType message) as [[| |] |].
  - destruct (connectSession Management message protocol s) as [[s' effs] r] eqn:E.
    cbn. intros ->. destruct (Hsession Management) as [Heq Hr]; [now rewrite E |].
    rewrite E in Heq. injection Heq as -> ->.
    rewrite app_nil_r. repeat split; [| tauto].
    intros ty. apply tableOf_ensureTable.
  - destruct (connectSession ExtensionHost message protocol s) as [[s' effs] r] eqn:E.
    cbn. intros ->. destruct (Hsession ExtensionHost) as [Heq Hr]; [now rewrite E |].
    rewrite E in Heq. injection Heq as -> ->.
    rewrite app_nil_r. repeat split; [| tauto].
    intros ty. apply tableOf_ensureTable.
  - discriminate.
  - cbn. intros [= <-]. auto.
Qed.

Lemma failed_connect_changes_nothing_witness :
  let out := connect None
               {| desiredConnectionType := None; commit := None;
                  argsLanguage := None |}
               (exampleProtocol "c" false) exampleDispatcher in
  snd out = Throw UnrecognizedConnectionType
  /\ snd (fst out) = []
  /\ tableOf Management (fst (fst out)) = tableOf Management exampleDispatcher.
Proof.
  intros out.
  destruct (failed_connect_changes_nothing None
              {| desiredConnectionType := None; commit := None;
                 argsLanguage := None |}
              (exampleProtocol "c" false) exampleDispatcher
              UnrecognizedConnectionType eq_refl) as (Htables & Heffs & _).
  split; [reflexivity |]. split; [exact Heffs | apply Htables].
Defined.

(** X24.  When the close listener of a connection has run in a reachable
  state, no connection is registered under its token any more, so that a
  reconnection with that token is refused as unrecognized; the
  connections under other tokens and of other types stay registered. *)
Theorem closed_connection_is_unregistered (s : t) (ty : ConnectionType)
    (tok : string) (Hreach : reachable s) :
  let s' := fst (onClose ty tok s) in
  lookupConnection ty tok s' = None
  /\ (forall tok', tok' <> tok ->
        lookupConnection ty tok' s' = lookupConnection ty tok' s)
  /\ (forall ty', ty' <> ty -> tableOf ty' s' = tableOf ty' s)
  /\ (forall productCommit message protocol,
        desiredConnectionType message = Some ty -> ty <> Tunnel ->
        reconnectionToken protocol = tok -> reconnection protocol = true ->
        snd (connect productCommit message protocol s')
        = Throw UnrecognizedToken).
Proof.
  intros s'.
  destruct (reachable_tokensUnique s Hreach ty) as [Hnd _].
  assert (Htable : tableOf ty s' = JsMap.delete tok (tableOf ty s)).
  { subst s'. unfold onClose, tableOf.
    destruct (connections s !! ty) as [m |] eqn:Hm; cbn [fst connections].
    - now rewrite lookup_insert_eq.
    - now rewrite Hm. }
  assert (Hgone : lookupConnection ty tok s' = None).
  { unfold lookupConnection. rewrite Htable. now apply get_delete_eq. }
  split; [exact Hgone |]. split; [| split].
  - intros tok' Hne. unfold lookupConnection. rewrite Htable.
    apply get_delete_ne. congruence.
  - intros ty' Hne. subst s'. unfold onClose.
    destruct (connections s !! ty) as [m |]; [| reflexivity].
    cbn [fst]. rewrite tableOf_insert_ne by congruence. now destruct s.
  - intros productCommit message protocol Hty Hsession Htok Hre.
    rewrite (connect_session _ _ _ _ ty Hty Hsession).
    rewrite connectSession_rejects.
    + now rewrite Hre.
    + rewrite Hre, Htok. unfold registered, JsMap.has.
      unfold lookupConnection in Hgone. now rewrite Hgone.
Qed.

Lemma closed_connection_is_unregistered_witness :
  let s := step (OpConnect None (exampleRequest Management)
                   (exampleProtocol "c" false)) new in
  reachable s
  /\ lookupConnection Management "c" s
     = Some {| token := "c"; flavour := ManagementConnection; offline := None |}
  /\ lookupConnection Management "c" (fst (onClose Management "c" s)) = None.
Proof.
  intros s.
  assert (Hreach : reachable s) by (apply reachable_step, reachable_new).
  split; [exact Hreach |]. split; [reflexivity |].
  apply (closed_connection_is_unregistered s Management "c" Hreach).
Defined.

(** X25.  [connect] disposes a connection in one case only: when it
  registers a new session, and then exactly the connections that were in
  the table of that type before and have their offline marker set.  The
  connection it registers, the connections with a bound socket and the
  connections of other types are never disposed, and a reconnection, a
  tunnel or a failing handshake disposes nothing. *)
Theorem disposed_exactly_old_offline (productCommit : option string)
    (message : ConnectionTypeRequest) (protocol : Protocol) (s : t)
    (c : Connection) :
  In (ConnectionDispose c)
    (snd (fst (connect productCommit message protocol s)))
  <-> exists ty,
        desiredConnectionType message = Some ty /\ ty <> Tunnel
        /\ reconnection protocol = false
        /\ registered ty (reconnectionToken protocol) s = false
        /\ In c (connectionsOf ty s) /\ isOffline c = true.
Proof.
  rewrite <- disposedConnections_In.
  assert (Hnew : forall ty,
            desiredConnectionType message = Some ty -> ty <> Tunnel ->
            reconnection protocol = false ->
            registered ty (reconnectionToken protocol) s = false ->
            (In c (disposedConnections
                     (snd (fst (connect productCommit message protocol s))))
             <-> In c (connectionsOf ty s) /\ isOffline c = true)).
  { intros ty Hty Hsession Hre Hfree.
    rewrite (connect_new productCommit message protocol s ty Hty Hsession Hre Hfree).
    cbn [fst snd]. rewrite connect_new_disposed.
    unfold offlineConnections, connectionsOf. now rewrite filter_In. }
  assert (Hnone : forall ty,
            desiredConnectionType message = Some ty -> ty <> Tunnel ->
            (reconnection protocol = true
             \/ registered ty (reconnectionToken protocol) s = true) ->
            disposedConnections
              (snd (fst (connect productCommit message protocol s))) = []).
  { intros ty Hty Hsession Hcase.
    rewrite (connect_session _ _ _ _ ty Hty Hsession). cbn [fst snd].
    rewrite disposedConnections_app, versionCheck_disposes_nothing.
    unfold connectSession. rewrite tableOf_ensureTable.
    unfold registered in Hcase.
    destruct (reconnection protocol);
      destruct (JsMap.has (reconnectionToken protocol) (tableOf ty s)) eqn:Hhas;
      cbn [andb orb]; try reflexivity.
    - now destruct (JsMap.get _ _).
    - destruct Hcase; discriminate. }
  destruct (desiredConnectionType message) as [ty |] eqn:Hty.
  - destruct (decide (ty = Tunnel)) as [-> | Hsession].
    + unfold connect. rewrite Hty. cbn [fst snd].
      rewrite disposedConnections_app, versionCheck_disposes_nothing. cbn.
      split; [tauto |]. intros (ty & [= <-] & Hne & _). congruence.
    + destruct (reconnection protocol) eqn:Hre.
      * rewrite (Hnone ty eq_refl Hsession (or_introl eq_refl)).
        split; [intros [] |]. intros (ty' & _ & _ & Habs & _). discriminate.
      * destruct (registered ty (reconnectionToken protocol) s) eqn:Hreg.
        -- rewrite (Hnone ty eq_refl Hsession (or_intror Hreg)).
           split; [intros [] |].
           intros (ty' & [= <-] & _ & _ & Habs & _). congruence.
        -- rewrite (Hnew ty eq_refl Hsession eq_refl Hreg). split.
           ++ intros [Hin Hoff]. exists ty. repeat split; auto.
           ++ intros (ty' & [= <-] & _ & _ & _ & Hin & Hoff). auto.
  - unfold connect. rewrite Hty. cbn [fst snd].
    rewrite versionCheck_disposes_nothing.
    split; [intros [] |]. intros (ty & Habs & _). discriminate.
Qed.

(** X26.  A session that was registered can be taken up again: after a
  new session of type Management or ExtensionHost, a reconnection with
  the same token is handed to the connection that was built for the
  session, and a second handshake with that token that is no
  reconnection is refused as a duplicate. *)
Theorem registered_session_can_reconnect (productCommit : option string)
    (message message' : ConnectionTypeRequest) (protocol protocol' : Protocol)
    (s : t) (ty : ConnectionType)
    (Hty : desiredConnectionType message = Some ty) (Hsession : ty <> Tunnel)
    (Hnew : reconnection protocol = false)
    (Hfree : registered ty (reconnectionToken protocol) s = false)
    (Hty' : desiredConnectionType message' = Some ty)
    (Htoken : reconnectionToken protocol' = reconnectionToken protocol) :
  let s' := fst (fst (connect productCommit message protocol s)) in
  let connection := fst (newConnection ty message protocol) in
  if reconnection protocol'
  then connect productCommit message' protocol' s'
       = (fst (fst (connect productCommit message' protocol' s')),
          versionCheck productCommit message'
            ++ [SendMessage (ok ty); ReadEntireBuffer; ProtocolDispose;
                ConnectionReconnect connection (entireBuffer protocol')],
          Ok ())
  else connect productCommit message' protocol' s'
       = (s', versionCheck productCommit message', Throw DuplicateToken).
Proof.
  intros s' connection.
  assert (Hreg : lookupConnection ty (reconnectionToken protocol') s'
                 = Some connection).
  { subst s'. rewrite Htoken.
    apply (connect_new_registered productCommit message protocol s ty
             Hty Hsession Hnew Hfree). }
  assert (Htable : connections s' !! ty <> None).
  { subst s'.
    rewrite (connect_new productCommit message protocol s ty
               Hty Hsession Hnew Hfree).
    cbn [fst connections]. now rewrite lookup_insert_eq. }
  rewrite (connect_session _ _ _ _ ty Hty' Hsession).
  destruct (reconnection protocol') eqn:Hre.
  - now rewrite (connectSession_reconnects ty message' protocol' s' connection
                   Hre Hreg).
  - rewrite connectSession_rejects.
    + rewrite Hre. cbn [fst snd]. rewrite app_nil_r.
      unfold ensureTable. now destruct (connections s' !! ty).
    + rewrite Hre. unfold registered, JsMap.has.
      unfold lookupConnection in Hreg. now rewrite Hreg.
Qed.

Lemma registered_session_can_reconnect_witness :
  let s' := fst (fst (connect None (exampleRequest ExtensionHost)
                        (exampleProtocol "c" false) new)) in
  desiredConnectionType (exampleRequest ExtensionHost) = Some ExtensionHost
  /\ ExtensionHost <> Tunnel
  /\ reconnection (exampleProtocol "c" false) = false
  /\ registered ExtensionHost "c" new = false
  /\ reconnectionToken (exampleProtocol "c" true)
     = reconnectionToken (exampleProtocol "c" false)
  /\ snd (connect None (exampleRequest ExtensionHost)
            (exampleProtocol "c" true) s') = Ok ().
Proof.
  intros s'.
  assert (Hne : ExtensionHost <> Tunnel) by discriminate.
  split; [reflexivity |]. split; [exact Hne |].
  split; [reflexivity |]. split; [reflexivity |]. split; [reflexivity |].
  pose proof (registered_session_can_reconnect None
                (exampleRequest ExtensionHost) (exampleRequest ExtensionHost)
                (exampleProtocol "c" false) (exampleProtocol "c" true)
                new ExtensionHost eq_refl Hne eq_refl eq_refl eq_refl eq_refl)
    as H.
  cbn [exampleProtocol reconnection] in H. fold s' in H. now rewrite H.
Defined.

End DispatcherLifecycle.
